(** * Living Tapestry: the simulation engine, embedded and verified

    A shallow embedding of the deterministic core of the engine
    ([engine/data_models.py], [engine/events.py], [engine/world_state.py],
    [engine/simulator.py], [engine/tools/move.py], [rpg/combat_rules.py])
    together with the properties its specification states about it.

    Conventions of the embedding.
    - Python [int] is [Z]; [str] is [string]; [Optional[str]] is
      [option string]; a [Dict[str, V]] is an insertion-ordered association
      list ([dict V]), because the engine iterates over its dictionaries
      ([find_npc_location], [update_hunger], [compute_ac]) and the order of
      iteration decides the result.
    - Objects mutated in place (agents, location states, item instances) live
      in the dictionaries of the world and are updated by key.
    - A Python function that mutates [self] and may raise is a function from
      the state to a [result] and the state it leaves behind: what was
      mutated before the exception stays mutated.
    - [print], narration and the renderer do not touch the state and are
      left out. *)

From Stdlib Require Import ZArith List String Ascii Bool Lia Permutation.
Import ListNotations.
Open Scope string_scope.
Open Scope list_scope.
Open Scope Z_scope.

(** ** Python values, exceptions and containers *)

(** The values a JSON-like payload or parameter dictionary holds. *)
#[warnings="-register-all"] Inductive pyval : Type :=
| VNone
| VBool (b : bool)
| VInt (z : Z)
| VStr (s : string)
| VList (l : list pyval).

(** The exceptions the engine can raise. [Unmodelled] is not a Python
    exception: it is what the embedding answers where the source leaves the
    model (the [reason] and [reflect] events, which rewrite the long-term
    memory). *)
Inductive exn : Type :=
| KeyError (key : string)
| IndexError
| TypeError
| ValueError (msg : string)
| Unmodelled (what : string).

Inductive result (A : Type) : Type :=
| Ok (a : A)
| Raise (e : exn).
Arguments Ok {A} a.
Arguments Raise {A} e.

(** Python truthiness ([if x:], [not x], [x or y]). *)
Definition truthy_str (s : string) : bool := negb (String.eqb s "").

Definition truthy_ostr (o : option string) : bool :=
  match o with Some s => truthy_str s | None => false end.

Definition truthy (v : pyval) : bool :=
  match v with
  | VNone => false
  | VBool b => b
  | VInt z => negb (z =? 0)
  | VStr s => truthy_str s
  | VList l => match l with [] => false | _ => true end
  end.

(** [a or b] on values. *)
Definition py_or (a b : pyval) : pyval := if truthy a then a else b.

(** [x in l] on a list of strings. *)
Definition mem_str (x : string) (l : list string) : bool :=
  existsb (String.eqb x) l.

(** [l.remove(x)]: drops the first occurrence (callers test [x in l] first). *)
Fixpoint remove_first (x : string) (l : list string) : list string :=
  match l with
  | [] => []
  | y :: r => if String.eqb x y then r else y :: remove_first x r
  end.

(** Insertion-ordered dictionaries with string keys. *)
Definition dict (V : Type) : Type := list (string * V).

Module Dict.
Section Ops.
Context {V : Type}.

Fixpoint get (d : dict V) (k : string) : option V :=
    match d with
    | [] => None
    | (k', v) :: r => if String.eqb k' k then Some v else get r k
    end.

Definition mem (d : dict V) (k : string) : bool :=
    match get d k with Some _ => true | None => false end.

  (** [d[k] = v]: overwrites in place, or appends a new key at the end. *)
Fixpoint set (d : dict V) (k : string) (v : V) : dict V :=
    match d with
    | [] => [(k, v)]
    | (k', v') :: r =>
        if String.eqb k' k then (k', v) :: r else (k', v') :: set r k v
    end.

  (** [d.pop(k, None)]. *)
Fixpoint pop (d : dict V) (k : string) : dict V :=
    match d with
    | [] => []
    | (k', v') :: r => if String.eqb k' k then r else (k', v') :: pop r k
    end.

Definition keys (d : dict V) : list string := map fst d.
Definition values (d : dict V) : list V := map snd d.

  (** [d.get(k, default)]. *)
Definition get_default (d : dict V) (k : string) (default : V) : V :=
    match get d k with Some v => v | None => default end.
End Ops.
End Dict.

(** [k in d] for a key taken from a payload: only a string can equal a key,
    an unhashable list raises [TypeError]. *)
Definition py_in_dict {V} (k : pyval) (d : dict V) : result bool :=
  match k with
  | VStr s => Ok (Dict.mem d s)
  | VList _ => Raise TypeError
  | _ => Ok false
  end.

(** ** Data model ([engine/data_models.py], [engine/events.py]) *)

Module PerceptionEvent.
Record t : Type := mk {
    event_type : string;
    tick : Z;
    actor_id : option string;
    target_ids : list string;
    location_id : option string;
    payload : dict pyval
  }.
End PerceptionEvent.

Module Event.
Record t : Type := mk {
    event_type : string;
    tick : Z;
    actor_id : string;
    target_ids : list string;
    payload : dict pyval
  }.
End Event.

(** The long-term memory fields of an agent ([memories], [goals],
    [relationships], [core_memories], [known_locations]) are written only by
    the [reason] and [reflect] events and by the editor; they are not part of
    this model. *)
Module NPC.
Record t : Type := mk {
    id : string;
    name : string;
    inventory : list string;
    slots : dict (option string);
    hp : Z;
    tags : dict (list string);
    short_term_memory : list PerceptionEvent.t;
    next_available_tick : Z;
    last_meal_tick : Z;
    hunger_stage : string;
    attributes : dict Z;
    skills : dict string
  }.

Definition with_inventory (n : t) (v : list string) : t :=
    mk (id n) (name n) v (slots n) (hp n) (tags n) (short_term_memory n)
       (next_available_tick n) (last_meal_tick n) (hunger_stage n)
       (attributes n) (skills n).
Definition with_slots (n : t) (v : dict (option string)) : t :=
    mk (id n) (name n) (inventory n) v (hp n) (tags n) (short_term_memory n)
       (next_available_tick n) (last_meal_tick n) (hunger_stage n)
       (attributes n) (skills n).
Definition with_hp (n : t) (v : Z) : t :=
    mk (id n) (name n) (inventory n) (slots n) v (tags n) (short_term_memory n)
       (next_available_tick n) (last_meal_tick n) (hunger_stage n)
       (attributes n) (skills n).
Definition with_tags (n : t) (v : dict (list string)) : t :=
    mk (id n) (name n) (inventory n) (slots n) (hp n) v (short_term_memory n)
       (next_available_tick n) (last_meal_tick n) (hunger_stage n)
       (attributes n) (skills n).
Definition with_short_term_memory (n : t) (v : list PerceptionEvent.t) : t :=
    mk (id n) (name n) (inventory n) (slots n) (hp n) (tags n) v
       (next_available_tick n) (last_meal_tick n) (hunger_stage n)
       (attributes n) (skills n).
Definition with_next_available_tick (n : t) (v : Z) : t :=
    mk (id n) (name n) (inventory n) (slots n) (hp n) (tags n)
       (short_term_memory n) v (last_meal_tick n) (hunger_stage n)
       (attributes n) (skills n).
Definition with_last_meal_tick (n : t) (v : Z) : t :=
    mk (id n) (name n) (inventory n) (slots n) (hp n) (tags n)
       (short_term_memory n) (next_available_tick n) v (hunger_stage n)
       (attributes n) (skills n).
Definition with_hunger_stage (n : t) (v : string) : t :=
    mk (id n) (name n) (inventory n) (slots n) (hp n) (tags n)
       (short_term_memory n) (next_available_tick n) (last_meal_tick n) v
       (attributes n) (skills n).

  (** [npc.tags.get("dynamic", [])] and [... .get("inherent") or []]. *)
Definition dynamic_tags (n : t) : list string :=
    Dict.get_default (tags n) "dynamic" [].
Definition inherent_tags (n : t) : list string :=
    Dict.get_default (tags n) "inherent" [].

  (** ["dead" in npc.tags.get("dynamic", [])]. *)
Definition is_dead (n : t) : bool := mem_str "dead" (dynamic_tags n).
End NPC.

Module LocationStatic.
Record t : Type := mk {
    id : string;
    description : string;
    tags : dict (list string);
    hex_connections : dict string
  }.
End LocationStatic.

(** One entry of [connections_state]: the dictionary [{status, direction}],
    either key possibly absent. *)
Module Edge.
Record t : Type := mk {
    status : option string;
    direction : option string
  }.
Definition empty : t := mk None None.
Definition with_status (e : t) (s : string) : t := mk (Some s) (direction e).
Definition with_direction (e : t) (d : string) : t := mk (status e) (Some d).

  (** [conn.get("status", "open") == "open"]. *)
Definition is_open (e : t) : bool :=
    match status e with Some s => String.eqb s "open" | None => true end.
End Edge.

Module LocationState.
Record t : Type := mk {
    id : string;
    occupants : list string;
    items : list string;
    sublocations : list string;
    transient_effects : list string;
    connections_state : dict Edge.t
  }.
Definition with_occupants (l : t) (v : list string) : t :=
    mk (id l) v (items l) (sublocations l) (transient_effects l)
       (connections_state l).
Definition with_items (l : t) (v : list string) : t :=
    mk (id l) (occupants l) v (sublocations l) (transient_effects l)
       (connections_state l).
Definition with_connections_state (l : t) (v : dict Edge.t) : t :=
    mk (id l) (occupants l) (items l) (sublocations l) (transient_effects l) v.

  (** [LocationState(id=x, occupants=[], items=[], ...)]. *)
Definition fresh (x : string) : t := mk x [] [] [] [] [].
End LocationState.

Module ItemBlueprint.
Record t : Type := mk {
    id : string;
    name : string;
    weight : Z;
    damage_dice : string;
    damage_type : string;
    armour_rating : Z;
    skill_tag : string;
    properties : list string
  }.
End ItemBlueprint.

(** [item_state] (free-form) is never read by the engine and is left out. *)
Module ItemInstance.
Record t : Type := mk {
    id : string;
    blueprint_id : string;
    current_location : option string;
    owner_id : option string;
    inventory : list string;
    tags : dict (list string)
  }.
Definition with_place (i : t) (loc owner : option string) : t :=
    mk (id i) (blueprint_id i) loc owner (inventory i) (tags i).
Definition with_owner_id (i : t) (owner : option string) : t :=
    mk (id i) (blueprint_id i) (current_location i) owner (inventory i) (tags i).
End ItemInstance.

(** ** World state ([engine/world_state.py]) *)

Module WorldState.
Record t : Type := mk {
    npcs : dict NPC.t;
    locations_static : dict LocationStatic.t;
    locations_state : dict LocationState.t;
    item_blueprints : dict ItemBlueprint.t;
    item_instances : dict ItemInstance.t
  }.
Definition with_npcs (w : t) (v : dict NPC.t) : t :=
    mk v (locations_static w) (locations_state w) (item_blueprints w)
       (item_instances w).
Definition with_locations_state (w : t) (v : dict LocationState.t) : t :=
    mk (npcs w) (locations_static w) v (item_blueprints w) (item_instances w).
Definition with_item_instances (w : t) (v : dict ItemInstance.t) : t :=
    mk (npcs w) (locations_static w) (locations_state w) (item_blueprints w) v.
End WorldState.

Import WorldState(npcs, locations_static, locations_state, item_blueprints,
                  item_instances).

(** [d[k]] as the getters of the world use it. *)
Definition subscript {V} (d : dict V) (k : string) : result V :=
  match Dict.get d k with Some v => Ok v | None => Raise (KeyError k) end.

Definition get_npc (w : WorldState.t) (npc_id : string) : result NPC.t :=
  subscript (npcs w) npc_id.
Definition get_location_static (w : WorldState.t) (loc_id : string)
  : result LocationStatic.t := subscript (locations_static w) loc_id.
Definition get_location_state (w : WorldState.t) (loc_id : string)
  : result LocationState.t := subscript (locations_state w) loc_id.
Definition get_item_instance (w : WorldState.t) (item_id : string)
  : result ItemInstance.t := subscript (item_instances w) item_id.
Definition get_item_blueprint (w : WorldState.t) (blueprint_id : string)
  : result ItemBlueprint.t := subscript (item_blueprints w) blueprint_id.

(** [find_npc_location]: the first location, in dictionary order, whose
    occupants hold the agent. *)
Fixpoint find_in_locations (locs : dict LocationState.t) (npc_id : string)
  : option string :=
  match locs with
  | [] => None
  | (loc_id, loc) :: r =>
      if mem_str npc_id (LocationState.occupants loc) then Some loc_id
      else find_in_locations r npc_id
  end.

Definition find_npc_location (w : WorldState.t) (npc_id : string)
  : option string := find_in_locations (locations_state w) npc_id.

(** *** Hunger *)

Definition HUNGRY_THRESHOLD : Z := 20.
Definition STARVING_THRESHOLD : Z := 40.

(** The body of the loop of [update_hunger] for one agent: the agent as the
    loop leaves it and the events it appends. *)
Definition hunger_step (current_tick : Z) (npc : NPC.t)
  : NPC.t * list Event.t :=
  if NPC.is_dead npc then (npc, [])
  else
    let ticks_since := current_tick - NPC.last_meal_tick npc in
    if STARVING_THRESHOLD <=? ticks_since then
      (NPC.with_hunger_stage npc "starving",
       [Event.mk "damage_applied" current_tick (NPC.id npc) [NPC.id npc]
                 [("amount", VInt 1); ("damage_type", VStr "starvation")]])
    else if HUNGRY_THRESHOLD <=? ticks_since then
      (NPC.with_hunger_stage npc "hungry", [])
    else
      (NPC.with_hunger_stage npc "sated", []).

Fixpoint hunger_loop (current_tick : Z) (l : dict NPC.t)
  : dict NPC.t * list Event.t :=
  match l with
  | [] => ([], [])
  | (k, npc) :: r =>
      let (npc', evs) := hunger_step current_tick npc in
      let (r', evs') := hunger_loop current_tick r in
      ((k, npc') :: r', evs ++ evs')
  end.

Definition update_hunger (w : WorldState.t) (current_tick : Z)
  : list Event.t * WorldState.t :=
  let (npcs', events) := hunger_loop current_tick (npcs w) in
  (events, WorldState.with_npcs w npcs').

(** *** [apply_event]

    Each branch of the [if]/[elif] chain is a function from the world to the
    outcome and the world it leaves. *)

Definition effect : Type := WorldState.t -> result unit * WorldState.t.

Definition set_npc (w : WorldState.t) (k : string) (n : NPC.t) : WorldState.t :=
  WorldState.with_npcs w (Dict.set (npcs w) k n).
Definition set_location (w : WorldState.t) (k : string) (l : LocationState.t)
  : WorldState.t :=
  WorldState.with_locations_state w (Dict.set (locations_state w) k l).
Definition set_instance (w : WorldState.t) (k : string) (i : ItemInstance.t)
  : WorldState.t :=
  WorldState.with_item_instances w (Dict.set (item_instances w) k i).

(** [inst = self.item_instances.get(item_id); if inst: inst.owner_id = ...;
    inst.current_location = ...]. *)
Definition place_instance (item_id : string) (loc owner : option string)
  (w : WorldState.t) : WorldState.t :=
  match Dict.get (item_instances w) item_id with
  | Some inst => set_instance w item_id (ItemInstance.with_place inst loc owner)
  | None => w
  end.

(** An operand of [+] or [-] next to an [int]. *)
Definition py_int_operand (v : pyval) : result Z :=
  match v with
  | VInt z => Ok z
  | VBool b => Ok (if b then 1 else 0)
  | _ => Raise TypeError
  end.

Definition apply_move (e : Event.t) : effect := fun w =>
  let actor_id := Event.actor_id e in
  match Event.target_ids e with
  | [] => (Ok tt, w)
  | target :: _ =>
      if negb (truthy_str target) then (Ok tt, w)
      else
        let w1 :=
          match find_npc_location w actor_id with
          | Some current_loc =>
              if truthy_str current_loc then
                match Dict.get (locations_state w) current_loc with
                | Some l =>
                    if mem_str actor_id (LocationState.occupants l) then
                      set_location w current_loc
                        (LocationState.with_occupants l
                           (remove_first actor_id (LocationState.occupants l)))
                    else w
                | None => w
                end
              else w
          | None => w
          end in
        let tl := Dict.get_default (locations_state w1) target
                    (LocationState.fresh target) in
        (Ok tt,
         set_location w1 target
           (LocationState.with_occupants tl
              (LocationState.occupants tl ++ [actor_id])))
  end.

Definition apply_grab (e : Event.t) : effect := fun w =>
  let actor_id := Event.actor_id e in
  match Event.target_ids e with
  | [] => (Raise IndexError, w)
  | item_id :: _ =>
      match find_npc_location w actor_id with
      | Some loc_id =>
          if truthy_str loc_id then
            match Dict.get (locations_state w) loc_id with
            | None => (Raise (KeyError loc_id), w)
            | Some l =>
                if mem_str item_id (LocationState.items l) then
                  let w1 := set_location w loc_id
                              (LocationState.with_items l
                                 (remove_first item_id (LocationState.items l))) in
                  match Dict.get (npcs w1) actor_id with
                  | None => (Raise (KeyError actor_id), w1)
                  | Some npc =>
                      let w2 := set_npc w1 actor_id
                                  (NPC.with_inventory npc
                                     (NPC.inventory npc ++ [item_id])) in
                      (Ok tt, place_instance item_id None (Some actor_id) w2)
                  end
                else (Ok tt, w)
            end
          else (Ok tt, w)
      | None => (Ok tt, w)
      end
  end.

Definition apply_drop (e : Event.t) : effect := fun w =>
  let actor_id := Event.actor_id e in
  match Event.target_ids e with
  | [] => (Raise IndexError, w)
  | item_id :: _ =>
      match find_npc_location w actor_id with
      | Some loc_id =>
          if truthy_str loc_id then
            match Dict.get (npcs w) actor_id with
            | None => (Raise (KeyError actor_id), w)
            | Some npc =>
                if mem_str item_id (NPC.inventory npc) then
                  let w1 := set_npc w actor_id
                              (NPC.with_inventory npc
                                 (remove_first item_id (NPC.inventory npc))) in
                  match Dict.get (locations_state w1) loc_id with
                  | None => (Raise (KeyError loc_id), w1)
                  | Some l =>
                      let w2 := set_location w1 loc_id
                                  (LocationState.with_items l
                                     (LocationState.items l ++ [item_id])) in
                      (Ok tt, place_instance item_id (Some loc_id) None w2)
                  end
                else (Ok tt, w)
            end
          else (Ok tt, w)
      | None => (Ok tt, w)
      end
  end.

Definition apply_eat (e : Event.t) : effect := fun w =>
  let actor_id := Event.actor_id e in
  match Event.target_ids e with
  | [] => (Raise IndexError, w)
  | item_id :: _ =>
      match Dict.get (npcs w) actor_id with
      | Some npc =>
          if mem_str item_id (NPC.inventory npc) then
            let npc1 := NPC.with_inventory npc
                          (remove_first item_id (NPC.inventory npc)) in
            let w1 := WorldState.with_item_instances w
                        (Dict.pop (item_instances w) item_id) in
            (Ok tt,
             set_npc w1 actor_id
               (NPC.with_hunger_stage
                  (NPC.with_last_meal_tick npc1 (Event.tick e)) "sated"))
          else (Ok tt, w)
      | None => (Ok tt, w)
      end
  end.

Definition apply_damage_applied (e : Event.t) : effect := fun w =>
  match Event.target_ids e with
  | [] => (Raise IndexError, w)
  | target_id :: _ =>
      let amount := Dict.get_default (Event.payload e) "amount" (VInt 0) in
      match Dict.get (npcs w) target_id with
      | Some npc =>
          match py_int_operand amount with
          | Ok a => (Ok tt, set_npc w target_id
                              (NPC.with_hp npc (Z.max (NPC.hp npc - a) 0)))
          | Raise x => (Raise x, w)
          end
      | None => (Ok tt, w)
      end
  end.

Definition apply_rest (e : Event.t) : effect := fun w =>
  let actor_id := Event.actor_id e in
  let healed := Dict.get_default (Event.payload e) "healed" (VInt 0) in
  match Dict.get (npcs w) actor_id with
  | Some npc =>
      let constitution := Dict.get_default (NPC.attributes npc) "constitution" 10 in
      let max_hp := Z.max 1 (constitution * 2) in
      match py_int_operand healed with
      | Ok h => (Ok tt, set_npc w actor_id
                          (NPC.with_hp npc (Z.min (NPC.hp npc + h) max_hp)))
      | Raise x => (Raise x, w)
      end
  | None => (Ok tt, w)
  end.

(** [d.get(k)] for a key taken from a payload. *)
Definition py_get {V} (d : dict V) (k : pyval) : result (option V) :=
  match k with
  | VStr s => Ok (Dict.get d s)
  | VList _ => Raise TypeError
  | _ => Ok None
  end.

(** [x in l] for a value taken from a payload and a list of strings. *)
Definition py_in_list (x : pyval) (l : list string) : bool :=
  match x with VStr s => mem_str s l | _ => false end.

Definition apply_equip (e : Event.t) : effect := fun w =>
  let actor_id := Event.actor_id e in
  match Event.target_ids e with
  | [] => (Raise IndexError, w)
  | item_id :: _ =>
      let slot := Dict.get_default (Event.payload e) "slot" VNone in
      match Dict.get (npcs w) actor_id with
      | Some npc =>
          match slot with
          | VStr s =>
              if Dict.mem (NPC.slots npc) s && mem_str item_id (NPC.inventory npc)
              then
                let current := match Dict.get (NPC.slots npc) s with
                               | Some c => c | None => None end in
                let inv1 := match current with
                            | Some c => if truthy_str c
                                        then NPC.inventory npc ++ [c]
                                        else NPC.inventory npc
                            | None => NPC.inventory npc
                            end in
                let inv2 := remove_first item_id inv1 in
                (Ok tt,
                 set_npc w actor_id
                   (NPC.with_slots (NPC.with_inventory npc inv2)
                      (Dict.set (NPC.slots npc) s (Some item_id))))
              else (Ok tt, w)
          | VList _ => (Raise TypeError, w)
          | _ => (Ok tt, w)
          end
      | None => (Ok tt, w)
      end
  end.

Definition apply_unequip (e : Event.t) : effect := fun w =>
  let actor_id := Event.actor_id e in
  let slot := Dict.get_default (Event.payload e) "slot" VNone in
  match Dict.get (npcs w) actor_id with
  | Some npc =>
      match slot with
      | VStr s =>
          match Dict.get (NPC.slots npc) s with
          | Some (Some item_id) =>
              if truthy_str item_id then
                (Ok tt,
                 set_npc w actor_id
                   (NPC.with_slots
                      (NPC.with_inventory npc (NPC.inventory npc ++ [item_id]))
                      (Dict.set (NPC.slots npc) s None)))
              else (Ok tt, w)
          | _ => (Ok tt, w)
          end
      | VList _ => (Raise TypeError, w)
      | _ => (Ok tt, w)
      end
  | None => (Ok tt, w)
  end.

Definition nth_target (n : nat) (target_ids : list string) : pyval :=
  match nth_error target_ids n with Some s => VStr s | None => VNone end.

Definition apply_give (e : Event.t) : effect := fun w =>
  let actor_id := Event.actor_id e in
  let payload := Event.payload e in
  let target_ids := Event.target_ids e in
  let item_id := py_or (Dict.get_default payload "item_id" VNone)
                       (nth_target 0 target_ids) in
  let target_id := py_or (Dict.get_default payload "recipient_id" VNone)
                         (nth_target 1 target_ids) in
  if negb (truthy item_id) || negb (truthy target_id) then (Ok tt, w)
  else
    match py_get (npcs w) target_id with
    | Raise x => (Raise x, w)
    | Ok receiver =>
        match Dict.get (npcs w) actor_id, receiver, item_id, target_id with
        | Some giver, Some _, VStr item, VStr target =>
            if mem_str item (NPC.inventory giver) then
              let w1 := set_npc w actor_id
                          (NPC.with_inventory giver
                             (remove_first item (NPC.inventory giver))) in
              match Dict.get (npcs w1) target with
              | Some r =>
                  let w2 := set_npc w1 target
                              (NPC.with_inventory r (NPC.inventory r ++ [item])) in
                  (Ok tt,
                   match Dict.get (item_instances w2) item with
                   | Some inst =>
                       set_instance w2 item
                         (ItemInstance.with_owner_id inst (Some target))
                   | None => w2
                   end)
              | None => (Ok tt, w1)
              end
            else (Ok tt, w)
        | _, _, _, _ => (Ok tt, w)
        end
    end.

(** Shared hex-direction inverse map. *)
Definition HEX_DIR_INVERSE : dict string :=
  [ ("north", "south"); ("south", "north");
    ("north_east", "south_west"); ("north-east", "south-west");
    ("northeast", "southwest");
    ("south_west", "north_east"); ("south-west", "north-east");
    ("southwest", "northeast");
    ("south_east", "north_west"); ("south-east", "north-west");
    ("southeast", "northwest");
    ("north_west", "south_east"); ("north-west", "south-east");
    ("northwest", "southeast");
    ("east", "west"); ("west", "east") ].

(** The entry [connections_state[b]] of location [a], if both exist. *)
Definition edge_of (w : WorldState.t) (a b : string) : option Edge.t :=
  match Dict.get (locations_state w) a with
  | Some l => Dict.get (LocationState.connections_state l) b
  | None => None
  end.

(** Rewrites the entry [connections_state[b]] of location [a], creating it
    empty first when absent ([setdefault(b, {})]). *)
Definition update_edge (a b : string) (f : Edge.t -> Edge.t) (w : WorldState.t)
  : WorldState.t :=
  match Dict.get (locations_state w) a with
  | Some l =>
      let cs := LocationState.connections_state l in
      set_location w a
        (LocationState.with_connections_state l
           (Dict.set cs b (f (Dict.get_default cs b Edge.empty))))
  | None => w
  end.

(** The first direction of the static layout that leads to [target]. *)
Fixpoint first_direction_to (hex : dict string) (target : string)
  : option string :=
  match hex with
  | [] => None
  | (d, nb) :: r => if String.eqb nb target then Some d
                    else first_direction_to r target
  end.

Definition infer_forward_direction (actor_loc target : string)
  (w : WorldState.t) : WorldState.t :=
  match edge_of w actor_loc target with
  | Some fr =>
      match Edge.direction fr with
      | Some _ => w
      | None =>
          match Dict.get (locations_static w) actor_loc with
          | Some static =>
              match first_direction_to
                      (LocationStatic.hex_connections static) target with
              | Some d => update_edge actor_loc target
                            (fun x => Edge.with_direction x d) w
              | None => w
              end
          | None => w
          end
      end
  | None => w
  end.

Definition infer_inverse_direction (actor_loc target : string)
  (w : WorldState.t) : WorldState.t :=
  match edge_of w target actor_loc with
  | Some to =>
      match Edge.direction to with
      | Some _ => w
      | None =>
          match edge_of w actor_loc target with
          | Some fr =>
              match Edge.direction fr with
              | Some fdir =>
                  match Dict.get HEX_DIR_INVERSE fdir with
                  | Some inv =>
                      if truthy_str inv
                      then update_edge target actor_loc
                             (fun x => Edge.with_direction x inv) w
                      else w
                  | None => w
                  end
              | None => w
              end
          | None => w
          end
      end
  | None => w
  end.

Definition apply_open_connection (e : Event.t) : effect := fun w =>
  match Event.target_ids e with
  | [] => (Raise IndexError, w)
  | target :: _ =>
      match find_npc_location w (Event.actor_id e) with
      | Some actor_loc =>
          if truthy_str actor_loc then
            let w1 := update_edge actor_loc target (fun x => x) w in
            match Dict.get (locations_state w1) target with
            | None => (Raise (KeyError target), w1)
            | Some _ =>
                let w2 := update_edge target actor_loc (fun x => x) w1 in
                let w3 := update_edge actor_loc target
                            (fun x => Edge.with_status x "open") w2 in
                let w4 := update_edge target actor_loc
                            (fun x => Edge.with_status x "open") w3 in
                let w5 := infer_forward_direction actor_loc target w4 in
                (Ok tt, infer_inverse_direction actor_loc target w5)
            end
          else (Ok tt, w)
      | None => (Ok tt, w)
      end
  end.

Definition apply_close_connection (e : Event.t) : effect := fun w =>
  match Event.target_ids e with
  | [] => (Raise IndexError, w)
  | target :: _ =>
      match find_npc_location w (Event.actor_id e) with
      | Some actor_loc =>
          if truthy_str actor_loc then
            let w1 := update_edge actor_loc target
                        (fun x => Edge.with_status x "closed") w in
            match Dict.get (locations_state w1) target with
            | None => (Raise (KeyError target), w1)
            | Some _ =>
                (Ok tt, update_edge target actor_loc
                          (fun x => Edge.with_status x "closed") w1)
            end
          else (Ok tt, w)
      | None => (Ok tt, w)
      end
  end.

(** The equipped items of [npc.slots.items()], in order, and the slots once
    the loop of [npc_died] has emptied them. *)
Definition equipped_items (slots : dict (option string)) : list string :=
  flat_map (fun kv => match snd kv with
                      | Some item_id => if truthy_str item_id then [item_id] else []
                      | None => []
                      end) slots.

Definition emptied_slots (slots : dict (option string))
  : dict (option string) :=
  map (fun kv => (fst kv, if truthy_ostr (snd kv) then None else snd kv)) slots.

(** [for item_id in all_items: ...items.append(item_id); inst = ...]. *)
Fixpoint drop_all (loc_id : string) (all_items : list string)
  (w : WorldState.t) : WorldState.t :=
  match all_items with
  | [] => w
  | item_id :: r =>
      let w1 := match Dict.get (locations_state w) loc_id with
                | Some l => set_location w loc_id
                              (LocationState.with_items l
                                 (LocationState.items l ++ [item_id]))
                | None => w
                end in
      drop_all loc_id r (place_instance item_id (Some loc_id) None w1)
  end.

(** [if "dead" not in npc.tags.get("dynamic", []):
       npc.tags.setdefault("dynamic", []).append("dead")]. *)
Definition mark_dead (npc : NPC.t) : NPC.t :=
  if NPC.is_dead npc then npc
  else NPC.with_tags npc
         (Dict.set (NPC.tags npc) "dynamic" (NPC.dynamic_tags npc ++ ["dead"])).

Definition apply_npc_died (e : Event.t) : effect := fun w =>
  match Dict.get (npcs w) (Event.actor_id e) with
  | None => (Ok tt, w)
  | Some npc =>
      let key := Event.actor_id e in
      let in_location :=
        match find_npc_location w (NPC.id npc) with
        | Some loc_id =>
            if truthy_str loc_id then
              match Dict.get (locations_state w) loc_id with
              | Some l =>
                  if mem_str (NPC.id npc) (LocationState.occupants l)
                  then Some (loc_id, l) else None
              | None => None
              end
            else None
        | None => None
        end in
      match in_location with
      | Some (loc_id, l) =>
          let w1 := set_location w loc_id
                      (LocationState.with_occupants l
                         (remove_first (NPC.id npc) (LocationState.occupants l))) in
          let all_items := NPC.inventory npc ++ equipped_items (NPC.slots npc) in
          let w2 := drop_all loc_id all_items w1 in
          let npc1 := NPC.with_inventory
                        (NPC.with_slots npc (emptied_slots (NPC.slots npc))) [] in
          (Ok tt, set_npc w2 key (mark_dead npc1))
      | None => (Ok tt, set_npc w key (mark_dead npc))
      end
  end.

(** The dispatch of [apply_event] on [event.event_type]. An event type
    outside the chain leaves the world as it is. *)
Definition apply_event (e : Event.t) : effect := fun w =>
  let t := Event.event_type e in
  if String.eqb t "move" then apply_move e w
  else if String.eqb t "grab" then apply_grab e w
  else if String.eqb t "drop" then apply_drop e w
  else if String.eqb t "eat" then apply_eat e w
  else if String.eqb t "damage_applied" then apply_damage_applied e w
  else if String.eqb t "rest" then apply_rest e w
  else if String.eqb t "equip" then apply_equip e w
  else if String.eqb t "unequip" then apply_unequip e w
  else if String.eqb t "give" then apply_give e w
  else if String.eqb t "open_connection" then apply_open_connection e w
  else if String.eqb t "close_connection" then apply_close_connection e w
  else if String.eqb t "npc_died" then apply_npc_died e w
  else if String.eqb t "reason" then (Raise (Unmodelled "reason"), w)
  else if String.eqb t "reflect" then (Raise (Unmodelled "reflect"), w)
  else (Ok tt, w).

(** ** Perception ([engine/events.py], [Simulator.record_perception]) *)

(** [PerceptionEvent(event_type=..., tick=..., actor_id=..., location_id=...,
    payload=origin.payload.copy())]: [target_ids] is not passed and keeps the
    default of the dataclass, the empty list. *)
Definition make_perception_from_event (origin : Event.t)
  (location_id : option string) : PerceptionEvent.t :=
  PerceptionEvent.mk (Event.event_type origin) (Event.tick origin)
    (Some (Event.actor_id origin)) [] location_id (Event.payload origin).

(** The location where the event is perceived. *)
Definition primary_location (w : WorldState.t) (e : Event.t) : option string :=
  if String.eqb (Event.event_type e) "move"
  then hd_error (Event.target_ids e)
  else if String.eqb (Event.event_type e) "npc_died"
  then hd_error (Event.target_ids e)
  else find_npc_location w (Event.actor_id e).

(** [recipients.add(x)]. The set is kept as a duplicate-free list; the order
    in which Python walks it does not matter, each recipient being a
    different agent. *)
Definition set_add (x : string) (s : list string) : list string :=
  if mem_str x s then s else s ++ [x].

Definition set_add_all (xs : list string) (s : list string) : list string :=
  fold_left (fun acc x => set_add x acc) xs s.

(** Same-location recipients (excluding the actor). A failing
    [get_location_state] is caught and leaves the set empty. *)
Definition direct_recipients (w : WorldState.t) (e : Event.t)
  (location_id : string) : list string :=
  match Dict.get (locations_state w) location_id with
  | Some loc_state =>
      set_add_all
        (filter (fun npc_id => negb (String.eqb npc_id (Event.actor_id e)))
                (LocationState.occupants loc_state)) []
  | None => []
  end.

(** The loop over [loc_static.hex_connections.values()]: a neighbor without
    a location state raises inside the [try], which ends the loop and keeps
    the recipients gathered so far. *)
Fixpoint noise_loop (w : WorldState.t) (is_scream : bool)
  (state_here : LocationState.t) (neighbors : list string)
  (recipients : list string) : list string :=
  match neighbors with
  | [] => recipients
  | neighbor_id :: r =>
      let conn := Dict.get_default (LocationState.connections_state state_here)
                    neighbor_id Edge.empty in
      if is_scream || Edge.is_open conn then
        match Dict.get (locations_state w) neighbor_id with
        | Some neighbor_state =>
            noise_loop w is_scream state_here r
              (set_add_all (LocationState.occupants neighbor_state) recipients)
        | None => recipients
        end
      else noise_loop w is_scream state_here r recipients
  end.

Definition noise_recipients (w : WorldState.t) (e : Event.t)
  (location_id : string) (recipients : list string) : list string :=
  let t := Event.event_type e in
  if String.eqb t "scream" || String.eqb t "talk_loud" then
    match Dict.get (locations_static w) location_id,
          Dict.get (locations_state w) location_id with
    | Some loc_static, Some state_here =>
        noise_loop w (String.eqb t "scream") state_here
          (Dict.values (LocationStatic.hex_connections loc_static)) recipients
    | _, _ => recipients
    end
  else recipients.

Definition perception_recipients (w : WorldState.t) (e : Event.t)
  (location_id : string) : list string :=
  noise_recipients w e location_id (direct_recipients w e location_id).

(** [while len(stm) > cap: stm.pop(0)]. *)
Fixpoint cap_buffer {A} (cap : Z) (stm : list A) : list A :=
  match stm with
  | [] => []
  | _ :: r => if cap <? Z.of_nat (List.length stm) then cap_buffer cap r else stm
  end.

(** The body of the loop over the recipients. The block on
    [elevated_vantage_point] inside it ends in [pass] and changes nothing. *)
Definition perceive (pe : PerceptionEvent.t) (buffer_size : Z)
  (w : WorldState.t) (npc_id : string) : WorldState.t :=
  match Dict.get (npcs w) npc_id with
  | Some npc =>
      let cap := Z.max 1 buffer_size in
      set_npc w npc_id
        (NPC.with_short_term_memory npc
           (cap_buffer cap (NPC.short_term_memory npc ++ [pe])))
  | None => w
  end.

Definition record_perception (buffer_size : Z) (e : Event.t)
  (w : WorldState.t) : WorldState.t :=
  let t := Event.event_type e in
  if String.eqb t "describe_location" || String.eqb t "wait" then w
  else
    match primary_location w e with
    | Some location_id =>
        if truthy_str location_id then
          fold_left
            (perceive (make_perception_from_event e (Some location_id))
                      buffer_size)
            (perception_recipients w e location_id) w
        else w
    | None => w
    end.

(** ** Combat rules ([rpg/combat_rules.py]) *)

Definition ability_modifier (score : Z) : Z := (score - 10) / 2.

Definition _PROFICIENCY_MAP : dict Z :=
  [("novice", 1); ("proficient", 2); ("expert", 3); ("master", 4)].

Definition proficiency_bonus (level : string) : Z :=
  Dict.get_default _PROFICIENCY_MAP level 0.

(** The pseudorandom generator: an endless supply of raw draws and the
    number of draws consumed. [randint a b] maps the next draw into [a..b]
    and raises on an empty range, as [random.randint] does. *)
Module Rng.
Record t : Type := mk { draws : nat -> Z; pos : nat }.
Definition next (g : t) : t := mk (draws g) (S (pos g)).
End Rng.

Definition rand (A : Type) : Type := Rng.t -> result A * Rng.t.

Definition randint (a b : Z) : rand Z := fun g =>
  if b <? a then (Raise (ValueError "empty range for randrange()"), g)
  else (Ok (a + (Rng.draws g (Rng.pos g)) mod (b - a + 1)), Rng.next g).

(** [int(s)] on an ASCII string: blanks around, an optional sign, decimal
    digits with single underscores between them. *)
Definition is_space (c : ascii) : bool :=
  let n := nat_of_ascii c in
  (((9 <=? n) && (n <=? 13)) || ((28 <=? n) && (n <=? 32)))%nat.

Fixpoint lstrip (l : list ascii) : list ascii :=
  match l with
  | c :: r => if is_space c then lstrip r else l
  | [] => []
  end.

Definition strip (l : list ascii) : list ascii := rev (lstrip (rev (lstrip l))).

Definition digit_of (c : ascii) : option Z :=
  let n := nat_of_ascii c in
  if ((48 <=? n) && (n <=? 57))%nat then Some (Z.of_nat n - 48) else None.

Fixpoint parse_digits (acc : Z) (after_digit : bool) (l : list ascii)
  : option Z :=
  match l with
  | [] => if after_digit then Some acc else None
  | c :: r =>
      match digit_of c with
      | Some d => parse_digits (10 * acc + d) true r
      | None => if Ascii.eqb c "_" && after_digit
                then parse_digits acc false r else None
      end
  end.

Definition py_int_of_string (s : string) : result Z :=
  let bad := Raise (ValueError "invalid literal for int() with base 10") in
  match strip (list_ascii_of_string s) with
  | c :: r =>
      if Ascii.eqb c "-" then
        match parse_digits 0 false r with Some z => Ok (- z) | None => bad end
      else if Ascii.eqb c "+" then
        match parse_digits 0 false r with Some z => Ok z | None => bad end
      else
        match parse_digits 0 false (c :: r) with Some z => Ok z | None => bad end
  | [] => bad
  end.

(** [s.lower().split('d')]. *)
Definition lower (c : ascii) : ascii :=
  let n := nat_of_ascii c in
  if ((65 <=? n) && (n <=? 90))%nat then ascii_of_nat (n + 32) else c.

Fixpoint split_d (l : list ascii) (cur : list ascii) : list (list ascii) :=
  match l with
  | [] => [rev cur]
  | c :: r => if Ascii.eqb c "d" then rev cur :: split_d r []
              else split_d r (c :: cur)
  end.

(** [num, die = spec.lower().split('d'); num = int(num); die = int(die)]. *)
Definition parse_dice (spec : string) : result (Z * Z) :=
  match split_d (map lower (list_ascii_of_string spec)) [] with
  | [num; die] =>
      match py_int_of_string (string_of_list_ascii num) with
      | Ok n =>
          match py_int_of_string (string_of_list_ascii die) with
          | Ok d => Ok (n, d)
          | Raise x => Raise x
          end
      | Raise x => Raise x
      end
  | [_] => Raise (ValueError "not enough values to unpack")
  | _ => Raise (ValueError "too many values to unpack")
  end.

(** [sum(random.randint(1, die) for _ in range(num))]. *)
Fixpoint roll_sum (num : nat) (die : Z) (acc : Z) : rand Z := fun g =>
  match num with
  | O => (Ok acc, g)
  | S n =>
      match randint 1 die g with
      | (Ok r, g1) => roll_sum n die (acc + r) g1
      | (Raise x, g1) => (Raise x, g1)
      end
  end.

Definition roll_dice (spec : string) : rand Z := fun g =>
  match parse_dice spec with
  | Ok (num, die) => roll_sum (Z.to_nat num) die 0 g
  | Raise x => (Raise x, g)
  end.

Definition _DEFAULT_UNARMED : ItemBlueprint.t :=
  ItemBlueprint.mk "unarmed" "Unarmed" 0 "1d4" "bludgeoning" 0
                   "unarmed_combat" [].

(** The blueprint of an equipped item: [None] when the slot is empty or
    names no live instance, an exception when the blueprint is missing. *)
Definition equipped_blueprint (w : WorldState.t) (inst_id : option string)
  : result (option ItemBlueprint.t) :=
  match inst_id with
  | Some i =>
      if truthy_str i then
        match Dict.get (item_instances w) i with
        | Some inst =>
            match get_item_blueprint w (ItemInstance.blueprint_id inst) with
            | Ok bp => Ok (Some bp)
            | Raise x => Raise x
            end
        | None => Ok None
        end
      else Ok None
  | None => Ok None
  end.

Definition get_weapon (w : WorldState.t) (actor : NPC.t)
  : result ItemBlueprint.t :=
  let inst_id := match Dict.get (NPC.slots actor) "main_hand" with
                 | Some v => v | None => None end in
  match equipped_blueprint w inst_id with
  | Ok (Some bp) => Ok bp
  | Ok None => Ok _DEFAULT_UNARMED
  | Raise x => Raise x
  end.

(** The loop [for inst_id in actor.slots.values(): ac += armour_rating]. *)
Fixpoint armour_loop (w : WorldState.t) (values : list (option string))
  (ac : Z) : result Z :=
  match values with
  | [] => Ok ac
  | inst_id :: r =>
      match equipped_blueprint w inst_id with
      | Ok (Some bp) => armour_loop w r (ac + ItemBlueprint.armour_rating bp)
      | Ok None => armour_loop w r ac
      | Raise x => Raise x
      end
  end.

Definition compute_ac (w : WorldState.t) (actor : NPC.t) : result Z :=
  match armour_loop w (Dict.values (NPC.slots actor)) 10 with
  | Ok ac =>
      let dex := Dict.get_default (NPC.attributes actor) "dexterity" 10 in
      Ok (ac + ability_modifier dex)
  | Raise x => Raise x
  end.

Module AttackResult.
Record t : Type := mk { hit : bool; damage : Z; to_hit : Z; target_ac : Z }.
End AttackResult.

Definition resolve_attack (w : WorldState.t) (attacker target : NPC.t)
  : rand AttackResult.t := fun g =>
  match get_weapon w attacker with
  | Raise x => (Raise x, g)
  | Ok weapon =>
      let str_mod := ability_modifier
                       (Dict.get_default (NPC.attributes attacker) "strength" 10) in
      let dex_mod := ability_modifier
                       (Dict.get_default (NPC.attributes attacker) "dexterity" 10) in
      let attr_mod := if mem_str "finesse" (ItemBlueprint.properties weapon)
                      then Z.max str_mod dex_mod else str_mod in
      let prof_level := Dict.get_default (NPC.skills attacker)
                          (ItemBlueprint.skill_tag weapon) "" in
      let prof_bonus := proficiency_bonus prof_level in
      match roll_dice "1d20" g with
      | (Raise x, g1) => (Raise x, g1)
      | (Ok d20, g1) =>
          let to_hit := d20 + attr_mod + prof_bonus in
          match compute_ac w target with
          | Raise x => (Raise x, g1)
          | Ok target_ac =>
              let hit := target_ac <=? to_hit in
              let critical := d20 =? 20 in
              if hit then
                match roll_dice (ItemBlueprint.damage_dice weapon) g1 with
                | (Raise x, g2) => (Raise x, g2)
                | (Ok damage, g2) =>
                    if critical then
                      match roll_dice (ItemBlueprint.damage_dice weapon) g2 with
                      | (Raise x, g3) => (Raise x, g3)
                      | (Ok extra, g3) =>
                          (Ok (AttackResult.mk hit (damage + extra + attr_mod)
                                               to_hit target_ac), g3)
                      end
                    else
                      (Ok (AttackResult.mk hit (damage + attr_mod)
                                           to_hit target_ac), g2)
                end
              else (Ok (AttackResult.mk hit 0 to_hit target_ac), g1)
          end
      end
  end.

(** ** Tools ([engine/tools/base.py], [engine/tools/move.py]) *)

Module Tool.
Record t : Type := mk {
    name : string;
    time_cost : Z;
    validate_intent : dict pyval -> WorldState.t -> NPC.t -> result bool;
    generate_events :
      dict pyval -> WorldState.t -> NPC.t -> Z -> result (list Event.t)
  }.
End Tool.

Definition MoveTool_validate_intent (intent : dict pyval) (w : WorldState.t)
  (actor : NPC.t) : result bool :=
  let target := Dict.get_default intent "target_location" VNone in
  if negb (truthy target) then Ok false
  else
    match py_in_dict target (locations_state w) with
    | Raise x => Raise x
    | Ok false => Ok false
    | Ok true =>
        match find_npc_location w (NPC.id actor) with
        | Some current =>
            if truthy_str current then
              match get_location_state w current with
              | Raise x => Raise x
              | Ok loc_state =>
                  match py_get (LocationState.connections_state loc_state)
                               target with
                  | Raise x => Raise x
                  | Ok None => Ok false
                  | Ok (Some conn) => Ok (Edge.is_open conn)
                  end
              end
            else Ok false
        | None => Ok false
        end
    end.

(** [dest] is a string whenever [validate_intent] accepted the intent; any
    other value has no place in [target_ids] and is answered [TypeError]. *)
Definition MoveTool_generate_events (intent : dict pyval) (w : WorldState.t)
  (actor : NPC.t) (tick : Z) : result (list Event.t) :=
  match Dict.get intent "target_location" with
  | None => Raise (KeyError "target_location")
  | Some (VStr dest) =>
      Ok [Event.mk "move" tick (NPC.id actor) [dest]
                   [("to_location_id", VStr dest)]]
  | Some _ => Raise TypeError
  end.

Definition MoveTool (time_cost : Z) : Tool.t :=
  Tool.mk "move" time_cost MoveTool_validate_intent MoveTool_generate_events.

(** ** Simulator ([engine/simulator.py])

    The simulator without a renderer attached. The conversation table and the
    caches of the user interface are written by [_handle_talk],
    [_handle_leave_conversation], [_gc_conversations] and
    [_record_actor_last_message] only, and nothing that touches the world or
    the queue reads them: they are not part of this state. *)

(** A command: [tool] is [command.get("tool")], [params] is
    [command.get("params")] when it is a dictionary. *)
Module Command.
Record t : Type := mk {
    tool : option string;
    params : option (dict pyval)
  }.
End Command.

Module Simulator.
Record t : Type := mk {
    world : WorldState.t;
    game_tick : Z;
    event_queue : list Event.t;
    tools : dict Tool.t;
    starvation_enabled : bool;
    perception_buffer_size : Z;
    rng : Rng.t
  }.
Definition with_world (s : t) (v : WorldState.t) : t :=
    mk v (game_tick s) (event_queue s) (tools s) (starvation_enabled s)
       (perception_buffer_size s) (rng s).
Definition with_game_tick (s : t) (v : Z) : t :=
    mk (world s) v (event_queue s) (tools s) (starvation_enabled s)
       (perception_buffer_size s) (rng s).
Definition with_event_queue (s : t) (v : list Event.t) : t :=
    mk (world s) (game_tick s) v (tools s) (starvation_enabled s)
       (perception_buffer_size s) (rng s).
Definition with_starvation_enabled (s : t) (v : bool) : t :=
    mk (world s) (game_tick s) (event_queue s) (tools s) v
       (perception_buffer_size s) (rng s).
Definition with_rng (s : t) (v : Rng.t) : t :=
    mk (world s) (game_tick s) (event_queue s) (tools s) (starvation_enabled s)
       (perception_buffer_size s) v.
End Simulator.

Definition action : Type := Simulator.t -> result unit * Simulator.t.

Definition is_str (v : pyval) : bool :=
  match v with VStr _ => true | _ => false end.

Definition pget (params : dict pyval) (k : string) : pyval :=
  Dict.get_default params k VNone.

(** The alias normalisation of [process_command]; [t] is the tool name of
    the command. *)
Definition normalize_params (t : string) (params : dict pyval) : dict pyval :=
  let p1 :=
    if String.eqb t "move" || String.eqb t "open" || String.eqb t "close" then
      let loc := py_or (pget params "target_location")
                   (py_or (pget params "location_id")
                      (py_or (pget params "target") (pget params "to"))) in
      if is_str loc && truthy loc then Dict.set params "target_location" loc
      else params
    else params in
  let p2 :=
    if String.eqb t "attack" then
      if negb (is_str (pget p1 "target_id")) then
        if is_str (pget p1 "target") then
          Dict.set p1 "target_id" (pget p1 "target")
        else
          match pget p1 "target_ids" with
          | VList (first :: _) =>
              if is_str first then Dict.set p1 "target_id" first else p1
          | _ => p1
          end
      else p1
    else p1 in
  let p3 :=
    if String.eqb t "talk" || String.eqb t "talk_loud" || String.eqb t "scream"
    then
      match pget p2 "content" with
      | VStr content => Dict.set p2 "content" (VStr (substring 0 200 content))
      | _ => Dict.set p2 "content" (VStr "...")
      end
    else p2 in
  let p4 :=
    if String.eqb t "give" then
      let recip := py_or (pget p3 "recipient_id") (pget p3 "target_id") in
      if is_str recip then Dict.set p3 "target_id" recip else p3
    else p3 in
  if String.eqb t "equip" || String.eqb t "unequip" then
    let slot := py_or (pget p4 "slot") (pget p4 "equipment_slot") in
    if is_str slot then Dict.set p4 "slot" slot else p4
  else p4.

(** [max(1, int(params.get("ticks", 1)))], 1 when the conversion raises. *)
Definition wait_time_cost (params : dict pyval) : Z :=
  match Dict.get_default params "ticks" (VInt 1) with
  | VInt z => Z.max 1 z
  | VBool b => 1
  | VStr s => match py_int_of_string s with Ok z => Z.max 1 z | Raise _ => 1 end
  | _ => 1
  end.

Definition process_command (actor_id : string) (command : Command.t)
  : action := fun s =>
  let tool_name := Command.tool command in
  let tool := match tool_name with
              | Some n => Dict.get (Simulator.tools s) n
              | None => None
              end in
  match get_npc (Simulator.world s) actor_id with
  | Raise x => (Raise x, s)
  | Ok actor =>
      match tool with
      | None =>
          match tool_name with
          | Some n => (Raise (ValueError ("Unknown tool " ++ n)), s)
          | None => (Raise (KeyError "tool"), s)
          end
      | Some tool =>
          if Simulator.game_tick s <? NPC.next_available_tick actor
          then (Raise (ValueError "Actor is busy"), s)
          else
            let params0 := match Command.params command with
                           | Some p => p | None => [] end in
            let params := match tool_name with
                          | Some n => normalize_params n params0
                          | None => params0
                          end in
            match Tool.validate_intent tool params (Simulator.world s) actor with
            | Raise x => (Raise x, s)
            | Ok false => (Raise (ValueError "Invalid intent"), s)
            | Ok true =>
                let time_cost :=
                  if String.eqb (Tool.name tool) "wait"
                     || String.eqb (Tool.name tool) "rest"
                  then wait_time_cost params
                  else Tool.time_cost tool in
                match Tool.generate_events tool params (Simulator.world s) actor
                                           (Simulator.game_tick s) with
                | Raise x => (Raise x, s)
                | Ok events =>
                    let s1 := Simulator.with_event_queue s
                                (Simulator.event_queue s ++ events) in
                    (Ok tt,
                     Simulator.with_world s1
                       (set_npc (Simulator.world s1) actor_id
                          (NPC.with_next_available_tick actor
                             (Simulator.game_tick s + time_cost))))
                end
            end
      end
  end.

(** *** Event handlers *)

(** A handler that only applies the event to the world. *)
Definition apply_to_world (e : Event.t) : action := fun s =>
  let (r, w) := apply_event e (Simulator.world s) in
  (r, Simulator.with_world s w).

Definition enqueue (evs : list Event.t) (s : Simulator.t) : Simulator.t :=
  Simulator.with_event_queue s (Simulator.event_queue s ++ evs).

Definition _handle_attack_attempt (e : Event.t) : action := fun s =>
  let w := Simulator.world s in
  match get_npc w (Event.actor_id e) with
  | Raise x => (Raise x, s)
  | Ok attacker =>
      match Event.target_ids e with
      | [] => (Raise IndexError, s)
      | target_id :: _ =>
          match get_npc w target_id with
          | Raise x => (Raise x, s)
          | Ok target =>
              match resolve_attack w attacker target (Simulator.rng s) with
              | (Raise x, g) => (Raise x, Simulator.with_rng s g)
              | (Ok res, g) =>
                  let s1 := Simulator.with_rng s g in
                  let payload := [("to_hit", VInt (AttackResult.to_hit res));
                                  ("target_ac", VInt (AttackResult.target_ac res))] in
                  if AttackResult.hit res then
                    let payload' :=
                      Dict.set payload "damage" (VInt (AttackResult.damage res)) in
                    let s2 := enqueue
                                [Event.mk "attack_hit" (Simulator.game_tick s)
                                   (Event.actor_id e) (Event.target_ids e) payload']
                                s1 in
                    match get_weapon w attacker with
                    | Raise x => (Raise x, s2)
                    | Ok weapon =>
                        (Ok tt,
                         enqueue
                           [Event.mk "damage_applied" (Simulator.game_tick s)
                              (Event.actor_id e) (Event.target_ids e)
                              [("amount", VInt (AttackResult.damage res));
                               ("damage_type",
                                VStr (ItemBlueprint.damage_type weapon))]]
                           s2)
                    end
                  else
                    (Ok tt,
                     enqueue
                       [Event.mk "attack_missed" (Simulator.game_tick s)
                          (Event.actor_id e) (Event.target_ids e) payload]
                       s1)
              end
          end
      end
  end.

Definition _handle_damage_applied (e : Event.t) : action := fun s =>
  match apply_to_world e s with
  | (Raise x, s1) => (Raise x, s1)
  | (Ok _, s1) =>
      match Event.target_ids e with
      | [] => (Raise IndexError, s1)
      | target_id :: _ =>
          match get_npc (Simulator.world s1) target_id with
          | Raise x => (Raise x, s1)
          | Ok target =>
              if (NPC.hp target <=? 0) && negb (NPC.is_dead target) then
                let loc_id := find_npc_location (Simulator.world s1)
                                                (NPC.id target) in
                (Ok tt,
                 enqueue
                   [Event.mk "npc_died" (Simulator.game_tick s1) (NPC.id target)
                      (match loc_id with
                       | Some l => if truthy_str l then [l] else []
                       | None => []
                       end) []]
                   s1)
              else (Ok tt, s1)
          end
      end
  end.

Definition _handle_toggle_starvation (e : Event.t) : action := fun s =>
  let enabled := truthy (Dict.get_default (Event.payload e) "enabled"
                                          (VBool true)) in
  let s1 := Simulator.with_starvation_enabled s enabled in
  if enabled then (Ok tt, s1)
  else
    (Ok tt,
     Simulator.with_world s1
       (WorldState.with_npcs (Simulator.world s1)
          (map (fun kv =>
                  (fst kv,
                   NPC.with_last_meal_tick
                     (NPC.with_hunger_stage (snd kv) "sated")
                     (Simulator.game_tick s1)))
               (npcs (Simulator.world s1))))).

(** The handlers that only narrate, or only touch the conversation table. *)
Definition narrate_only : action := fun s => (Ok tt, s).

(** The dispatch table [event_handlers], with the fallback of [handle_event]
    for a type without a handler. *)
Definition run_handler (e : Event.t) : action :=
  let t := Event.event_type e in
  if String.eqb t "describe_location" then narrate_only
  else if String.eqb t "move" then apply_to_world e
  else if String.eqb t "grab" then apply_to_world e
  else if String.eqb t "drop" then apply_to_world e
  else if String.eqb t "eat" then apply_to_world e
  else if String.eqb t "attack_attempt" then _handle_attack_attempt e
  else if String.eqb t "attack_hit" then narrate_only
  else if String.eqb t "attack_missed" then narrate_only
  else if String.eqb t "damage_applied" then _handle_damage_applied e
  else if String.eqb t "talk" then narrate_only
  else if String.eqb t "talk_loud" then narrate_only
  else if String.eqb t "scream" then narrate_only
  else if String.eqb t "inventory" then narrate_only
  else if String.eqb t "stats" then narrate_only
  else if String.eqb t "equip" then apply_to_world e
  else if String.eqb t "unequip" then apply_to_world e
  else if String.eqb t "analyze" then narrate_only
  else if String.eqb t "give" then apply_to_world e
  else if String.eqb t "toggle_starvation" then _handle_toggle_starvation e
  else if String.eqb t "open_connection" then apply_to_world e
  else if String.eqb t "close_connection" then apply_to_world e
  else if String.eqb t "npc_died" then apply_to_world e
  else if String.eqb t "wait" then narrate_only
  else if String.eqb t "rest" then apply_to_world e
  else if String.eqb t "leave_conversation" then narrate_only
  else apply_to_world e.

(** [handle_event]: the handler, then the common post-processing, of which
    [record_perception] is the part that writes to the world. The two calls
    after it, [_record_actor_last_message] and [_gc_conversations], write the
    cache of the user interface and the conversation tables only, which are
    not fields of [Simulator.t]: what is stated of a handled event is stated
    of the world, the queue, the clock, the flag and the generator. *)
Definition handle_event (e : Event.t) : action := fun s =>
  match run_handler e s with
  | (Raise x, s1) => (Raise x, s1)
  | (Ok _, s1) =>
      (Ok tt,
       Simulator.with_world s1
         (record_perception (Simulator.perception_buffer_size s1) e
                            (Simulator.world s1)))
  end.

(** [for event in ready_events: self.handle_event(event)]. *)
Fixpoint handle_all (ready_events : list Event.t) : action := fun s =>
  match ready_events with
  | [] => (Ok tt, s)
  | e :: r =>
      match handle_event e s with
      | (Raise x, s1) => (Raise x, s1)
      | (Ok _, s1) => handle_all r s1
      end
  end.

Definition is_ready (now : Z) (e : Event.t) : bool := Event.tick e <=? now.

(** [tick]: one pass over the events that are ready when the pass starts. *)
Definition tick : action := fun s =>
  let s1 := Simulator.with_game_tick s (Simulator.game_tick s + 1) in
  let s2 :=
    if Simulator.starvation_enabled s1 then
      let (hunger_events, w) :=
        update_hunger (Simulator.world s1) (Simulator.game_tick s1) in
      enqueue hunger_events (Simulator.with_world s1 w)
    else s1 in
  let now := Simulator.game_tick s2 in
  let ready_events := filter (is_ready now) (Simulator.event_queue s2) in
  let s3 := Simulator.with_event_queue s2
              (filter (fun e => negb (is_ready now e))
                      (Simulator.event_queue s2)) in
  handle_all ready_events s3.

(** The drain loop of [run_one_npc_turn], which does come back for the
    events its handlers enqueue: [while self.event_queue: ...], inside a
    [try] that swallows what a handler raises. Each round handles at least
    one event; [fuel] bounds the number of rounds. *)
Fixpoint drain (fuel : nat) (s : Simulator.t) : Simulator.t :=
  match fuel with
  | O => s
  | S n =>
      let now := Simulator.game_tick s in
      match filter (is_ready now) (Simulator.event_queue s) with
      | [] => s
      | ready_events =>
          let s1 := Simulator.with_event_queue s
                      (filter (fun e => negb (is_ready now e))
                              (Simulator.event_queue s)) in
          match handle_all ready_events s1 with
          | (Raise x, s2) => s2
          | (Ok _, s2) => drain n s2
          end
      end
  end.

(** ** A small world

    The town of the scenarios: the guard and a villager on the town square,
    the bard in the tavern behind a closed door, the market next door with
    the door open, and a wanderer who stands nowhere. *)
Module Town.
Definition npc_guard : NPC.t :=
    NPC.mk "npc_guard" "Guard" ["sword"; "apple"] [("main_hand", None)] 10
           [("inherent", []); ("dynamic", [])] [] 0 0 "sated"
           [("strength", 14); ("dexterity", 10); ("constitution", 10)] [].

Definition npc_sample : NPC.t :=
    NPC.mk "npc_sample" "Villager" [] [("main_hand", None)] 1
           [("inherent", []); ("dynamic", [])] [] 0 0 "sated"
           [("strength", 12); ("dexterity", 10); ("constitution", 10)]
           [("unarmed_combat", "proficient")].

Definition npc_bard : NPC.t :=
    NPC.mk "npc_bard" "Bard" ["lute"] [("main_hand", None)] 8
           [("inherent", ["elevated_vantage_point"]); ("dynamic", [])] [] 0 0
           "sated"
           [("strength", 10); ("dexterity", 10); ("constitution", 10)] [].

Definition npc_wanderer : NPC.t :=
    NPC.mk "npc_wanderer" "Wanderer" ["map"] [("main_hand", Some "dagger")] 5
           [("inherent", []); ("dynamic", [])] [] 0 0 "sated"
           [("strength", 10); ("dexterity", 10); ("constitution", 10)] [].

Definition statics : dict LocationStatic.t :=
    [ ("town_square",
       LocationStatic.mk "town_square" "The town square." [("inherent", [])]
         [("east", "tavern"); ("west", "market_square")]);
      ("tavern",
       LocationStatic.mk "tavern" "A tavern." [("inherent", [])]
         [("west", "town_square")]);
      ("market_square",
       LocationStatic.mk "market_square" "The market." [("inherent", [])]
         [("east", "town_square")]) ].

  (** The door between the square and the tavern has status [door]. *)
Definition states (door : string) : dict LocationState.t :=
    [ ("town_square",
       LocationState.mk "town_square" ["npc_guard"; "npc_sample"] [] [] []
         [("tavern", Edge.mk (Some door) (Some "east"));
          ("market_square", Edge.mk (Some "open") (Some "west"))]);
      ("tavern",
       LocationState.mk "tavern" ["npc_bard"] [] [] []
         [("town_square", Edge.mk (Some door) (Some "west"))]);
      ("market_square",
       LocationState.mk "market_square" [] [] [] []
         [("town_square", Edge.mk (Some "open") (Some "east"))]) ].

Definition blueprints : dict ItemBlueprint.t :=
    [ ("sword", ItemBlueprint.mk "sword" "Sword" 3 "1d8" "slashing" 0
                                 "blades" []);
      ("apple", ItemBlueprint.mk "apple" "Apple" 1 "1d4" "bludgeoning" 0
                                 "unarmed_combat" ["food"]) ].

Definition instances : dict ItemInstance.t :=
    [ ("sword", ItemInstance.mk "sword" "sword" None (Some "npc_guard") []
                                [("inherent", []); ("dynamic", [])]);
      ("apple", ItemInstance.mk "apple" "apple" None (Some "npc_guard") []
                                [("inherent", []); ("dynamic", [])]) ].

Definition world (door : string) : WorldState.t :=
    WorldState.mk
      [ ("npc_guard", npc_guard); ("npc_sample", npc_sample);
        ("npc_bard", npc_bard); ("npc_wanderer", npc_wanderer) ]
      statics (states door) blueprints instances.

  (** A seeded generator: the first draw makes the d20 show 15, the later
      ones make a d4 show 3. *)
Definition seeded : Rng.t :=
    Rng.mk (fun n => match n with O => 14 | _ => 2 end) 0.

Definition sim (door : string) (now : Z) : Simulator.t :=
    Simulator.mk (world door) now [] [("move", MoveTool 5)] true 30 seeded.

  (** The guard has just acted and is busy until tick 5. *)
Definition busy_sim : Simulator.t :=
    Simulator.with_world (sim "closed" 0)
      (set_npc (world "closed") "npc_guard"
         (NPC.with_next_available_tick npc_guard 5)).

Definition move_to_tavern : Command.t :=
    Command.mk (Some "move") (Some [("target_location", VStr "tavern")]).

Definition drop_sword : Event.t :=
    Event.mk "drop" 1 "npc_guard" ["sword"] [].
Definition grab_sword : Event.t :=
    Event.mk "grab" 2 "npc_guard" ["sword"] [].
Definition scream_help : Event.t :=
    Event.mk "scream" 1 "npc_guard" [] [("content", VStr "help")].
Definition wanderer_dies : Event.t :=
    Event.mk "npc_died" 1 "npc_wanderer" [] [].
End Town.

(** ** Vocabulary of the specification *)

(** The event [update_hunger] emits against a starving agent. *)
Definition starvation_event (current_tick : Z) (npc_id : string) : Event.t :=
  Event.mk "damage_applied" current_tick npc_id [npc_id]
           [("amount", VInt 1); ("damage_type", VStr "starvation")].

(** The events of a list that an agent acts in or is a target of. *)
Definition events_about (npc_id : string) (evs : list Event.t) : list Event.t :=
  filter (fun e => String.eqb (Event.actor_id e) npc_id
                   || mem_str npc_id (Event.target_ids e)) evs.

(** The agent is in the occupants of no location. *)
Definition in_no_location (w : WorldState.t) (npc_id : string) : Prop :=
  forall k l, In (k, l) (locations_state w) ->
              ~ In npc_id (LocationState.occupants l).

(** The agent is in the occupants of location [n] and of no other one. *)
Definition occupies_only (w : WorldState.t) (npc_id n : string) : Prop :=
  forall m ms, Dict.get (locations_state w) m = Some ms ->
               In npc_id (LocationState.occupants ms) -> m = n.

(** The neighbors of a location, as [record_perception] walks them: the
    values of the [hex_connections] of its static record. *)
Definition neighbors (w : WorldState.t) (loc : string) : list string :=
  match Dict.get (locations_static w) loc with
  | Some static => Dict.values (LocationStatic.hex_connections static)
  | None => []
  end.

(** The entry of the edge from [here] to [n]; a missing entry is the empty
    dictionary, whose status defaults to open. *)
Definition edge_to (here : LocationState.t) (n : string) : Edge.t :=
  Dict.get_default (LocationState.connections_state here) n Edge.empty.

(** A dice expression that parses and can be rolled. *)
Definition dice_ok (spec : string) : Prop :=
  exists num die, parse_dice spec = Ok (num, die) /\ (num <= 0 \/ 1 <= die).

(** The armour an equipment slot contributes: the rating of the blueprint of
    the live instance it names, nothing for an empty slot. *)
Definition armour_of (w : WorldState.t) (inst_id : option string) : Z :=
  match inst_id with
  | Some i =>
      if truthy_str i then
        match Dict.get (item_instances w) i with
        | Some inst =>
            match Dict.get (item_blueprints w) (ItemInstance.blueprint_id inst) with
            | Some bp => ItemBlueprint.armour_rating bp
            | None => 0
            end
        | None => 0
        end
      else 0
  | None => 0
  end.

(** The armour class of the specification:
    10 + sum of the armour ratings of the equipped items + dexterity modifier. *)
Definition spec_armour_class (w : WorldState.t) (actor : NPC.t) : Z :=
  10 + fold_right Z.add 0 (map (armour_of w) (Dict.values (NPC.slots actor)))
  + ability_modifier (Dict.get_default (NPC.attributes actor) "dexterity" 10).

(** The attack of the specification, as a function of the three rolls. *)
Definition spec_attr_mod (attacker : NPC.t) (weapon : ItemBlueprint.t) : Z :=
  let str := ability_modifier
               (Dict.get_default (NPC.attributes attacker) "strength" 10) in
  let dex := ability_modifier
               (Dict.get_default (NPC.attributes attacker) "dexterity" 10) in
  if mem_str "finesse" (ItemBlueprint.properties weapon)
  then Z.max str dex else str.

Definition spec_attack (attacker : NPC.t) (weapon : ItemBlueprint.t)
  (target_ac d20 roll1 roll2 : Z) : AttackResult.t :=
  let attr_mod := spec_attr_mod attacker weapon in
  let to_hit :=
    d20 + attr_mod
    + proficiency_bonus (Dict.get_default (NPC.skills attacker)
                                          (ItemBlueprint.skill_tag weapon) "") in
  let hit := Z.geb to_hit target_ac in
  AttackResult.mk hit
    (if hit then roll1 + (if d20 =? 20 then roll2 else 0) + attr_mod else 0)
    to_hit target_ac.

(** The newest entry of the short-term memory of agent [x] is [pe]. *)
Definition perceived_last (pe : PerceptionEvent.t) (x : string)
  (w : WorldState.t) : Prop :=
  exists npc older,
    Dict.get (npcs w) x = Some npc
    /\ NPC.short_term_memory npc = older ++ [pe].

(** The target of a move command once the aliases are normalised. *)
Definition move_target (command : Command.t) : pyval :=
  pget (normalize_params "move"
          (match Command.params command with Some p => p | None => [] end))
       "target_location".

(** Agent [npc'] is agent [npc] except, possibly, for its hunger stage. *)
Definition only_hunger_stage_differs (npc npc' : NPC.t) : Prop :=
  NPC.id npc' = NPC.id npc
  /\ NPC.name npc' = NPC.name npc
  /\ NPC.inventory npc' = NPC.inventory npc
  /\ NPC.slots npc' = NPC.slots npc
  /\ NPC.hp npc' = NPC.hp npc
  /\ NPC.tags npc' = NPC.tags npc
  /\ NPC.short_term_memory npc' = NPC.short_term_memory npc
  /\ NPC.next_available_tick npc' = NPC.next_available_tick npc
  /\ NPC.last_meal_tick npc' = NPC.last_meal_tick npc
  /\ NPC.attributes npc' = NPC.attributes npc
  /\ NPC.skills npc' = NPC.skills npc.

(** The town once the tavern has been deleted while the bard stood in the
    market: the tavern has neither a static record nor a state and the
    square has no edge to it any more, but the static record of the square
    still names it as its eastern neighbor, ahead of the market. *)
Module Razed.
Definition statics : dict LocationStatic.t :=
  [ ("town_square",
     LocationStatic.mk "town_square" "The town square." [("inherent", [])]
       [("east", "tavern"); ("west", "market_square")]);
    ("market_square",
     LocationStatic.mk "market_square" "The market." [("inherent", [])]
       [("east", "town_square")]) ].

Definition states : dict LocationState.t :=
  [ ("town_square",
     LocationState.mk "town_square" ["npc_guard"; "npc_sample"] [] [] []
       [("market_square", Edge.mk (Some "open") (Some "west"))]);
    ("market_square",
     LocationState.mk "market_square" ["npc_bard"] [] [] []
       [("town_square", Edge.mk (Some "open") (Some "east"))]) ].

Definition world : WorldState.t :=
  WorldState.mk (npcs (Town.world "open")) statics states Town.blueprints
                Town.instances.

Definition sim : Simulator.t :=
  Simulator.mk world 1 [] [("move", MoveTool 5)] true 30 Town.seeded.

(** The guard, on the square, screams or talks loudly. *)
Definition shout (event_type : string) : Event.t :=
  Event.mk event_type 1 "npc_guard" [] [("content", VStr "help")].
End Razed.

(** ** Further vocabulary *)

(** How many times an agent is listed among the occupants of all the
    locations together. *)
Definition occupancy (npc_id : string) (locs : dict LocationState.t) : nat :=
  list_sum
    (map (fun kv => count_occ string_dec (LocationState.occupants (snd kv))
                              npc_id) locs).

(** Everything an agent carries: the inventory, then the equipped items. *)
Definition held (npc : NPC.t) : list string :=
  NPC.inventory npc ++ equipped_items (NPC.slots npc).

(** The item a slot value stands for, if any. *)
Definition slot_item (v : option string) : list string :=
  match v with
  | Some c => if truthy_str c then [c] else []
  | None => []
  end.

(** Further events and commands in the town. *)
Module Scenes.
Definition guard_moves : Event.t :=
  Event.mk "move" 1 "npc_guard" ["tavern"] [("to_location_id", VStr "tavern")].
Definition guard_equips : Event.t :=
  Event.mk "equip" 1 "npc_guard" ["sword"]
           [("item_id", VStr "sword"); ("slot", VStr "main_hand")].
Definition guard_unequips : Event.t :=
  Event.mk "unequip" 2 "npc_guard" ["sword"]
           [("item_id", VStr "sword"); ("slot", VStr "main_hand")].
Definition guard_eats : Event.t :=
  Event.mk "eat" 7 "npc_guard" ["apple"] [("item_name", VStr "Apple")].
Definition guard_gives : Event.t :=
  Event.mk "give" 1 "npc_guard" ["sword"; "npc_sample"]
           [("item_id", VStr "sword"); ("recipient_id", VStr "npc_sample")].
Definition guard_closes_market : Event.t :=
  Event.mk "close_connection" 1 "npc_guard" ["market_square"] [].
Definition guard_opens_tavern : Event.t :=
  Event.mk "open_connection" 1 "npc_guard" ["tavern"] [].
Definition guard_closes_nowhere : Event.t :=
  Event.mk "close_connection" 1 "npc_guard" ["cellar"] [].
Definition guard_dies : Event.t :=
  Event.mk "npc_died" 3 "npc_guard" ["town_square"] [].
End Scenes.

(** The instance of an item lies on the floor of [loc_id]. *)
Definition lies_in (loc_id : string) (inst : ItemInstance.t) : Prop :=
  ItemInstance.owner_id inst = None
  /\ ItemInstance.current_location inst = Some loc_id.

(** Every direction recorded on an edge of [w] is still recorded on it in
    [w']. *)
Definition directions_kept (w w' : WorldState.t) : Prop :=
  forall c d e0 x,
    edge_of w c d = Some e0 -> Edge.direction e0 = Some x ->
    exists e1, edge_of w' c d = Some e1 /\ Edge.direction e1 = Some x.

(** The edges of [w'] have the statuses they have in [w]. *)
Definition statuses_kept (w w' : WorldState.t) : Prop :=
  forall c d,
    option_map Edge.status (edge_of w' c d)
    = option_map Edge.status (edge_of w c d).

(** Agent [npc'] is agent [npc] with another short-term memory. *)
Definition same_but_memory (npc npc' : NPC.t) : Prop :=
  npc' = NPC.with_short_term_memory npc (NPC.short_term_memory npc').

(** World [w'] is world [w] where agents may have other short-term
    memories. *)
Definition only_memories_differ (w w' : WorldState.t) : Prop :=
  locations_state w' = locations_state w
  /\ locations_static w' = locations_static w
  /\ item_instances w' = item_instances w
  /\ item_blueprints w' = item_blueprints w
  /\ Dict.keys (npcs w') = Dict.keys (npcs w)
  /\ forall k npc', Dict.get (npcs w') k = Some npc' ->
       exists npc, Dict.get (npcs w) k = Some npc /\ same_but_memory npc npc'.

(** Every short-term memory of the world holds at most [cap] entries. *)
Definition memories_within (cap : Z) (w : WorldState.t) : Prop :=
  forall k npc, Dict.get (npcs w) k = Some npc ->
                Z.of_nat (List.length (NPC.short_term_memory npc)) <= cap.

(** What every handler respects: the clock, the tool table and the buffer
    size stay, and the queue only grows, by events stamped with the current
    tick. *)
Definition handler_frame (s s' : Simulator.t) : Prop :=
  Simulator.game_tick s' = Simulator.game_tick s
  /\ Simulator.tools s' = Simulator.tools s
  /\ Simulator.perception_buffer_size s' = Simulator.perception_buffer_size s
  /\ exists new,
       Simulator.event_queue s' = Simulator.event_queue s ++ new
       /\ Forall (fun e => Event.tick e = Simulator.game_tick s) new.

(** A generator that always draws the same raw number. *)
Definition constant_rng (z : Z) : Rng.t := Rng.mk (fun _ => z) 0.

(** [[loc_id] if loc_id else []] for the place of an agent. *)
Definition place_of (w : WorldState.t) (npc_id : string) : list string :=
  match find_npc_location w npc_id with
  | Some l => if truthy_str l then [l] else []
  | None => []
  end.

Module Brawl.
(** The guard swings at the villager at tick 3. *)
Definition attack : Event.t :=
  Event.mk "attack_attempt" 3 "npc_guard" ["npc_sample"] [].
(** Four points of damage against the villager, who has one hit point. *)
Definition wound : Event.t :=
  Event.mk "damage_applied" 3 "npc_guard" ["npc_sample"]
           [("amount", VInt 4); ("damage_type", VStr "slashing")].
End Brawl.

(** ** More tools ([engine/tools/grab.py], [drop.py], [wait.py], [rest.py],
    [toggle_starvation.py])

    As for [MoveTool], an id that [generate_events] copies into [target_ids]
    is a string whenever [validate_intent] accepted the intent; any other
    value is answered [TypeError]. *)

Definition GrabTool_validate_intent (intent : dict pyval) (w : WorldState.t)
  (actor : NPC.t) : result bool :=
  let item_id := Dict.get_default intent "item_id" VNone in
  if negb (truthy item_id) then Ok false
  else
    match py_in_dict item_id (item_instances w) with
    | Raise x => Raise x
    | Ok false => Ok false
    | Ok true =>
        match find_npc_location w (NPC.id actor) with
        | Some loc_id =>
            if truthy_str loc_id then
              match get_location_state w loc_id with
              | Raise x => Raise x
              | Ok loc_state =>
                  Ok (py_in_list item_id (LocationState.items loc_state))
              end
            else Ok false
        | None => Ok false
        end
    end.

(** [Event(event_type=t, tick=tick, actor_id=actor.id,
    target_ids=[intent["item_id"]])]. *)
Definition item_event (t : string) (intent : dict pyval) (actor : NPC.t)
  (tick : Z) : result (list Event.t) :=
  match Dict.get intent "item_id" with
  | None => Raise (KeyError "item_id")
  | Some (VStr item_id) => Ok [Event.mk t tick (NPC.id actor) [item_id] []]
  | Some _ => Raise TypeError
  end.

Definition GrabTool_generate_events (intent : dict pyval) (w : WorldState.t)
  (actor : NPC.t) (tick : Z) : result (list Event.t) :=
  item_event "grab" intent actor tick.

Definition GrabTool (time_cost : Z) : Tool.t :=
  Tool.mk "grab" time_cost GrabTool_validate_intent GrabTool_generate_events.

Definition DropTool_validate_intent (intent : dict pyval) (w : WorldState.t)
  (actor : NPC.t) : result bool :=
  Ok (py_in_list (Dict.get_default intent "item_id" VNone)
                 (NPC.inventory actor)).

Definition DropTool_generate_events (intent : dict pyval) (w : WorldState.t)
  (actor : NPC.t) (tick : Z) : result (list Event.t) :=
  item_event "drop" intent actor tick.

Definition DropTool (time_cost : Z) : Tool.t :=
  Tool.mk "drop" time_cost DropTool_validate_intent DropTool_generate_events.

(** [isinstance(ticks, int) and ticks >= 1]; a [bool] is an [int]. *)
Definition ticks_ok (ticks : pyval) : bool :=
  match ticks with
  | VInt z => 1 <=? z
  | VBool b => b
  | _ => false
  end.

Definition WaitTool_validate_intent (intent : dict pyval) (w : WorldState.t)
  (actor : NPC.t) : result bool :=
  Ok (ticks_ok (Dict.get_default intent "ticks" (VInt 1))).

Definition WaitTool_generate_events (intent : dict pyval) (w : WorldState.t)
  (actor : NPC.t) (tick : Z) : result (list Event.t) :=
  let ticks := Dict.get_default intent "ticks" (VInt 1) in
  Ok [Event.mk "wait" tick (NPC.id actor) [] [("ticks", ticks)]].

Definition WaitTool (time_cost : Z) : Tool.t :=
  Tool.mk "wait" time_cost WaitTool_validate_intent WaitTool_generate_events.

Definition RestTool_validate_intent (intent : dict pyval) (w : WorldState.t)
  (actor : NPC.t) : result bool :=
  Ok (ticks_ok (Dict.get_default intent "ticks" (VInt 1))).

Definition RestTool_generate_events (intent : dict pyval) (w : WorldState.t)
  (actor : NPC.t) (tick : Z) : result (list Event.t) :=
  let ticks := Dict.get_default intent "ticks" (VInt 1) in
  let healed := ticks in
  Ok [Event.mk "rest" tick (NPC.id actor) []
               [("ticks", ticks); ("healed", healed)]].

Definition RestTool (time_cost : Z) : Tool.t :=
  Tool.mk "rest" time_cost RestTool_validate_intent RestTool_generate_events.

Definition ToggleStarvationTool_validate_intent (intent : dict pyval)
  (w : WorldState.t) (actor : NPC.t) : result bool :=
  match Dict.get_default intent "enabled" VNone with
  | VBool _ => Ok true
  | _ => Ok false
  end.

Definition ToggleStarvationTool_generate_events (intent : dict pyval)
  (w : WorldState.t) (actor : NPC.t) (tick : Z) : result (list Event.t) :=
  match Dict.get intent "enabled" with
  | None => Raise (KeyError "enabled")
  | Some enabled =>
      Ok [Event.mk "toggle_starvation" tick (NPC.id actor) []
                   [("enabled", enabled)]]
  end.

Definition ToggleStarvationTool (time_cost : Z) : Tool.t :=
  Tool.mk "toggle_starvation" time_cost ToggleStarvationTool_validate_intent
          ToggleStarvationTool_generate_events.

(** [max(1, constitution * 2)], the cap of [rest]. *)
Definition max_hp (npc : NPC.t) : Z :=
  Z.max 1 (Dict.get_default (NPC.attributes npc) "constitution" 10 * 2).

Module Camp.
(** The town with the sword lying in the square and the guard overfed with
    hit points. *)
Definition square : LocationState.t :=
  LocationState.mk "town_square" ["npc_guard"; "npc_sample"] ["sword"] [] []
    [("tavern", Edge.mk (Some "open") (Some "east"))].
Definition guard : NPC.t :=
  NPC.with_hp (NPC.with_inventory Town.npc_guard ["apple"]) 25.
Definition world : WorldState.t :=
  set_instance
    (set_npc (set_location (Town.world "open") "town_square" square)
       "npc_guard" guard)
    "sword" (ItemInstance.mk "sword" "sword" (Some "town_square") None []
                             [("inherent", []); ("dynamic", [])]).
Definition sim : Simulator.t :=
  Simulator.mk world 7 []
    [("wait", WaitTool 1); ("rest", RestTool 1); ("grab", GrabTool 1);
     ("drop", DropTool 1); ("toggle_starvation", ToggleStarvationTool 0)]
    true 30 Town.seeded.
End Camp.

(** ** Conversations ([Simulator._handle_talk],
    [Simulator._handle_leave_conversation] and the conversation helpers)

    The two tables of the simulator that track who talks to whom. A
    conversation is a dictionary that the handlers mutate in place through
    a reference taken from the table; every write below goes through the
    table, and a write to a conversation that has been dissolved in between
    is lost, as it is on the unreachable object. *)

From Stdlib Require Import DecimalString.

Module Line.
Record t : Type := mk { speaker : string; tick : Z; content : pyval }.
End Line.

Module Convo.
Record t : Type := mk {
    conversation_id : string;
    participants : list string;
    turn_order : list string;
    current_speaker : option string;
    start_tick : Z;
    last_interaction_tick : Z;
    history : list Line.t;
    location_id : option string
  }.
Definition with_participants (c : t) (v : list string) : t :=
  mk (conversation_id c) v (turn_order c) (current_speaker c) (start_tick c)
     (last_interaction_tick c) (history c) (location_id c).
Definition with_turn_order (c : t) (v : list string) : t :=
  mk (conversation_id c) (participants c) v (current_speaker c) (start_tick c)
     (last_interaction_tick c) (history c) (location_id c).
Definition with_current_speaker (c : t) (v : option string) : t :=
  mk (conversation_id c) (participants c) (turn_order c) v (start_tick c)
     (last_interaction_tick c) (history c) (location_id c).
Definition with_last_interaction_tick (c : t) (v : Z) : t :=
  mk (conversation_id c) (participants c) (turn_order c) (current_speaker c)
     (start_tick c) v (history c) (location_id c).
Definition with_history (c : t) (v : list Line.t) : t :=
  mk (conversation_id c) (participants c) (turn_order c) (current_speaker c)
     (start_tick c) (last_interaction_tick c) v (location_id c).
End Convo.

Module Talks.
Record t : Type := mk {
    conversations : dict Convo.t;
    actor_conversation : dict string
  }.
Definition with_conversations (s : t) (v : dict Convo.t) : t :=
  mk v (actor_conversation s).
Definition with_actor_conversation (s : t) (v : dict string) : t :=
  mk (conversations s) v.
Definition empty : t := mk [] [].
End Talks.

(** A write through a reference to the conversation [convo_id]. *)
Definition update_convo (convo_id : string) (f : Convo.t -> Convo.t)
  (t : Talks.t) : Talks.t :=
  match Dict.get (Talks.conversations t) convo_id with
  | Some c =>
      Talks.with_conversations t (Dict.set (Talks.conversations t) convo_id (f c))
  | None => t
  end.

(** [self.actor_conversation.pop(pid, None)]. *)
Definition forget_actor (pid : string) (t : Talks.t) : Talks.t :=
  Talks.with_actor_conversation t (Dict.pop (Talks.actor_conversation t) pid).

(** [self.actor_conversation[pid] = convo_id]. *)
Definition bind_actor (convo_id : string) (t : Talks.t) (pid : string)
  : Talks.t :=
  Talks.with_actor_conversation t
    (Dict.set (Talks.actor_conversation t) pid convo_id).

(** [if self.actor_conversation.get(pid) == convo_id:
    self.actor_conversation.pop(pid, None)]. *)
Definition release (convo_id : string) (t : Talks.t) (pid : string) : Talks.t :=
  match Dict.get (Talks.actor_conversation t) pid with
  | Some c => if String.eqb c convo_id then forget_actor pid t else t
  | None => t
  end.

Definition _dissolve_conversation (convo_id : string) (t : Talks.t) : Talks.t :=
  match Dict.get (Talks.conversations t) convo_id with
  | None => t
  | Some convo =>
      fold_left (release convo_id) (Convo.participants convo)
        (Talks.with_conversations t (Dict.pop (Talks.conversations t) convo_id))
  end.

(** [p == current] for a participant and the current speaker. *)
Definition is_speaker (current : option string) (p : string) : bool :=
  match current with Some c => String.eqb p c | None => false end.

(** The queue as [_advance_conversation_turn] rebuilds it, current speaker
    appended, before the next speaker is popped from its front. *)
Definition next_in_line (convo : Convo.t) (hint_target : option string)
  : list string :=
  let current := Convo.current_speaker convo in
  let participants := Convo.participants convo in
  let turn_order :=
    filter (fun p => mem_str p participants && negb (is_speaker current p))
           (Convo.turn_order convo) in
  let turn_order :=
    match hint_target with
    | Some h =>
        if truthy_str h && mem_str h participants && negb (is_speaker current h)
        then h :: filter (fun pid => negb (String.eqb pid h)) turn_order
        else turn_order
    | None => turn_order
    end in
  match current with
  | Some c => if truthy_str c && mem_str c participants
              then turn_order ++ [c] else turn_order
  | None => turn_order
  end.

Definition _advance_conversation_turn (game_tick : Z) (convo_id : string)
  (hint_target : option string) (t : Talks.t) : Talks.t :=
  match Dict.get (Talks.conversations t) convo_id with
  | None => t
  | Some convo =>
      let turn_order := next_in_line convo hint_target in
      let next_speaker := hd_error turn_order in
      let t1 :=
        update_convo convo_id
          (fun c =>
             Convo.with_last_interaction_tick
               (Convo.with_current_speaker
                  (Convo.with_turn_order c (tl turn_order)) next_speaker)
               game_tick) t in
      if (List.length (Convo.participants convo) <? 2)%nat
         || negb (truthy_ostr next_speaker)
      then _dissolve_conversation convo_id t1
      else t1
  end.

Definition _leave_conversation (game_tick : Z) (actor_id : string)
  (t : Talks.t) : Talks.t :=
  match Dict.get (Talks.actor_conversation t) actor_id with
  | None => t
  | Some convo_id =>
      if negb (truthy_str convo_id) then t
      else
        match Dict.get (Talks.conversations t) convo_id with
        | None => forget_actor actor_id t
        | Some convo =>
            let participants :=
              if mem_str actor_id (Convo.participants convo)
              then remove_first actor_id (Convo.participants convo)
              else Convo.participants convo in
            let t1 := update_convo convo_id
                        (fun c => Convo.with_participants c participants) t in
            let t2 :=
              if is_speaker (Convo.current_speaker convo) actor_id then
                _advance_conversation_turn game_tick convo_id None
                  (update_convo convo_id
                     (fun c => Convo.with_current_speaker c None) t1)
              else t1 in
            let t3 := update_convo convo_id
                        (fun c =>
                           Convo.with_turn_order c
                             (filter (fun p => negb (String.eqb p actor_id))
                                     (Convo.turn_order c))) t2 in
            let t4 := forget_actor actor_id t3 in
            if (List.length participants <? 2)%nat
            then _dissolve_conversation convo_id t4
            else update_convo convo_id
                   (fun c => Convo.with_last_interaction_tick c game_tick) t4
        end
  end.

Definition _handle_leave_conversation (game_tick : Z) (e : Event.t)
  (t : Talks.t) : Talks.t :=
  _leave_conversation game_tick (Event.actor_id e) t.

(** [pid] stands in [loc]: [self.world.find_npc_location(pid) == loc]. *)
Definition stands_in (w : WorldState.t) (loc : option string) (pid : string)
  : bool :=
  match find_npc_location w pid, loc with
  | Some a, Some b => String.eqb a b
  | None, None => true
  | _, _ => false
  end.

(** The test of [_gc_conversations] that puts a conversation on the list
    of those to remove. *)
Definition to_remove (w : WorldState.t) (game_tick timeout : Z)
  (convo : Convo.t) : bool :=
  if timeout <? game_tick - Convo.last_interaction_tick convo then true
  else if negb (truthy_ostr (Convo.location_id convo)) then false
  else
    (List.length (filter (stands_in w (Convo.location_id convo))
                         (Convo.participants convo)) <? 2)%nat.

Definition _gc_conversations (w : WorldState.t) (game_tick timeout : Z)
  (t : Talks.t) : Talks.t :=
  fold_left (fun t cid => _dissolve_conversation cid t)
    (map fst (filter (fun kv => to_remove w game_tick timeout (snd kv))
                     (Talks.conversations t)))
    t.

(** [str(n)] for an integer. *)
Definition py_str_of_int (n : Z) : string :=
  NilZero.string_of_int (Z.to_int n).

(** [convo["history"].append({...}); convo["last_interaction_tick"] =
    self.game_tick]. *)
Definition say (game_tick : Z) (speaker_id : string) (content : pyval)
  (c : Convo.t) : Convo.t :=
  Convo.with_last_interaction_tick
    (Convo.with_history c
       (Convo.history c ++ [Line.mk speaker_id game_tick content]))
    game_tick.

(** The recipient of a line as the turn rule reads it: only a string can be
    a participant. *)
Definition hint_of (target : pyval) : option string :=
  match target with VStr s => Some s | _ => None end.

(** [_handle_talk]. A recipient that is not a string can become a
    participant only when the speaker stands nowhere; that case is left
    out. *)
Definition _handle_talk (w : WorldState.t) (game_tick : Z) (e : Event.t)
  (t : Talks.t) : result unit * Talks.t :=
  let speaker_id := Event.actor_id e in
  let content := Dict.get_default (Event.payload e) "content" (VStr "") in
  let target_id :=
    py_or (pget (Event.payload e) "recipient_id")
          (match Event.target_ids e with
           | first :: _ => VStr first
           | [] => VNone
           end) in
  let payload_convo_id := pget (Event.payload e) "conversation_id" in
  let is_interject := truthy (pget (Event.payload e) "interject") in
  let current_loc := find_npc_location w speaker_id in
  let interjected :=
    match payload_convo_id with
    | VStr cid => if is_interject then Some cid else None
    | _ => None
    end in
  match interjected with
  | Some cid =>
      match Dict.get (Talks.conversations t) cid with
      | None => (Ok tt, t)
      | Some convo =>
          if truthy_ostr current_loc
             && match current_loc, Convo.location_id convo with
                | Some a, Some b => String.eqb a b
                | _, _ => false
                end
          then
            let t1 :=
              if negb (mem_str speaker_id (Convo.participants convo)) then
                let t' := bind_actor cid
                            (update_convo cid
                               (fun c => Convo.with_participants c
                                           (Convo.participants c ++ [speaker_id]))
                               t)
                            speaker_id in
                if negb (is_speaker (Convo.current_speaker convo) speaker_id)
                   && negb (mem_str speaker_id (Convo.turn_order convo))
                then update_convo cid
                       (fun c => Convo.with_turn_order c
                                   (Convo.turn_order c ++ [speaker_id])) t'
                else t'
              else t in
            let t2 := update_convo cid (say game_tick speaker_id content) t1 in
            if is_speaker (Convo.current_speaker convo) speaker_id
            then (Ok tt,
                  _advance_conversation_turn game_tick cid (hint_of target_id) t2)
            else (Ok tt, t2)
          else (Ok tt, t)
      end
  | None =>
      match Dict.get (Talks.actor_conversation t) speaker_id with
      | None =>
          let joined : result (list string) :=
            if truthy target_id then
              match target_id with
              | VStr target =>
                  if stands_in w current_loc target
                  then Ok [speaker_id; target] else Ok [speaker_id]
              | _ =>
                  match current_loc with
                  | None => Raise (Unmodelled "recipient")
                  | Some _ => Ok [speaker_id]
                  end
              end
            else Ok [speaker_id] in
          match joined with
          | Raise x => (Raise x, t)
          | Ok participants =>
              if (List.length participants <? 2)%nat then (Ok tt, t)
              else
                let convo_id :=
                  String.append "convo_"
                    (String.append speaker_id
                       (String.append "_" (py_str_of_int game_tick))) in
                let convo :=
                  Convo.mk convo_id participants
                    (filter (fun pid => negb (String.eqb pid speaker_id))
                            participants)
                    (Some speaker_id) game_tick game_tick
                    [Line.mk speaker_id game_tick content] current_loc in
                let t1 := Talks.with_conversations t
                            (Dict.set (Talks.conversations t) convo_id convo) in
                let t2 := fold_left (bind_actor convo_id) participants t1 in
                (Ok tt,
                 _advance_conversation_turn game_tick convo_id
                   (hint_of target_id) t2)
          end
      | Some convo_id =>
          match Dict.get (Talks.conversations t) convo_id with
          | Some convo =>
              if is_speaker (Convo.current_speaker convo) speaker_id then
                (Ok tt,
                 _advance_conversation_turn game_tick convo_id
                   (hint_of target_id)
                   (update_convo convo_id (say game_tick speaker_id content) t))
              else (Ok tt, t)
          | None => (Ok tt, t)
          end
      end
  end.

(** The current speaker followed by those who wait for their turn. *)
Definition speaking_order (convo : Convo.t) : list string :=
  match Convo.current_speaker convo with
  | Some c => c :: Convo.turn_order convo
  | None => Convo.turn_order convo
  end.

(** A conversation in good order: somebody has the floor, at least one
    other waits, nobody is listed twice, and all of them are participants
    with a non-empty id. *)
Definition orderly (convo : Convo.t) : Prop :=
  Convo.current_speaker convo <> None
  /\ (2 <= List.length (speaking_order convo))%nat
  /\ NoDup (speaking_order convo)
  /\ Forall (fun p => In p (Convo.participants convo) /\ p <> "")
            (speaking_order convo).

(** The first of a list goes to its end. *)
Definition rotate (l : list string) : list string :=
  match l with
  | [] => []
  | x :: r => r ++ [x]
  end.

Module Chat.
(** The guard and the villager talk in the square, the guard has the
    floor; the bard waits with them in a second conversation of three. *)
Definition duo : Convo.t :=
  Convo.mk "convo_npc_guard_3" ["npc_guard"; "npc_sample"] ["npc_sample"]
           (Some "npc_guard") 3 3 [Line.mk "npc_sample" 3 (VStr "hello")]
           (Some "town_square").
Definition trio : Convo.t :=
  Convo.mk "convo_a_1" ["a"; "b"; "c"] ["b"; "c"] (Some "a") 1 1 []
           (Some "tavern").
Definition talks : Talks.t :=
  Talks.mk [("convo_npc_guard_3", duo); ("convo_a_1", trio)]
           [("npc_guard", "convo_npc_guard_3");
            ("npc_sample", "convo_npc_guard_3");
            ("a", "convo_a_1"); ("b", "convo_a_1"); ("c", "convo_a_1")].
(** The guard addresses the villager, who answers. *)
Definition halt : Event.t :=
  Event.mk "talk" 3 "npc_guard" ["npc_sample"] [("content", VStr "halt")].
Definition why : Event.t :=
  Event.mk "talk" 4 "npc_sample" [] [("content", VStr "why")].
End Chat.

(** ** Game-master operations ([Simulator._gm_move_actor],
    [_gm_connect_locations], [_gm_disconnect_locations])

    Each body runs inside a [try] that answers [False] on any exception and
    keeps what was written before it. *)

Definition _gm_move_actor (npc_id to_location_id : string) (w : WorldState.t)
  : bool * WorldState.t :=
  if negb (Dict.mem (npcs w) npc_id) then (false, w)
  else
    let w1 :=
      if negb (Dict.mem (locations_state w) to_location_id)
      then set_location w to_location_id (LocationState.fresh to_location_id)
      else w in
    let removed : result WorldState.t :=
      match find_npc_location w1 npc_id with
      | Some cur =>
          if truthy_str cur then
            match Dict.get (locations_state w1) cur with
            | None => Raise (KeyError cur)
            | Some l =>
                if mem_str npc_id (LocationState.occupants l) then
                  Ok (set_location w1 cur
                        (LocationState.with_occupants l
                           (remove_first npc_id (LocationState.occupants l))))
                else Ok w1
            end
          else Ok w1
      | None => Ok w1
      end in
    match removed with
    | Raise _ => (false, w1)
    | Ok w2 =>
        match get_location_state w2 to_location_id with
        | Raise _ => (false, w2)
        | Ok st =>
            if negb (mem_str npc_id (LocationState.occupants st)) then
              (true,
               set_location w2 to_location_id
                 (LocationState.with_occupants st
                    (LocationState.occupants st ++ [npc_id])))
            else (true, w2)
        end
    end.

Definition _gm_connect_locations (a b status : string) (w : WorldState.t)
  : bool * WorldState.t :=
  if String.eqb a b then (false, w)
  else if negb (Dict.mem (locations_state w) a)
          || negb (Dict.mem (locations_state w) b) then (false, w)
  else
    let st := if negb (String.eqb status "closed") then "open" else "closed" in
    let w1 := update_edge a b (fun x => x) w in
    let w2 := update_edge b a (fun x => x) w1 in
    let w3 := update_edge a b (fun x => Edge.with_status x st) w2 in
    let w4 := update_edge b a (fun x => Edge.with_status x st) w3 in
    let w5 := infer_forward_direction a b w4 in
    (true, infer_inverse_direction a b w5).

(** [self.world.locations_state[a].connections_state.pop(b, None)]. *)
Definition drop_edge (a b : string) (w : WorldState.t) : WorldState.t :=
  match Dict.get (locations_state w) a with
  | Some l =>
      set_location w a
        (LocationState.with_connections_state l
           (Dict.pop (LocationState.connections_state l) b))
  | None => w
  end.

Definition _gm_disconnect_locations (a b : string) (w : WorldState.t)
  : bool * WorldState.t :=
  (true, drop_edge b a (drop_edge a b w)).

(** The world [w] with the two locations [a] and [b], whose states are [la]
    and [lb], joined by the edge [ea] from [a] to [b] and the edge [eb] from
    [b] to [a]. *)
Definition with_edges (w : WorldState.t) (a b : string)
  (la lb : LocationState.t) (ea eb : Edge.t) : WorldState.t :=
  set_location
    (set_location w a
       (LocationState.with_connections_state la
          (Dict.set (LocationState.connections_state la) b ea)))
    b
    (LocationState.with_connections_state lb
       (Dict.set (LocationState.connections_state lb) a eb)).

(** [status] as the game master's operations normalise it. *)
Definition edge_status (status : string) : string :=
  if negb (String.eqb status "closed") then "open" else "closed".

(** * Properties *)

(** Closes [NoDup] goals on lists of distinct string literals. *)
Ltac distinct_strings :=
  repeat (constructor; [simpl; intuition discriminate|]); constructor.

(** ** Strings, lists and dictionaries *)

Lemma mem_str_In (x : string) (l : list string) :
  mem_str x l = true <-> In x l.
Proof.
  unfold mem_str. rewrite existsb_exists. split.
  - intros [y [Hy He]]. apply String.eqb_eq in He. now subst.
  - intros H. exists x. split; [assumption | apply String.eqb_refl].
Qed.

Lemma mem_str_not_In (x : string) (l : list string) :
  mem_str x l = false <-> ~ In x l.
Proof.
  rewrite <- mem_str_In. destruct (mem_str x l); split; congruence.
Qed.

Lemma remove_first_app_last (x : string) (l : list string) :
  ~ In x l -> remove_first x (l ++ [x]) = l.
Proof.
  induction l as [|y r IH]; simpl; intros H.
  - now rewrite String.eqb_refl.
  - destruct (String.eqb x y) eqn:E.
    + apply String.eqb_eq in E. subst. exfalso. apply H. now left.
    + f_equal. apply IH. intros Hin. apply H. now right.
Qed.

Lemma remove_first_perm (x : string) (l : list string) :
  In x l -> Permutation (remove_first x l ++ [x]) l.
Proof.
  induction l as [|y r IH]; simpl; intros H; [contradiction|].
  destruct (String.eqb x y) eqn:E.
  - apply String.eqb_eq in E. subst y.
    apply Permutation_sym, Permutation_cons_append.
  - destruct H as [H|H]; [subst; rewrite String.eqb_refl in E; discriminate|].
    simpl. constructor. now apply IH.
Qed.

Section DictFacts.
Context {V : Type}.
Implicit Types (d : dict V) (k : string) (v : V).

Lemma get_set_same d k v : Dict.get (Dict.set d k v) k = Some v.
  Proof.
    induction d as [|[k' v'] r IH]; simpl.
    - now rewrite String.eqb_refl.
    - destruct (String.eqb k' k) eqn:E; simpl; rewrite E; auto.
  Qed.

Lemma get_set_other d k k' v :
    k <> k' -> Dict.get (Dict.set d k v) k' = Dict.get d k'.
  Proof.
    intros Hne. induction d as [|[k0 v0] r IH]; simpl.
    - destruct (String.eqb k k') eqn:E; [apply String.eqb_eq in E; congruence|reflexivity].
    - destruct (String.eqb k0 k) eqn:E; simpl.
      + apply String.eqb_eq in E. subst k0.
        destruct (String.eqb k k') eqn:E'; [apply String.eqb_eq in E'; congruence|reflexivity].
      + destruct (String.eqb k0 k'); auto.
  Qed.

Lemma set_get_id d k v : Dict.get d k = Some v -> Dict.set d k v = d.
  Proof.
    induction d as [|[k' v'] r IH]; simpl; [discriminate|].
    destruct (String.eqb k' k) eqn:E.
    - intros [= ->]. reflexivity.
    - intros H. f_equal. now apply IH.
  Qed.

Lemma set_set d k v v' : Dict.set (Dict.set d k v) k v' = Dict.set d k v'.
  Proof.
    induction d as [|[k0 v0] r IH]; simpl.
    - now rewrite String.eqb_refl.
    - destruct (String.eqb k0 k) eqn:E; simpl; rewrite E; [reflexivity|].
      now rewrite IH.
  Qed.

Lemma get_In d k v : Dict.get d k = Some v -> In (k, v) d.
  Proof.
    induction d as [|[k' v'] r IH]; simpl; [discriminate|].
    destruct (String.eqb k' k) eqn:E.
    - apply String.eqb_eq in E. intros [= ->]. subst. now left.
    - intros H. right. now apply IH.
  Qed.

Lemma mem_get d k : Dict.mem d k = true <-> exists v, Dict.get d k = Some v.
  Proof.
    unfold Dict.mem. destruct (Dict.get d k) as [v|].
    - split; [eauto|reflexivity].
    - split; [discriminate|intros [v H]; discriminate].
  Qed.
End DictFacts.

(** ** Hunger *)

Lemma hunger_loop_get (current_tick : Z) (l : dict NPC.t) (k : string) :
  Dict.get (fst (hunger_loop current_tick l)) k
  = option_map (fun n => fst (hunger_step current_tick n)) (Dict.get l k).
Proof.
  induction l as [|[k' n] r IH]; [reflexivity|].
  cbn [hunger_loop Dict.get].
  destruct (hunger_step current_tick n) as [n' evs] eqn:Hs.
  destruct (hunger_loop current_tick r) as [r' evs'] eqn:Hl.
  cbn [fst Dict.get option_map] in *.
  destruct (String.eqb k' k); [cbn [option_map]; now rewrite Hs | exact IH].
Qed.

Lemma hunger_loop_events (current_tick : Z) (l : dict NPC.t) :
  snd (hunger_loop current_tick l)
  = flat_map (fun kv => snd (hunger_step current_tick (snd kv))) l.
Proof.
  induction l as [|[k' n] r IH]; [reflexivity|].
  cbn [hunger_loop flat_map snd].
  destruct (hunger_step current_tick n) as [n' evs].
  destruct (hunger_loop current_tick r) as [r' evs'].
  cbn [snd] in *. now rewrite IH.
Qed.

Lemma events_about_app (x : string) (a b : list Event.t) :
  events_about x (a ++ b) = events_about x a ++ events_about x b.
Proof. apply filter_app. Qed.

(** The events of one agent's step are about that agent only. *)
Lemma hunger_step_about_other (current_tick : Z) (n : NPC.t) (x : string) :
  NPC.id n <> x -> events_about x (snd (hunger_step current_tick n)) = [].
Proof.
  intros Hne. unfold hunger_step.
  destruct (NPC.is_dead n); [reflexivity|].
  destruct (STARVING_THRESHOLD <=? current_tick - NPC.last_meal_tick n).
  - simpl. destruct (String.eqb (NPC.id n) x) eqn:E.
    + apply String.eqb_eq in E. contradiction.
    + rewrite String.eqb_sym, E. reflexivity.
  - destruct (HUNGRY_THRESHOLD <=? current_tick - NPC.last_meal_tick n);
      reflexivity.
Qed.

Lemma hunger_step_about_self (current_tick : Z) (n : NPC.t) :
  events_about (NPC.id n) (snd (hunger_step current_tick n))
  = snd (hunger_step current_tick n).
Proof.
  unfold hunger_step.
  destruct (NPC.is_dead n); [reflexivity|].
  destruct (STARVING_THRESHOLD <=? current_tick - NPC.last_meal_tick n).
  - simpl. now rewrite String.eqb_refl.
  - destruct (HUNGRY_THRESHOLD <=? current_tick - NPC.last_meal_tick n);
      reflexivity.
Qed.

Lemma events_about_others (current_tick : Z) (l : dict NPC.t) (x : string) :
  ~ In x (map NPC.id (Dict.values l)) ->
  events_about x
    (flat_map (fun kv => snd (hunger_step current_tick (snd kv))) l) = [].
Proof.
  induction l as [|[k n] r IH]; simpl; intros H; [reflexivity|].
  rewrite events_about_app, hunger_step_about_other, IH; auto.
Qed.

(** With distinct agent ids, the events about an agent are those of its own
    step. *)
Lemma events_about_one (current_tick : Z) (l : dict NPC.t) (k : string)
  (npc : NPC.t) :
  NoDup (map NPC.id (Dict.values l)) ->
  Dict.get l k = Some npc ->
  events_about (NPC.id npc)
    (flat_map (fun kv => snd (hunger_step current_tick (snd kv))) l)
  = snd (hunger_step current_tick npc).
Proof.
  induction l as [|[k' n] r IH]; simpl; intros Hnd Hget; [discriminate|].
  inversion Hnd as [|? ? Hnotin Hnd']; subst.
  rewrite events_about_app.
  destruct (String.eqb k' k) eqn:E.
  - injection Hget as ->.
    rewrite hunger_step_about_self, events_about_others, app_nil_r; auto.
  - rewrite hunger_step_about_other, IH; auto.
    intros Heq. apply Hnotin. rewrite Heq.
    apply get_In in Hget.
    change (NPC.id npc) with (NPC.id (snd (k, npc))).
    unfold Dict.values. rewrite map_map. apply in_map_iff. eauto.
Qed.

(** C5. [update_hunger] sets the hunger stage of every living agent from
    the ticks since its last meal and touches no other field of it: 40 or
    more makes the stage starving and costs the agent one starvation damage
    event of amount 1 against itself, 20 to 39 makes it hungry, fewer makes
    it sated, both without an event; so the stage read after the update is
    sated at 19, hungry at 20 and at 39, starving at 40. A dead agent is left
    as it is and gets no event. *)
Theorem update_hunger_stages (w : WorldState.t) (current_tick : Z)
  (k : string) (npc : NPC.t) :
  NoDup (map NPC.id (Dict.values (npcs w))) ->
  Dict.get (npcs w) k = Some npc ->
  let events := fst (update_hunger w current_tick) in
  let after := Dict.get (npcs (snd (update_hunger w current_tick))) k in
  let stage := option_map NPC.hunger_stage after in
  let delta := current_tick - NPC.last_meal_tick npc in
  (NPC.is_dead npc = true ->
     after = Some npc /\ events_about (NPC.id npc) events = [])
  /\ (NPC.is_dead npc = false ->
      (exists npc', after = Some npc' /\ only_hunger_stage_differs npc npc')
      /\ (40 <= delta ->
         stage = Some "starving"
         /\ after = Some (NPC.with_hunger_stage npc "starving")
         /\ events_about (NPC.id npc) events
            = [starvation_event current_tick (NPC.id npc)])
      /\ (20 <= delta < 40 ->
         stage = Some "hungry"
         /\ after = Some (NPC.with_hunger_stage npc "hungry")
         /\ events_about (NPC.id npc) events = [])
      /\ (delta < 20 ->
         stage = Some "sated"
         /\ after = Some (NPC.with_hunger_stage npc "sated")
         /\ events_about (NPC.id npc) events = [])
      /\ (delta = 19 -> stage = Some "sated")
      /\ (delta = 20 -> stage = Some "hungry")
      /\ (delta = 39 -> stage = Some "hungry")
      /\ (delta = 40 -> stage = Some "starving")).
Proof.
  intros Hnd Hget events after stage delta.
  assert (Hafter : after = Some (fst (hunger_step current_tick npc))).
  { subst after. unfold update_hunger.
    pose proof (hunger_loop_get current_tick (npcs w) k) as H.
    destruct (hunger_loop current_tick (npcs w)) as [l' evs]. simpl in *.
    now rewrite H, Hget. }
  assert (Hev : events_about (NPC.id npc) events
                = snd (hunger_step current_tick npc)).
  { subst events. unfold update_hunger.
    pose proof (hunger_loop_events current_tick (npcs w)) as H.
    destruct (hunger_loop current_tick (npcs w)) as [l' evs]. simpl in *.
    rewrite H. now apply events_about_one with (k := k). }
  assert (Hstage : stage
                   = Some (NPC.hunger_stage (fst (hunger_step current_tick npc))))
    by (subst stage; now rewrite Hafter).
  rewrite Hstage, Hafter, Hev.
  unfold hunger_step, STARVING_THRESHOLD, HUNGRY_THRESHOLD.
  fold delta. split.
  - intros ->. split; reflexivity.
  - intros ->.
    destruct (Z.leb_spec 40 delta) as [H40|H40];
      [|destruct (Z.leb_spec 20 delta) as [H20|H20]];
      cbn [fst snd NPC.hunger_stage NPC.with_hunger_stage];
      (split;
       [eexists; split; [reflexivity|];
        unfold only_hunger_stage_differs; cbn; repeat split|]);
      repeat (split; [intros; first [lia | repeat split; reflexivity]|]);
      intros; first [lia | reflexivity].
Qed.

Lemma update_hunger_stages_witness :
  NoDup (map NPC.id (Dict.values (npcs (Town.world "closed"))))
  /\ Dict.get (npcs (Town.world "closed")) "npc_sample" = Some Town.npc_sample
  /\ option_map NPC.hunger_stage
       (Dict.get (npcs (snd (update_hunger (Town.world "closed") 40)))
                 "npc_sample")
     = Some "starving"
  /\ Dict.get (npcs (snd (update_hunger (Town.world "closed") 40))) "npc_sample"
     = Some (NPC.with_hunger_stage Town.npc_sample "starving")
  /\ events_about "npc_sample" (fst (update_hunger (Town.world "closed") 40))
     = [starvation_event 40 "npc_sample"].
Proof.
  assert (Hnd : NoDup (map NPC.id (Dict.values (npcs (Town.world "closed")))))
    by (simpl; distinct_strings).
  assert (Hget : Dict.get (npcs (Town.world "closed")) "npc_sample"
                 = Some Town.npc_sample) by reflexivity.
  split; [exact Hnd|]. split; [exact Hget|].
  destruct (update_hunger_stages (Town.world "closed") 40 "npc_sample"
              Town.npc_sample Hnd Hget)
    as [_ Hlive].
  destruct (Hlive eq_refl) as (_ & Hstarving & _).
  apply Hstarving. simpl. lia.
Defined.

(** The boundaries of the hunger stages, on an agent whose last meal was at
    tick 0. *)
Example hunger_boundaries :
  map (fun now => NPC.hunger_stage (fst (hunger_step now Town.npc_guard)))
      [19; 20; 39; 40]
  = ["sated"; "hungry"; "hungry"; "starving"]
  /\ map (fun now => List.length (snd (hunger_step now Town.npc_guard)))
         [19; 20; 39; 40]
     = [0; 0; 0; 1]%nat.
Proof. split; reflexivity. Qed.

(** ** Death *)

Lemma find_in_locations_none (locs : dict LocationState.t) (x : string) :
  (forall k l, In (k, l) locs -> ~ In x (LocationState.occupants l)) ->
  find_in_locations locs x = None.
Proof.
  induction locs as [|[k l] r IH]; simpl; intros H; [reflexivity|].
  destruct (mem_str x (LocationState.occupants l)) eqn:E.
  - apply mem_str_In in E. exfalso. apply (H k l); auto.
  - apply IH. intros k' l' Hin. apply (H k' l'). now right.
Qed.

Lemma mark_dead_is_dead (npc : NPC.t) :
  In "dead" (NPC.dynamic_tags (mark_dead npc)).
Proof.
  unfold mark_dead. destruct (NPC.is_dead npc) eqn:E.
  - now apply mem_str_In.
  - unfold NPC.dynamic_tags, Dict.get_default. simpl.
    rewrite get_set_same. apply in_or_app. right. now left.
Qed.

Lemma mark_dead_keeps_items (npc : NPC.t) :
  NPC.inventory (mark_dead npc) = NPC.inventory npc
  /\ NPC.slots (mark_dead npc) = NPC.slots npc.
Proof. unfold mark_dead. destruct (NPC.is_dead npc); split; reflexivity. Qed.

(** C10. An [npc_died] event for an agent that occupies no location tags the
    agent as dead and leaves its inventory and its equipment slots as they
    were (and with them the locations and the item instances). *)
Theorem npc_died_outside_any_location (w : WorldState.t) (e : Event.t)
  (npc : NPC.t) :
  Event.event_type e = "npc_died" ->
  Dict.get (npcs w) (Event.actor_id e) = Some npc ->
  in_no_location w (NPC.id npc) ->
  exists w' npc',
    apply_event e w = (Ok tt, w')
    /\ Dict.get (npcs w') (Event.actor_id e) = Some npc'
    /\ In "dead" (NPC.dynamic_tags npc')
    /\ NPC.inventory npc' = NPC.inventory npc
    /\ NPC.slots npc' = NPC.slots npc
    /\ locations_state w' = locations_state w
    /\ item_instances w' = item_instances w.
Proof.
  intros Htype Hget Hnowhere.
  exists (set_npc w (Event.actor_id e) (mark_dead npc)), (mark_dead npc).
  split.
  - unfold apply_event. rewrite Htype. cbn -[apply_npc_died].
    unfold apply_npc_died. rewrite Hget.
    unfold find_npc_location. now rewrite (find_in_locations_none _ _ Hnowhere).
  - split; [apply get_set_same|].
    split; [apply mark_dead_is_dead|].
    destruct (mark_dead_keeps_items npc) as [Hi Hs]. auto.
Qed.

Lemma npc_died_outside_any_location_witness :
  Event.event_type Town.wanderer_dies = "npc_died"
  /\ Dict.get (npcs (Town.world "closed")) "npc_wanderer"
     = Some Town.npc_wanderer
  /\ in_no_location (Town.world "closed") "npc_wanderer"
  /\ exists w' npc',
      apply_event Town.wanderer_dies (Town.world "closed") = (Ok tt, w')
      /\ Dict.get (npcs w') "npc_wanderer" = Some npc'
      /\ In "dead" (NPC.dynamic_tags npc')
      /\ NPC.inventory npc' = ["map"]
      /\ NPC.slots npc' = [("main_hand", Some "dagger")]
      /\ locations_state w' = locations_state (Town.world "closed")
      /\ item_instances w' = item_instances (Town.world "closed").
Proof.
  assert (Hno : in_no_location (Town.world "closed") "npc_wanderer").
  { intros k l Hin. simpl in Hin.
    destruct Hin as [H|[H|[H|[]]]]; injection H as <- <-; simpl;
      intuition discriminate. }
  split; [reflexivity|]. split; [reflexivity|]. split; [exact Hno|].
  exact (npc_died_outside_any_location (Town.world "closed")
           Town.wanderer_dies Town.npc_wanderer eq_refl eq_refl Hno).
Defined.

(** ** Commands *)

(** C9. A command of an unknown actor fails with the lookup error of the
    actor whatever its tool is, registered or not, and leaves the simulator
    as it was: the actor is looked up before the tool is examined. *)
Theorem process_command_unknown_actor (s : Simulator.t) (actor_id : string)
  (command : Command.t) :
  Dict.get (npcs (Simulator.world s)) actor_id = None ->
  process_command actor_id command s = (Raise (KeyError actor_id), s).
Proof.
  intros Hnone. unfold process_command, get_npc, subscript.
  now rewrite Hnone.
Qed.

Lemma process_command_unknown_actor_witness :
  Dict.get (npcs (Simulator.world (Town.sim "closed" 0))) "npc_ghost" = None
  /\ Dict.get (Simulator.tools (Town.sim "closed" 0)) "fly" = None
  /\ process_command "npc_ghost" (Command.mk (Some "fly") None)
       (Town.sim "closed" 0)
     = (Raise (KeyError "npc_ghost"), Town.sim "closed" 0).
Proof.
  split; [reflexivity|]. split; [reflexivity|].
  apply (process_command_unknown_actor (Town.sim "closed" 0) "npc_ghost"
           (Command.mk (Some "fly") None)).
  reflexivity.
Defined.

(** ** Dropping and grabbing *)

Lemma find_in_locations_set (locs : dict LocationState.t) (k x : string)
  (l l' : LocationState.t) :
  Dict.get locs k = Some l ->
  LocationState.occupants l' = LocationState.occupants l ->
  find_in_locations (Dict.set locs k l') x = find_in_locations locs x.
Proof.
  intros Hget Hocc. induction locs as [|[k0 l0] r IH]; simpl in *;
    [discriminate|].
  destruct (String.eqb k0 k) eqn:E; simpl.
  - injection Hget as ->. now rewrite Hocc.
  - now rewrite IH.
Qed.

Lemma with_items_same (l : LocationState.t) :
  LocationState.with_items l (LocationState.items l) = l.
Proof. now destruct l. Qed.

Lemma with_inventory_same (n : NPC.t) :
  NPC.with_inventory n (NPC.inventory n) = n.
Proof. now destruct n. Qed.

Lemma with_place_same (i : ItemInstance.t) :
  ItemInstance.with_place i (ItemInstance.current_location i)
                          (ItemInstance.owner_id i) = i.
Proof. now destruct i. Qed.

(** What a drop does when the agent stands somewhere and holds the item. *)
Lemma apply_drop_ok (w : WorldState.t) (e : Event.t)
  (a item loc_id : string) (rest : list string) (npc : NPC.t)
  (l : LocationState.t) :
  Event.actor_id e = a -> Event.target_ids e = item :: rest ->
  Dict.get (npcs w) a = Some npc ->
  In item (NPC.inventory npc) ->
  find_npc_location w a = Some loc_id -> loc_id <> "" ->
  Dict.get (locations_state w) loc_id = Some l ->
  apply_drop e w
  = (Ok tt,
     place_instance item (Some loc_id) None
       (set_location
          (set_npc w a (NPC.with_inventory npc
                          (remove_first item (NPC.inventory npc))))
          loc_id
          (LocationState.with_items l (LocationState.items l ++ [item])))).
Proof.
  intros Ha Ht Hnpc Hin Hfind Hne Hl.
  unfold apply_drop. rewrite Ha, Ht, Hfind.
  assert (Htr : truthy_str loc_id = true).
  { unfold truthy_str. destruct (String.eqb loc_id "") eqn:E; [|reflexivity].
    apply String.eqb_eq in E. contradiction. }
  rewrite Htr, Hnpc.
  apply mem_str_In in Hin. rewrite Hin.
  cbn [set_npc locations_state WorldState.with_npcs]. now rewrite Hl.
Qed.

(** What a grab does when the agent stands somewhere and the item lies
    there. *)
Lemma apply_grab_ok (w : WorldState.t) (e : Event.t)
  (a item loc_id : string) (rest : list string) (npc : NPC.t)
  (l : LocationState.t) :
  Event.actor_id e = a -> Event.target_ids e = item :: rest ->
  Dict.get (npcs w) a = Some npc ->
  In item (LocationState.items l) ->
  find_npc_location w a = Some loc_id -> loc_id <> "" ->
  Dict.get (locations_state w) loc_id = Some l ->
  apply_grab e w
  = (Ok tt,
     place_instance item None (Some a)
       (set_npc
          (set_location w loc_id
             (LocationState.with_items l
                (remove_first item (LocationState.items l))))
          a (NPC.with_inventory npc (NPC.inventory npc ++ [item])))).
Proof.
  intros Ha Ht Hnpc Hin Hfind Hne Hl.
  unfold apply_grab. rewrite Ha, Ht, Hfind.
  assert (Htr : truthy_str loc_id = true).
  { unfold truthy_str. destruct (String.eqb loc_id "") eqn:E; [|reflexivity].
    apply String.eqb_eq in E. contradiction. }
  rewrite Htr, Hl.
  apply mem_str_In in Hin. rewrite Hin.
  cbn [set_location npcs WorldState.with_locations_state]. now rewrite Hnpc.
Qed.

(** Moving the first occurrence of [x] to the end gives the list back exactly
    when nothing but copies of [x] follows that occurrence. *)
Lemma copies_rotate (y : string) (r : list string) :
  r ++ [y] = y :: r -> r = repeat y (List.length r).
Proof.
  induction r as [|z r IH]; [reflexivity|].
  cbn [app List.length repeat]. intros H. injection H as -> H.
  f_equal. now apply IH.
Qed.

Lemma remove_first_app_skip (x : string) (pre t : list string) :
  ~ In x pre -> remove_first x (pre ++ x :: t) = pre ++ t.
Proof.
  induction pre as [|y r IH]; cbn [app remove_first]; intros H.
  - now rewrite String.eqb_refl.
  - destruct (String.eqb_spec x y) as [->|Hne];
      [exfalso; apply H; now left|].
    f_equal. apply IH. intros Hin. apply H. now right.
Qed.

Lemma first_to_end_fixed (x : string) (l : list string) :
  remove_first x l ++ [x] = l
  <-> exists pre n, l = pre ++ repeat x (S n) /\ ~ In x pre.
Proof.
  split.
  - induction l as [|y r IH]; [discriminate|].
    cbn [remove_first]. destruct (String.eqb_spec x y) as [<-|Hne].
    + intros H. exists [], (List.length r). split; [|auto].
      cbn [app repeat]. f_equal. now apply copies_rotate.
    + cbn [app]. intros H. injection H as H.
      destruct (IH H) as (pre & n & -> & Hpre).
      exists (y :: pre), n. split; [reflexivity|].
      intros [E|Hin]; [now apply Hne|now apply Hpre].
  - intros (pre & n & -> & Hpre). cbn [repeat].
    rewrite (remove_first_app_skip _ _ _ Hpre), <- app_assoc.
    now rewrite <- repeat_cons.
Qed.

(** C3, amended. In a world that keeps the item invariants (the item held by
    the agent does not also lie in the agent's location, and its instance, if
    any, names the agent as owner and no location), a drop followed by a grab
    of the same item by the same agent brings back every location and every
    item instance, and leaves the agent with the same items, the first
    occurrence of the dropped one moved to the end of the inventory. The
    whole world is back exactly when nothing but further copies of the item
    follows its first occurrence in the inventory; for an agent that holds
    the item once, that is exactly when the item was the last entry. *)
Theorem drop_then_grab (w : WorldState.t) (drop grab : Event.t)
  (a item loc_id : string) (npc : NPC.t) (l : LocationState.t) :
  Event.event_type drop = "drop" -> Event.event_type grab = "grab" ->
  Event.actor_id drop = a -> Event.actor_id grab = a ->
  hd_error (Event.target_ids drop) = Some item ->
  hd_error (Event.target_ids grab) = Some item ->
  Dict.get (npcs w) a = Some npc ->
  In item (NPC.inventory npc) ->
  find_npc_location w a = Some loc_id -> loc_id <> "" ->
  Dict.get (locations_state w) loc_id = Some l ->
  ~ In item (LocationState.items l) ->
  (forall inst, Dict.get (item_instances w) item = Some inst ->
                ItemInstance.owner_id inst = Some a
                /\ ItemInstance.current_location inst = None) ->
  exists w1 w2,
    apply_event drop w = (Ok tt, w1)
    /\ apply_event grab w1 = (Ok tt, w2)
    /\ w2 = WorldState.with_npcs w
              (Dict.set (npcs w) a
                 (NPC.with_inventory npc
                    (remove_first item (NPC.inventory npc) ++ [item])))
    /\ locations_state w2 = locations_state w
    /\ item_instances w2 = item_instances w
    /\ Permutation (remove_first item (NPC.inventory npc) ++ [item])
                   (NPC.inventory npc)
    /\ (w2 = w
        <-> exists pre n, NPC.inventory npc = pre ++ repeat item (S n)
                          /\ ~ In item pre)
    /\ (count_occ string_dec (NPC.inventory npc) item = 1%nat ->
        (w2 = w <-> exists rest, NPC.inventory npc = rest ++ [item])).
Proof.
  intros Htd Htg Had Hag Hd Hg Hnpc Hin Hfind Hne Hl Hnotin Hinst.
  destruct (Event.target_ids drop) as [|i1 r1] eqn:Etd; [discriminate|].
  destruct (Event.target_ids grab) as [|i2 r2] eqn:Etg; [discriminate|].
  simpl in Hd, Hg. injection Hd as ->. injection Hg as ->.
  set (l1 := LocationState.with_items l (LocationState.items l ++ [item])).
  set (npc1 := NPC.with_inventory npc (remove_first item (NPC.inventory npc))).
  set (w1 := place_instance item (Some loc_id) None
               (set_location (set_npc w a npc1) loc_id l1)).
  assert (Hdrop : apply_event drop w = (Ok tt, w1)).
  { unfold apply_event. rewrite Htd. cbn -[apply_drop].
    now apply apply_drop_ok with (rest := r1). }
  assert (Hlocs1 : locations_state w1 = Dict.set (locations_state w) loc_id l1).
  { unfold w1, place_instance.
    destruct (Dict.get _ item); reflexivity. }
  assert (Hnpcs1 : npcs w1 = Dict.set (npcs w) a npc1).
  { unfold w1, place_instance.
    destruct (Dict.get _ item); reflexivity. }
  assert (Hfind1 : find_npc_location w1 a = Some loc_id).
  { unfold find_npc_location. rewrite Hlocs1.
    rewrite (find_in_locations_set _ _ _ l l1 Hl eq_refl). exact Hfind. }
  assert (Hgrab : apply_event grab w1
                  = (Ok tt,
                     place_instance item None (Some a)
                       (set_npc
                          (set_location w1 loc_id
                             (LocationState.with_items l1
                                (remove_first item (LocationState.items l1))))
                          a (NPC.with_inventory npc1
                               (NPC.inventory npc1 ++ [item]))))).
  { unfold apply_event. rewrite Htg. cbn -[apply_grab].
    apply apply_grab_ok with (rest := r2) (loc_id := loc_id); auto.
    - rewrite Hnpcs1. apply get_set_same.
    - unfold l1. simpl. apply in_or_app. right. now left.
    - rewrite Hlocs1. apply get_set_same. }
  assert (Hback : LocationState.with_items l1
                    (remove_first item (LocationState.items l1)) = l).
  { unfold l1. cbn [LocationState.items LocationState.with_items].
    rewrite (remove_first_app_last _ _ Hnotin).
    destruct l; reflexivity. }
  rewrite Hback in Hgrab.
  set (npc2 := NPC.with_inventory npc
                 (remove_first item (NPC.inventory npc) ++ [item])).
  assert (Hnpc2 : NPC.with_inventory npc1 (NPC.inventory npc1 ++ [item]) = npc2)
    by reflexivity.
  rewrite Hnpc2 in Hgrab.
  assert (Hfinal : place_instance item None (Some a)
                     (set_npc (set_location w1 loc_id l) a npc2)
                   = WorldState.with_npcs w (Dict.set (npcs w) a npc2)).
  { unfold w1, place_instance, set_npc, set_location, set_instance,
      WorldState.with_npcs, WorldState.with_locations_state,
      WorldState.with_item_instances.
    destruct w as [ns st ls bps ins]. cbn in *.
    destruct (Dict.get ins item) as [inst|] eqn:Ei; cbn.
    - rewrite get_set_same. cbn.
      rewrite !set_set. rewrite (set_get_id _ _ _ Hl).
      destruct (Hinst inst eq_refl) as [Ho Hc].
      f_equal. apply set_get_id. rewrite Ei. f_equal.
      destruct inst; cbn in *. now subst.
    - rewrite Ei. cbn. rewrite !set_set. now rewrite (set_get_id _ _ _ Hl). }
  rewrite Hfinal in Hgrab.
  exists w1, (WorldState.with_npcs w (Dict.set (npcs w) a npc2)).
  split; [exact Hdrop|]. split; [exact Hgrab|]. split; [reflexivity|].
  split; [reflexivity|]. split; [reflexivity|].
  split; [now apply remove_first_perm|].
  assert (Hiff : WorldState.with_npcs w (Dict.set (npcs w) a npc2) = w
                 <-> remove_first item (NPC.inventory npc) ++ [item]
                     = NPC.inventory npc).
  { split.
    - intros Hw. apply (f_equal npcs) in Hw.
      cbn [WorldState.with_npcs npcs] in Hw.
      apply (f_equal (fun d => Dict.get d a)) in Hw. cbn beta in Hw.
      rewrite get_set_same, Hnpc in Hw. injection Hw as Hw.
      apply (f_equal NPC.inventory) in Hw. exact Hw.
    - intros Hinv. unfold npc2. rewrite Hinv.
      rewrite with_inventory_same, (set_get_id _ _ _ Hnpc).
      now destruct w. }
  split; [now rewrite Hiff, first_to_end_fixed|].
  intros Hone. rewrite Hiff, first_to_end_fixed. split.
  - intros (pre & n & -> & _). exists (pre ++ repeat item n).
    rewrite <- app_assoc. f_equal. cbn [repeat]. apply repeat_cons.
  - intros (rest & Hrest). exists rest, O. split; [exact Hrest|].
    rewrite Hrest, count_occ_app in Hone. cbn [count_occ] in Hone.
    destruct (string_dec item item); [|contradiction].
    apply (count_occ_not_In string_dec). lia.
Qed.

Lemma drop_then_grab_witness :
  Dict.get (npcs (Town.world "closed")) "npc_guard" = Some Town.npc_guard
  /\ In "sword" (NPC.inventory Town.npc_guard)
  /\ find_npc_location (Town.world "closed") "npc_guard" = Some "town_square"
  /\ exists w1 w2,
      apply_event Town.drop_sword (Town.world "closed") = (Ok tt, w1)
      /\ apply_event Town.grab_sword w1 = (Ok tt, w2)
      /\ locations_state w2 = locations_state (Town.world "closed")
      /\ item_instances w2 = item_instances (Town.world "closed")
      /\ Permutation (remove_first "sword" (NPC.inventory Town.npc_guard)
                        ++ ["sword"])
                     (NPC.inventory Town.npc_guard).
Proof.
  split; [reflexivity|]. split; [now left|]. split; [reflexivity|].
  destruct (drop_then_grab (Town.world "closed") Town.drop_sword
              Town.grab_sword "npc_guard" "sword" "town_square" Town.npc_guard
              (LocationState.mk "town_square" ["npc_guard"; "npc_sample"]
                 [] [] []
                 [("tavern", Edge.mk (Some "closed") (Some "east"));
                  ("market_square", Edge.mk (Some "open") (Some "west"))]))
    as (w1 & w2 & Hd & Hg & _ & Hl & Hi & Hp & _).
  - reflexivity.
  - reflexivity.
  - reflexivity.
  - reflexivity.
  - reflexivity.
  - reflexivity.
  - reflexivity.
  - now left.
  - reflexivity.
  - discriminate.
  - reflexivity.
  - simpl. tauto.
  - intros inst H. injection H as <-. split; reflexivity.
  - exists w1, w2. auto.
Defined.

(** The guard holds a sword and an apple, in this order; dropping the sword
    and grabbing it again leaves the apple first. *)
Lemma drop_then_grab_reorders_inventory :
  let w := Town.world "closed" in
  let w1 := snd (apply_event Town.drop_sword w) in
  let w2 := snd (apply_event Town.grab_sword w1) in
  Dict.get (npcs w) "npc_guard" = Some Town.npc_guard
  /\ NPC.inventory Town.npc_guard = ["sword"; "apple"]
  /\ find_npc_location w "npc_guard" = Some "town_square"
  /\ fst (apply_event Town.drop_sword w) = Ok tt
  /\ fst (apply_event Town.grab_sword w1) = Ok tt
  /\ option_map NPC.inventory (Dict.get (npcs w2) "npc_guard")
     = Some ["apple"; "sword"]
  /\ option_map NPC.inventory (Dict.get (npcs w2) "npc_guard")
     <> option_map NPC.inventory (Dict.get (npcs w) "npc_guard").
Proof.
  cbv zeta. repeat split; try (vm_compute; reflexivity).
  vm_compute. discriminate.
Qed.

(** ** Moving *)

Lemma truthy_str_nonempty (s : string) : s <> "" -> truthy_str s = true.
Proof.
  intros H. unfold truthy_str. destruct (String.eqb s "") eqn:E; [|reflexivity].
  apply String.eqb_eq in E. contradiction.
Qed.

(** A target location that is already a non-empty string survives the alias
    normalisation untouched. *)
Lemma normalize_move_keeps_target (params : dict pyval) (target : string) :
  Dict.get params "target_location" = Some (VStr target) -> target <> "" ->
  normalize_params "move" params = params.
Proof.
  intros Hget Hne.
  assert (Hloc : forall other,
             py_or (pget params "target_location") other = VStr target).
  { intros other. unfold pget, Dict.get_default, py_or. rewrite Hget.
    cbn [truthy]. now rewrite (truthy_str_nonempty _ Hne). }
  unfold normalize_params. cbn [String.eqb Ascii.eqb Bool.eqb orb].
  rewrite !Hloc. cbn [is_str truthy andb].
  rewrite (truthy_str_nonempty _ Hne). now apply set_get_id.
Qed.

(** What [validate_intent] of the move tool demands. *)
Lemma MoveTool_validate_true (intent : dict pyval) (w : WorldState.t)
  (actor : NPC.t) :
  MoveTool_validate_intent intent w actor = Ok true ->
  exists target current loc_state conn,
    pget intent "target_location" = VStr target
    /\ Dict.mem (locations_state w) target = true
    /\ find_npc_location w (NPC.id actor) = Some current
    /\ Dict.get (locations_state w) current = Some loc_state
    /\ Dict.get (LocationState.connections_state loc_state) target = Some conn
    /\ Edge.is_open conn = true.
Proof.
  unfold MoveTool_validate_intent, pget.
  destruct (Dict.get_default intent "target_location" VNone) as [|b|z|t|l];
    cbn [truthy negb py_in_dict py_get]; try discriminate.
  - destruct b; discriminate.
  - destruct (z =? 0); discriminate.
  - destruct (truthy_str t); cbn [negb]; [|discriminate].
    destruct (Dict.mem (locations_state w) t) eqn:Hmem; [|discriminate].
    destruct (find_npc_location w (NPC.id actor)) as [current|] eqn:Hfind;
      [|discriminate].
    destruct (truthy_str current); [|discriminate].
    unfold get_location_state, subscript.
    destruct (Dict.get (locations_state w) current) as [loc_state|] eqn:Hl;
      [|discriminate].
    destruct (Dict.get (LocationState.connections_state loc_state) t)
      as [conn|] eqn:Hc; [|discriminate].
    intros [= Hopen]. exists t, current, loc_state, conn. auto 10.
  - destruct l; discriminate.
Qed.

Lemma MoveTool_validate_closed (intent : dict pyval) (w : WorldState.t)
  (actor : NPC.t) (target current : string) (loc_state : LocationState.t)
  (conn : Edge.t) :
  Dict.get intent "target_location" = Some (VStr target) -> target <> "" ->
  find_npc_location w (NPC.id actor) = Some current ->
  Dict.get (locations_state w) current = Some loc_state ->
  Dict.get (LocationState.connections_state loc_state) target = Some conn ->
  Edge.status conn = Some "closed" ->
  MoveTool_validate_intent intent w actor = Ok false.
Proof.
  intros Hget Hne Hfind Hl Hc Hst.
  unfold MoveTool_validate_intent, Dict.get_default. rewrite Hget.
  cbn [truthy py_in_dict py_get]. rewrite (truthy_str_nonempty _ Hne).
  cbn [negb]. destruct (Dict.mem (locations_state w) target); [|reflexivity].
  rewrite Hfind. destruct (truthy_str current); [|reflexivity].
  unfold get_location_state, subscript. rewrite Hl, Hc.
  unfold Edge.is_open. now rewrite Hst.
Qed.

(** C6, amended. A move command aimed at a dynamic neighbor of the actor's
    location whose edge is closed fails and leaves the simulator as it was
    (queue, occupants and availability included); the failure is "Invalid
    intent" for an actor that is free to act and "Actor is busy" for one that
    is not, the busy test coming first. A move command succeeds only when its
    target is a dynamic neighbor of the actor's location with an open edge. *)
Theorem move_through_closed_edge (s : Simulator.t) (actor_id : string)
  (command : Command.t) (time_cost : Z) :
  Command.tool command = Some "move" ->
  Dict.get (Simulator.tools s) "move" = Some (MoveTool time_cost) ->
  (forall params target actor current loc_state conn,
      Command.params command = Some params ->
      Dict.get params "target_location" = Some (VStr target) ->
      target <> "" ->
      Dict.get (npcs (Simulator.world s)) actor_id = Some actor ->
      find_npc_location (Simulator.world s) (NPC.id actor) = Some current ->
      Dict.get (locations_state (Simulator.world s)) current = Some loc_state ->
      Dict.get (LocationState.connections_state loc_state) target = Some conn ->
      Edge.status conn = Some "closed" ->
      process_command actor_id command s
      = (Raise (ValueError
                  (if Simulator.game_tick s <? NPC.next_available_tick actor
                   then "Actor is busy" else "Invalid intent")), s))
  /\ (forall s',
      process_command actor_id command s = (Ok tt, s') ->
      exists actor target current loc_state conn,
        Dict.get (npcs (Simulator.world s)) actor_id = Some actor
        /\ NPC.next_available_tick actor <= Simulator.game_tick s
        /\ move_target command = VStr target
        /\ find_npc_location (Simulator.world s) (NPC.id actor) = Some current
        /\ Dict.get (locations_state (Simulator.world s)) current
           = Some loc_state
        /\ Dict.get (LocationState.connections_state loc_state) target
           = Some conn
        /\ Edge.is_open conn = true).
Proof.
  intros Htool Hreg. split.
  - intros params target actor current loc_state conn
           Hpar Hget Hne Hact Hfind Hl Hc Hst.
    unfold process_command, get_npc, subscript.
    rewrite Htool, Hreg, Hact, Hpar.
    destruct (Simulator.game_tick s <? NPC.next_available_tick actor);
      [reflexivity|].
    rewrite (normalize_move_keeps_target _ _ Hget Hne).
    cbn [Tool.validate_intent MoveTool].
    now rewrite (MoveTool_validate_closed _ _ _ _ _ _ _ Hget Hne Hfind Hl Hc Hst).
  - intros s'. unfold process_command, get_npc, subscript.
    rewrite Htool, Hreg.
    destruct (Dict.get (npcs (Simulator.world s)) actor_id) as [actor|] eqn:Hact;
      [|discriminate].
    destruct (Z.ltb_spec (Simulator.game_tick s) (NPC.next_available_tick actor))
      as [Hbusy|Hfree]; [discriminate|].
    cbn [Tool.validate_intent MoveTool].
    destruct (MoveTool_validate_intent _ (Simulator.world s) actor)
      as [[|]|x] eqn:Hval; try discriminate.
    intros _.
    destruct (MoveTool_validate_true _ _ _ Hval)
      as (target & current & loc_state & conn & Ht & _ & Hfind & Hl & Hc & Ho).
    exists actor, target, current, loc_state, conn.
    repeat split; auto.
Qed.

Lemma move_through_closed_edge_witness :
  Command.tool Town.move_to_tavern = Some "move"
  /\ Dict.get (Simulator.tools (Town.sim "closed" 0)) "move" = Some (MoveTool 5)
  /\ edge_of (Simulator.world (Town.sim "closed" 0)) "town_square" "tavern"
     = Some (Edge.mk (Some "closed") (Some "east"))
  /\ process_command "npc_guard" Town.move_to_tavern (Town.sim "closed" 0)
     = (Raise (ValueError "Invalid intent"), Town.sim "closed" 0).
Proof.
  split; [reflexivity|]. split; [reflexivity|]. split; [reflexivity|].
  destruct (move_through_closed_edge (Town.sim "closed" 0) "npc_guard"
              Town.move_to_tavern 5 eq_refl eq_refl) as [Hclosed _].
  apply (Hclosed [("target_location", VStr "tavern")] "tavern" Town.npc_guard
           "town_square"
           (LocationState.mk "town_square" ["npc_guard"; "npc_sample"]
              [] [] []
              [("tavern", Edge.mk (Some "closed") (Some "east"));
               ("market_square", Edge.mk (Some "open") (Some "west"))])
           (Edge.mk (Some "closed") (Some "east")));
    try reflexivity.
  discriminate.
Defined.

(** The guard stands next to the closed tavern door but has acted already:
    the command is refused as busy, not as an invalid intent. *)
Lemma busy_actor_closed_edge_is_busy_error :
  find_npc_location (Simulator.world Town.busy_sim) "npc_guard"
  = Some "town_square"
  /\ edge_of (Simulator.world Town.busy_sim) "town_square" "tavern"
     = Some (Edge.mk (Some "closed") (Some "east"))
  /\ process_command "npc_guard" Town.move_to_tavern Town.busy_sim
     = (Raise (ValueError "Actor is busy"), Town.busy_sim)
  /\ fst (process_command "npc_guard" Town.move_to_tavern Town.busy_sim)
     <> Raise (ValueError "Invalid intent").
Proof.
  split; [vm_compute; reflexivity|]. split; [vm_compute; reflexivity|].
  split; [vm_compute; reflexivity|]. vm_compute. discriminate.
Qed.

(** ** Combat *)

(** [ability_modifier] is the floor of half the distance to 10. *)
Lemma ability_modifier_floor (score : Z) :
  2 * ability_modifier score <= score - 10 < 2 * ability_modifier score + 2.
Proof.
  unfold ability_modifier.
  pose proof (Z.div_mod (score - 10) 2 ltac:(lia)).
  pose proof (Z.mod_pos_bound (score - 10) 2 ltac:(lia)). lia.
Qed.

(** Rolling never fails on a die with at least one face. *)
Lemma roll_sum_total (n : nat) (die acc : Z) (g : Rng.t) :
  n = O \/ 1 <= die ->
  exists r g', roll_sum n die acc g = (Ok r, g').
Proof.
  revert acc g. induction n as [|n IH]; intros acc g Hd; simpl.
  - eauto.
  - destruct Hd as [Hd|Hd]; [discriminate|].
    unfold randint. destruct (Z.ltb_spec die 1); [lia|].
    apply IH. now right.
Qed.

Lemma roll_dice_total (spec : string) (g : Rng.t) :
  dice_ok spec -> exists r g', roll_dice spec g = (Ok r, g').
Proof.
  intros (num & die & Hp & Hd). unfold roll_dice. rewrite Hp.
  apply roll_sum_total. destruct Hd as [Hd|Hd]; [left|now right].
  destruct num; try reflexivity; lia.
Qed.

(** The twenty-sided die shows a face between 1 and 20. *)
Lemma roll_d20 (g : Rng.t) :
  exists d20, roll_dice "1d20" g = (Ok d20, Rng.next g) /\ 1 <= d20 <= 20.
Proof.
  exists (1 + Rng.draws g (Rng.pos g) mod 20). split; [reflexivity|].
  pose proof (Z.mod_pos_bound (Rng.draws g (Rng.pos g)) 20 ltac:(lia)). lia.
Qed.

Lemma equipped_blueprint_armour (w : WorldState.t) (v : option string) :
  match equipped_blueprint w v with
  | Ok (Some bp) => armour_of w v = ItemBlueprint.armour_rating bp
  | Ok None => armour_of w v = 0
  | Raise _ => True
  end.
Proof.
  unfold equipped_blueprint, armour_of, get_item_blueprint, subscript.
  destruct v as [i|]; [|reflexivity].
  destruct (truthy_str i); [|reflexivity].
  destruct (Dict.get (item_instances w) i) as [inst|]; [|reflexivity].
  destruct (Dict.get (item_blueprints w) (ItemInstance.blueprint_id inst));
    [reflexivity|exact I].
Qed.

(** The loop of [compute_ac] adds up the armour of the equipped items. *)
Lemma armour_loop_sum (w : WorldState.t) (values : list (option string))
  (ac r : Z) :
  armour_loop w values ac = Ok r ->
  r = ac + fold_right Z.add 0 (map (armour_of w) values).
Proof.
  revert ac. induction values as [|v vs IH]; simpl; intros ac H.
  - injection H as <-. lia.
  - pose proof (equipped_blueprint_armour w v) as Hv.
    destruct (equipped_blueprint w v) as [[bp|]|x]; [| |discriminate].
    + apply IH in H. lia.
    + apply IH in H. lia.
Qed.

Lemma compute_ac_spec (w : WorldState.t) (actor : NPC.t) (ac : Z) :
  compute_ac w actor = Ok ac -> ac = spec_armour_class w actor.
Proof.
  unfold compute_ac, spec_armour_class.
  destruct (armour_loop w (Dict.values (NPC.slots actor)) 10) as [r|x] eqn:E;
    [|discriminate].
  intros [= <-]. apply armour_loop_sum in E. lia.
Qed.

(** C7. Whenever the weapon and the armour of the target resolve and the
    damage dice can be rolled, [resolve_attack] returns the attack of the
    specification: the ability modifier is the floor of (score - 10) / 2; the
    attribute modifier is the larger of the strength and dexterity modifiers
    for a finesse weapon and the strength modifier otherwise; to_hit is the
    d20 plus that modifier plus the proficiency bonus of the weapon's skill;
    the attack hits exactly when to_hit reaches the armour class of the target
    (10 + armour of the equipped items + dexterity modifier); the damage of a
    hit is one damage roll, a second one exactly on a d20 of 20, plus the
    modifier, and the damage of a miss is 0. *)
Theorem resolve_attack_meets_spec (w : WorldState.t) (attacker target : NPC.t)
  (g : Rng.t) (weapon : ItemBlueprint.t) (ac : Z) :
  get_weapon w attacker = Ok weapon ->
  compute_ac w target = Ok ac ->
  dice_ok (ItemBlueprint.damage_dice weapon) ->
  exists d20 roll1 roll2 g1 g2 g3,
    roll_dice "1d20" g = (Ok d20, g1) /\ 1 <= d20 <= 20
    /\ roll_dice (ItemBlueprint.damage_dice weapon) g1 = (Ok roll1, g2)
    /\ roll_dice (ItemBlueprint.damage_dice weapon) g2 = (Ok roll2, g3)
    /\ ac = spec_armour_class w target
    /\ (let res := spec_attack attacker weapon ac d20 roll1 roll2 in
        resolve_attack w attacker target g
        = (Ok res,
           if AttackResult.hit res
           then (if d20 =? 20 then g3 else g2) else g1)
        /\ (AttackResult.hit res = true <-> ac <= AttackResult.to_hit res)
        /\ (AttackResult.hit res = false -> AttackResult.damage res = 0))
    /\ (forall score,
          2 * ability_modifier score <= score - 10
          < 2 * ability_modifier score + 2).
Proof.
  intros Hweapon Hac Hdice.
  destruct (roll_d20 g) as (d20 & Hd20 & Hrange).
  destruct (roll_dice_total _ (Rng.next g) Hdice) as (roll1 & g2 & Hr1).
  destruct (roll_dice_total _ g2 Hdice) as (roll2 & g3 & Hr2).
  exists d20, roll1, roll2, (Rng.next g), g2, g3.
  split; [exact Hd20|]. split; [exact Hrange|]. split; [exact Hr1|].
  split; [exact Hr2|]. split; [now apply compute_ac_spec|].
  split; [|exact ability_modifier_floor].
  cbv zeta. split; [|split].
  - unfold resolve_attack. rewrite Hweapon, Hd20, Hac.
    unfold spec_attack, spec_attr_mod. cbn [AttackResult.hit].
    rewrite Z.geb_leb.
    destruct (ac <=? _) eqn:Hhit; [|reflexivity].
    rewrite Hr1. destruct (d20 =? 20) eqn:Hcrit.
    + now rewrite Hr2.
    + now rewrite Z.add_0_r.
  - unfold spec_attack. cbn [AttackResult.hit AttackResult.to_hit].
    rewrite Z.geb_leb. apply Z.leb_le.
  - unfold spec_attack. cbn [AttackResult.hit AttackResult.damage].
    now intros ->.
Qed.

Lemma resolve_attack_meets_spec_witness :
  get_weapon (Town.world "closed") Town.npc_sample = Ok _DEFAULT_UNARMED
  /\ compute_ac (Town.world "closed") Town.npc_guard = Ok 10
  /\ dice_ok "1d4"
  /\ exists d20 roll1 roll2,
      resolve_attack (Town.world "closed") Town.npc_sample Town.npc_guard
                     Town.seeded
      = (Ok (spec_attack Town.npc_sample _DEFAULT_UNARMED 10 d20 roll1 roll2),
         Rng.mk (Rng.draws Town.seeded) 2)
      /\ d20 = 15 /\ roll1 = 3.
Proof.
  assert (Hd : dice_ok "1d4").
  { exists 1, 4. split; [reflexivity|right; lia]. }
  split; [reflexivity|]. split; [reflexivity|]. split; [exact Hd|].
  destruct (resolve_attack_meets_spec (Town.world "closed") Town.npc_sample
              Town.npc_guard Town.seeded _DEFAULT_UNARMED 10
              eq_refl eq_refl Hd)
    as (d20 & roll1 & roll2 & g1 & g2 & g3 & H20 & _ & H1 & H2 & _ & Hres & _).
  cbv zeta in Hres. destruct Hres as [Hres _].
  injection H20 as <- <-. injection H1 as <- <-. injection H2 as <- <-.
  eexists _, _, _. split; [exact Hres|]. split; reflexivity.
Defined.

(** ** Perception *)

Lemma set_add_In (x y : string) (s : list string) :
  In y (set_add x s) <-> y = x \/ In y s.
Proof.
  unfold set_add. destruct (mem_str x s) eqn:E.
  - apply mem_str_In in E. split; [auto|]. intros [->|H]; assumption.
  - rewrite in_app_iff. simpl. intuition congruence.
Qed.

Lemma set_add_all_In (xs s : list string) (y : string) :
  In y (set_add_all xs s) <-> In y xs \/ In y s.
Proof.
  unfold set_add_all. revert s.
  induction xs as [|x r IH]; intros s; simpl.
  - tauto.
  - rewrite IH, set_add_In. intuition congruence.
Qed.

(** The direct recipients are occupants of the primary location. *)
Lemma direct_recipients_In (w : WorldState.t) (e : Event.t)
  (loc x : string) :
  In x (direct_recipients w e loc) <->
  exists here, Dict.get (locations_state w) loc = Some here
               /\ In x (LocationState.occupants here)
               /\ x <> Event.actor_id e.
Proof.
  unfold direct_recipients.
  destruct (Dict.get (locations_state w) loc) as [here|].
  - rewrite set_add_all_In, filter_In. split.
    + intros [[Hin Hne]|[]]. exists here. repeat split; auto.
      intros ->. now rewrite String.eqb_refl in Hne.
    + intros (h & [= <-] & Hin & Hne). left. split; [assumption|].
      destruct (String.eqb x (Event.actor_id e)) eqn:E; [|reflexivity].
      apply String.eqb_eq in E. contradiction.
  - split; [intros []|intros (h & H & _); discriminate].
Qed.

(** Who the loop over the neighbors can add: occupants of a neighbor that a
    scream reaches in any case and loud talk reaches through an open edge. *)
Lemma noise_loop_sound (w : WorldState.t) (is_scream : bool)
  (here : LocationState.t) (nbrs recips : list string) (x : string) :
  In x (noise_loop w is_scream here nbrs recips) ->
  In x recips
  \/ exists n ns, In n nbrs
                  /\ is_scream || Edge.is_open (edge_to here n) = true
                  /\ Dict.get (locations_state w) n = Some ns
                  /\ In x (LocationState.occupants ns).
Proof.
  revert recips. induction nbrs as [|n r IH]; intros recips; simpl.
  - auto.
  - fold (edge_to here n).
    destruct (is_scream || Edge.is_open (edge_to here n)) eqn:Hgo.
    + destruct (Dict.get (locations_state w) n) as [ns|] eqn:Hn; [|auto].
      intros H. apply IH in H. destruct H as [H|(m & ms & Hm & Ho & Hg & Hx)].
      * apply set_add_all_In in H. destruct H as [H|H]; [|auto].
        right. exists n, ns. auto.
      * right. exists m, ms. auto.
    + intros H. apply IH in H. destruct H as [H|(m & ms & Hm & Ho & Hg & Hx)];
        [auto|]. right. exists m, ms. auto.
Qed.

Lemma noise_loop_keeps (w : WorldState.t) (is_scream : bool)
  (here : LocationState.t) (nbrs recips : list string) (x : string) :
  In x recips -> In x (noise_loop w is_scream here nbrs recips).
Proof.
  revert recips. induction nbrs as [|n r IH]; intros recips H; simpl; auto.
  destruct (is_scream || Edge.is_open _); [|auto].
  destruct (Dict.get (locations_state w) n) as [ns|]; [|assumption].
  apply IH. apply set_add_all_In. auto.
Qed.

(** When every neighbor has a location state the loop runs to its end. *)
Lemma noise_loop_complete (w : WorldState.t) (is_scream : bool)
  (here : LocationState.t) (nbrs recips : list string)
  (n x : string) (ns : LocationState.t) :
  (forall m, In m nbrs -> Dict.mem (locations_state w) m = true) ->
  In n nbrs ->
  is_scream || Edge.is_open (edge_to here n) = true ->
  Dict.get (locations_state w) n = Some ns ->
  In x (LocationState.occupants ns) ->
  In x (noise_loop w is_scream here nbrs recips).
Proof.
  intros Hall Hn Hgo Hg Hx. revert recips Hall Hn.
  induction nbrs as [|m r IH]; intros recips Hall Hn; [contradiction|].
  simpl. fold (edge_to here m).
  assert (Hm : exists ms, Dict.get (locations_state w) m = Some ms).
  { apply mem_get, Hall. now left. }
  destruct Hm as [ms Hm]. rewrite Hm.
  destruct Hn as [->|Hn].
  - rewrite Hgo. apply noise_loop_keeps, set_add_all_In.
    left. congruence.
  - destruct (is_scream || Edge.is_open (edge_to here m));
      apply IH; auto; intros k Hk; apply Hall; now right.
Qed.

Lemma cap_buffer_keeps_last {A} (cap : Z) (l : list A) (x : A) :
  1 <= cap -> exists older, cap_buffer cap (l ++ [x]) = older ++ [x].
Proof.
  intros Hcap. induction l as [|a r IH].
  - exists []. simpl. destruct (Z.ltb_spec cap 1); [lia|reflexivity].
  - cbn [app cap_buffer]. destruct (cap <? _).
    + exact IH.
    + now exists (a :: r).
Qed.

Lemma perceive_other (pe : PerceptionEvent.t) (size : Z) (w : WorldState.t)
  (x y : string) :
  x <> y ->
  Dict.get (npcs (perceive pe size w y)) x = Dict.get (npcs w) x.
Proof.
  intros Hne. unfold perceive.
  destruct (Dict.get (npcs w) y); [|reflexivity].
  cbn. apply get_set_other. congruence.
Qed.

Lemma perceive_self (pe : PerceptionEvent.t) (size : Z) (w : WorldState.t)
  (x : string) (npc : NPC.t) :
  Dict.get (npcs w) x = Some npc -> perceived_last pe x (perceive pe size w x).
Proof.
  intros Hget. unfold perceive. rewrite Hget.
  destruct (cap_buffer_keeps_last (Z.max 1 size)
              (NPC.short_term_memory npc) pe ltac:(lia)) as [older Ho].
  eexists. exists older. cbn. rewrite get_set_same. split; [reflexivity|].
  exact Ho.
Qed.

Lemma perceive_keeps (pe : PerceptionEvent.t) (size : Z) (w : WorldState.t)
  (x y : string) :
  perceived_last pe x w -> perceived_last pe x (perceive pe size w y).
Proof.
  intros (npc & older & Hget & Hstm).
  destruct (string_dec x y) as [<-|Hne].
  - now apply perceive_self with (npc := npc).
  - exists npc, older. now rewrite perceive_other.
Qed.

Lemma perceive_all_keeps (pe : PerceptionEvent.t) (size : Z)
  (recips : list string) (w : WorldState.t) (x : string) :
  perceived_last pe x w ->
  perceived_last pe x (fold_left (perceive pe size) recips w).
Proof.
  revert w. induction recips as [|y r IH]; intros w H; simpl; auto.
  apply IH. now apply perceive_keeps.
Qed.

(** Every recipient that is a known agent ends with the perception as the
    newest entry of its short-term memory. *)
Lemma perceive_all_reaches (pe : PerceptionEvent.t) (size : Z)
  (recips : list string) (w : WorldState.t) (x : string) (npc : NPC.t) :
  In x recips -> Dict.get (npcs w) x = Some npc ->
  perceived_last pe x (fold_left (perceive pe size) recips w).
Proof.
  revert w npc. induction recips as [|y r IH]; intros w npc Hin Hget;
    [contradiction|].
  simpl. destruct (string_dec x y) as [<-|Hne].
  - apply perceive_all_keeps. now apply perceive_self with (npc := npc).
  - destruct Hin as [->|Hin]; [contradiction|].
    apply IH with (npc := npc); auto. now rewrite perceive_other.
Qed.

(** The handlers of a scream and of loud talk only narrate: handling the
    event comes down to recording its perception. *)
Lemma handle_event_loud (e : Event.t) (s : Simulator.t) :
  Event.event_type e = "scream" \/ Event.event_type e = "talk_loud" ->
  handle_event e s
  = (Ok tt,
     Simulator.with_world s
       (record_perception (Simulator.perception_buffer_size s) e
                          (Simulator.world s))).
Proof.
  intros Htype. unfold handle_event, run_handler.
  destruct Htype as [-> | ->]; reflexivity.
Qed.

(** What the noise rules do where every neighbor that the static record of
    the primary location names has a location state: a scream makes every
    occupant of every neighbor a recipient whatever the status of the edge;
    loud talk makes an occupant of a neighbor (an agent that stands there and
    nowhere else) a recipient exactly when the edge to that neighbor is open;
    and handling the event leaves every recipient that is a known agent with
    the perception, located at the primary location, as the newest entry of
    its short-term memory. *)
Theorem loud_events_reach_neighbors (s : Simulator.t) (e : Event.t)
  (loc : string) (here : LocationState.t) :
  let w := Simulator.world s in
  find_npc_location w (Event.actor_id e) = Some loc -> loc <> "" ->
  Dict.get (locations_state w) loc = Some here ->
  (forall n, In n (neighbors w loc) ->
             Dict.mem (locations_state w) n = true) ->
  (Event.event_type e = "scream" ->
   forall n ns x,
     In n (neighbors w loc) ->
     Dict.get (locations_state w) n = Some ns ->
     In x (LocationState.occupants ns) ->
     In x (perception_recipients w e loc))
  /\ (Event.event_type e = "talk_loud" ->
      forall n ns x,
        In n (neighbors w loc) ->
        Dict.get (locations_state w) n = Some ns ->
        In x (LocationState.occupants ns) ->
        n <> loc -> occupies_only w x n ->
        (In x (perception_recipients w e loc)
         <-> Edge.is_open (edge_to here n) = true))
  /\ (Event.event_type e = "scream" \/ Event.event_type e = "talk_loud" ->
      forall x npc,
        In x (perception_recipients w e loc) ->
        Dict.get (npcs w) x = Some npc ->
        fst (handle_event e s) = Ok tt
        /\ perceived_last (make_perception_from_event e (Some loc)) x
                          (Simulator.world (snd (handle_event e s)))).
Proof.
  intros w Hfind Hne Hhere Hall. unfold neighbors in *. split; [|split].
  - intros Htype n ns x Hn Hns Hx.
    unfold perception_recipients, noise_recipients.
    destruct (Dict.get (locations_static w) loc) as [static|];
      [|contradiction].
    rewrite Htype, Hhere. cbn [String.eqb Ascii.eqb Bool.eqb orb].
    now apply noise_loop_complete with (n := n) (ns := ns).
  - intros Htype n ns x Hn Hns Hx Hnloc Honly.
    unfold perception_recipients, noise_recipients.
    destruct (Dict.get (locations_static w) loc) as [static|];
      [|contradiction].
    rewrite Htype, Hhere.
    cbn [String.eqb Ascii.eqb Bool.eqb orb andb]. split.
    + intros H. apply noise_loop_sound in H.
      destruct H as [H|(m & ms & Hm & Hgo & Hg & Hxm)].
      * apply direct_recipients_In in H.
        destruct H as (h & Hh & Hxh & _).
        exfalso. apply Hnloc. symmetry. now apply (Honly loc h).
      * rewrite (Honly m ms Hg Hxm) in Hgo. exact Hgo.
    + intros Hopen.
      now apply noise_loop_complete with (n := n) (ns := ns).
  - intros Htype x npc Hx Hnpc.
    rewrite (handle_event_loud e s Htype). split; [reflexivity|].
    cbn [snd Simulator.world Simulator.with_world]. fold w.
    unfold record_perception, primary_location.
    assert (Hquiet : String.eqb (Event.event_type e) "describe_location"
                     || String.eqb (Event.event_type e) "wait" = false)
      by (destruct Htype as [-> | ->]; reflexivity).
    assert (Hmove : String.eqb (Event.event_type e) "move" = false)
      by (destruct Htype as [-> | ->]; reflexivity).
    assert (Hdied : String.eqb (Event.event_type e) "npc_died" = false)
      by (destruct Htype as [-> | ->]; reflexivity).
    rewrite Hquiet, Hmove, Hdied, Hfind, (truthy_str_nonempty _ Hne).
    now apply perceive_all_reaches with (npc := npc).
Qed.

Lemma loud_events_reach_neighbors_witness :
  find_npc_location (Town.world "closed") "npc_guard" = Some "town_square"
  /\ find_npc_location (Town.world "closed") "npc_bard" = Some "tavern"
  /\ edge_of (Town.world "closed") "town_square" "tavern"
     = Some (Edge.mk (Some "closed") (Some "east"))
  /\ In "npc_bard"
        (perception_recipients (Town.world "closed") Town.scream_help
                               "town_square")
  /\ perceived_last
       (make_perception_from_event Town.scream_help (Some "town_square"))
       "npc_bard"
       (Simulator.world
          (snd (handle_event Town.scream_help (Town.sim "closed" 1)))).
Proof.
  split; [reflexivity|]. split; [reflexivity|]. split; [reflexivity|].
  destruct (loud_events_reach_neighbors (Town.sim "closed" 1) Town.scream_help
              "town_square"
              (LocationState.mk "town_square" ["npc_guard"; "npc_sample"]
                 [] [] []
                 [("tavern", Edge.mk (Some "closed") (Some "east"));
                  ("market_square", Edge.mk (Some "open") (Some "west"))]))
    as (Hscream & _ & Hstm).
  - reflexivity.
  - discriminate.
  - reflexivity.
  - intros n [<-|[<-|[]]]; reflexivity.
  - assert (Hin : In "npc_bard"
                    (perception_recipients (Town.world "closed")
                       Town.scream_help "town_square")).
    { apply (Hscream eq_refl "tavern"
               (LocationState.mk "tavern" ["npc_bard"] [] [] []
                  [("town_square", Edge.mk (Some "closed") (Some "west"))])).
      - simpl. auto.
      - reflexivity.
      - simpl. auto. }
    split; [exact Hin|].
    apply (Hstm (or_introl eq_refl) "npc_bard" Town.npc_bard Hin).
    reflexivity.
Defined.

(** C2. A neighbor without a location state silences the neighbors behind
    it. In the town whose tavern has been deleted, the static record of the
    square still names the tavern, then the market; the bard stands in the
    market, whose edge to the square is open. When the guard screams or
    talks loudly on the square, the lookup of the tavern's state raises
    inside the one [try] around the whole loop over the neighbors, the
    market is never visited, the villager on the square is the only
    recipient, and the bard's short-term memory stays empty. *)
Theorem loud_events_stop_at_missing_neighbor :
  neighbors Razed.world "town_square" = ["tavern"; "market_square"]
  /\ Dict.get (locations_state Razed.world) "tavern" = None
  /\ find_npc_location Razed.world "npc_bard" = Some "market_square"
  /\ option_map Edge.is_open
       (edge_of Razed.world "town_square" "market_square") = Some true
  /\ option_map NPC.short_term_memory
       (Dict.get (npcs Razed.world) "npc_bard") = Some []
  /\ Forall
       (fun event_type =>
          let e := Razed.shout event_type in
          let after := handle_event e Razed.sim in
          primary_location Razed.world e = Some "town_square"
          /\ perception_recipients Razed.world e "town_square"
             = ["npc_sample"]
          /\ fst after = Ok tt
          /\ option_map NPC.short_term_memory
               (Dict.get (npcs (Simulator.world (snd after))) "npc_bard")
             = Some []
          /\ option_map (fun n => List.length (NPC.short_term_memory n))
               (Dict.get (npcs (Simulator.world (snd after))) "npc_sample")
             = Some 1%nat)
       ["scream"; "talk_loud"].
Proof.
  repeat constructor; vm_compute; reflexivity.
Qed.

(** Loud talk on the same square: the market behind the open door hears it,
    the tavern behind the closed one does not. *)
Example talk_loud_stops_at_closed_door :
  let e := Event.mk "talk_loud" 1 "npc_guard" [] [("content", VStr "hello")] in
  let w := set_location (Town.world "closed") "market_square"
             (LocationState.mk "market_square" ["npc_merchant"] [] [] []
                [("town_square", Edge.mk (Some "open") (Some "east"))]) in
  perception_recipients w e "town_square" = ["npc_sample"; "npc_merchant"].
Proof. reflexivity. Qed.

(** An event that is neither a scream nor loud talk reaches the occupants of
    its primary location and nobody else, whatever tags an agent next door
    bears. *)
Lemma quiet_events_stay_local (w : WorldState.t) (e : Event.t)
  (loc x : string) :
  Event.event_type e <> "scream" -> Event.event_type e <> "talk_loud" ->
  In x (perception_recipients w e loc) ->
  exists here, Dict.get (locations_state w) loc = Some here
               /\ In x (LocationState.occupants here).
Proof.
  intros Hs Ht. unfold perception_recipients, noise_recipients.
  destruct (String.eqb_spec (Event.event_type e) "scream"); [contradiction|].
  destruct (String.eqb_spec (Event.event_type e) "talk_loud"); [contradiction|].
  cbn [orb]. intros H. apply direct_recipients_In in H.
  destruct H as (here & Hh & Hx & _). eauto.
Qed.

(** C1. The bard bears [elevated_vantage_point] and stands in the tavern,
    next to the town square, where the guard drops the sword: the villager on
    the square is the only recipient and the bard is left exactly as it was,
    its short-term memory empty, door open or closed. *)
Theorem vantage_point_sees_nothing_next_door :
  Forall
    (fun door =>
       let w := Town.world door in
       let after := handle_event Town.drop_sword (Town.sim door 1) in
       NPC.inherent_tags Town.npc_bard = ["elevated_vantage_point"]
       /\ NPC.short_term_memory Town.npc_bard = []
       /\ Dict.get (npcs w) "npc_bard" = Some Town.npc_bard
       /\ find_npc_location w "npc_bard" = Some "tavern"
       /\ neighbors w "town_square" = ["tavern"; "market_square"]
       /\ primary_location w Town.drop_sword = Some "town_square"
       /\ perception_recipients w Town.drop_sword "town_square"
          = ["npc_sample"]
       /\ fst after = Ok tt
       /\ Dict.get (npcs (Simulator.world (snd after))) "npc_bard"
          = Some Town.npc_bard)
    ["open"; "closed"].
Proof.
  repeat constructor; vm_compute; reflexivity.
Qed.

(** The projection keeps the type, the tick, the actor, the location and the
    payload of the event, and no target. *)
Lemma make_perception_fields (e : Event.t) (loc : option string) :
  let pe := make_perception_from_event e loc in
  PerceptionEvent.event_type pe = Event.event_type e
  /\ PerceptionEvent.tick pe = Event.tick e
  /\ PerceptionEvent.actor_id pe = Some (Event.actor_id e)
  /\ PerceptionEvent.location_id pe = loc
  /\ PerceptionEvent.payload pe = Event.payload e
  /\ PerceptionEvent.target_ids pe = [].
Proof. cbv zeta. repeat split. Qed.

(** C8. The guard drops the sword on the town square next to the villager:
    the perception appended to the villager's short-term memory carries the
    type, tick, actor, location and payload of the event, but its target list
    is empty where the event names the sword. *)
Theorem perception_of_drop_forgets_target :
  let after := handle_event Town.drop_sword (Town.sim "closed" 1) in
  fst after = Ok tt
  /\ option_map NPC.short_term_memory
       (Dict.get (npcs (Simulator.world (snd after))) "npc_sample")
     = Some [PerceptionEvent.mk "drop" 1 (Some "npc_guard") []
               (Some "town_square") (Event.payload Town.drop_sword)]
  /\ Event.target_ids Town.drop_sword = ["sword"]
  /\ PerceptionEvent.target_ids
       (make_perception_from_event Town.drop_sword (Some "town_square"))
     <> Event.target_ids Town.drop_sword.
Proof.
  cbv zeta. split; [vm_compute; reflexivity|].
  split; [vm_compute; reflexivity|]. split; [reflexivity|].
  vm_compute. discriminate.
Qed.

(** ** Death within the tick *)

(** C4. The villager has 1 hp left and has not eaten for 39 ticks. The tick
    that makes it starve applies the damage and queues the [npc_died]
    follow-up at the current tick, but returns with the follow-up still in
    the queue: the villager has 0 hp and is not tagged dead. The drain loop
    of [run_one_npc_turn], run on the state [tick] returned, does handle the
    follow-up and tags the villager. *)
Theorem tick_leaves_zero_hp_agent_alive :
  let after := tick (Town.sim "closed" 39) in
  let villager s := Dict.get (npcs (Simulator.world s)) "npc_sample" in
  option_map NPC.hp (villager (Town.sim "closed" 39)) = Some 1
  /\ fst after = Ok tt
  /\ Simulator.game_tick (snd after) = 40
  /\ option_map NPC.hp (villager (snd after)) = Some 0
  /\ option_map NPC.dynamic_tags (villager (snd after)) = Some []
  /\ option_map NPC.is_dead (villager (snd after)) = Some false
  /\ Simulator.event_queue (snd after)
     = [Event.mk "npc_died" 40 "npc_sample" ["town_square"] []]
  /\ option_map NPC.is_dead (villager (drain 1 (snd after))) = Some true.
Proof.
  cbv zeta. repeat split; vm_compute; reflexivity.
Qed.

(** * Further properties of the engine *)

(** ** Where an agent stands *)

(** X1. [find_npc_location] answers a location that lists the agent, and
    answers [None] only when no location does. *)
Theorem find_npc_location_sound (w : WorldState.t) (npc_id : string) :
  match find_npc_location w npc_id with
  | Some loc_id =>
      exists l, In (loc_id, l) (locations_state w)
                /\ In npc_id (LocationState.occupants l)
  | None => in_no_location w npc_id
  end.
Proof.
  unfold find_npc_location, in_no_location.
  induction (locations_state w) as [|[k l] r IH]; simpl.
  - intros k l [].
  - destruct (mem_str npc_id (LocationState.occupants l)) eqn:E.
    + exists l. split; [now left|now apply mem_str_In].
    + destruct (find_in_locations r npc_id) as [loc|].
      * destruct IH as (l' & Hin & Hocc). exists l'. auto.
      * intros k' l' [H|H].
        -- injection H as <- <-. now apply mem_str_not_In.
        -- now apply (IH k' l').
Qed.

Lemma find_get (locs : dict LocationState.t) (x k : string) :
  NoDup (Dict.keys locs) ->
  find_in_locations locs x = Some k ->
  exists l, Dict.get locs k = Some l /\ In x (LocationState.occupants l).
Proof.
  induction locs as [|[k0 l0] r IH]; simpl; intros Hnd Hfind; [discriminate|].
  inversion Hnd as [|? ? Hnotin Hnd']; subst.
  destruct (mem_str x (LocationState.occupants l0)) eqn:E.
  - injection Hfind as <-. rewrite String.eqb_refl.
    exists l0. split; [reflexivity|now apply mem_str_In].
  - destruct (IH Hnd' Hfind) as (l & Hget & Hin).
    destruct (String.eqb_spec k0 k) as [->|Hne].
    + exfalso. apply Hnotin. apply get_In in Hget.
      change k with (fst (k, l)). now apply in_map.
    + eauto.
Qed.

Lemma find_none_occupancy (locs : dict LocationState.t) (x : string) :
  find_in_locations locs x = None -> occupancy x locs = O.
Proof.
  unfold occupancy. induction locs as [|[k l] r IH]; simpl; [reflexivity|].
  destruct (mem_str x (LocationState.occupants l)) eqn:E; [discriminate|].
  intros H. rewrite (IH H). apply mem_str_not_In in E.
  apply (count_occ_not_In string_dec) in E. now rewrite E.
Qed.

Lemma count_remove_first_same (x : string) (l : list string) :
  In x l ->
  S (count_occ string_dec (remove_first x l) x) = count_occ string_dec l x.
Proof.
  induction l as [|y r IH]; simpl; intros H; [contradiction|].
  destruct (String.eqb_spec x y) as [<-|Hne].
  - destruct (string_dec x x); [reflexivity|contradiction].
  - destruct H as [H|H]; [congruence|].
    simpl. destruct (string_dec y x); [congruence|]. now apply IH.
Qed.

Lemma count_remove_first_other (x y : string) (l : list string) :
  x <> y ->
  count_occ string_dec (remove_first x l) y = count_occ string_dec l y.
Proof.
  intros Hne. induction l as [|z r IH]; simpl; [reflexivity|].
  destruct (String.eqb_spec x z) as [<-|Hxz].
  - destruct (string_dec x y); [contradiction|reflexivity].
  - simpl. destruct (string_dec z y); now rewrite IH.
Qed.

Lemma occupancy_set_present (locs : dict LocationState.t) (k x : string)
  (l l' : LocationState.t) :
  Dict.get locs k = Some l ->
  (occupancy x (Dict.set locs k l')
   + count_occ string_dec (LocationState.occupants l) x
   = occupancy x locs
     + count_occ string_dec (LocationState.occupants l') x)%nat.
Proof.
  unfold occupancy. induction locs as [|[k0 l0] r IH]; simpl; [discriminate|].
  destruct (String.eqb k0 k).
  - intros [= ->]. simpl. lia.
  - intros H. simpl. specialize (IH H). lia.
Qed.

Lemma occupancy_set_absent (locs : dict LocationState.t) (k x : string)
  (l' : LocationState.t) :
  Dict.get locs k = None ->
  occupancy x (Dict.set locs k l')
  = (occupancy x locs
     + count_occ string_dec (LocationState.occupants l') x)%nat.
Proof.
  unfold occupancy. induction locs as [|[k0 l0] r IH]; simpl.
  - intros _. lia.
  - destruct (String.eqb k0 k); [discriminate|].
    intros H. simpl. rewrite (IH H). lia.
Qed.

Lemma keys_set_present {V} (d : dict V) (k : string) (v v' : V) :
  Dict.get d k = Some v -> Dict.keys (Dict.set d k v') = Dict.keys d.
Proof.
  unfold Dict.keys. induction d as [|[k0 v0] r IH]; simpl; [discriminate|].
  destruct (String.eqb k0 k); [reflexivity|].
  intros H. simpl. now rewrite IH.
Qed.

Lemma keys_set_absent {V} (d : dict V) (k : string) (v' : V) :
  Dict.get d k = None -> Dict.keys (Dict.set d k v') = Dict.keys d ++ [k].
Proof.
  unfold Dict.keys. induction d as [|[k0 v0] r IH]; simpl; [reflexivity|].
  destruct (String.eqb k0 k); [discriminate|].
  intros H. simpl. now rewrite IH.
Qed.

Lemma get_none_not_key {V} (d : dict V) (k : string) :
  Dict.get d k = None -> ~ In k (Dict.keys d).
Proof.
  unfold Dict.keys. induction d as [|[k0 v0] r IH]; simpl; [tauto|].
  destruct (String.eqb_spec k0 k); [discriminate|].
  intros H [H'|H']; [contradiction|]. now apply IH.
Qed.

Lemma nodup_keys_set {V} (d : dict V) (k : string) (v : V) :
  NoDup (Dict.keys d) -> NoDup (Dict.keys (Dict.set d k v)).
Proof.
  intros Hnd. destruct (Dict.get d k) as [v0|] eqn:E.
  - now rewrite (keys_set_present _ _ _ v E).
  - rewrite (keys_set_absent _ _ v E).
    apply NoDup_app; [assumption|repeat constructor; simpl; tauto|].
    intros x Hx [<-|[]]. now apply (get_none_not_key _ _ E).
Qed.

Lemma occupancy_leave (locs : dict LocationState.t) (k a y : string)
  (l : LocationState.t) :
  Dict.get locs k = Some l -> In a (LocationState.occupants l) ->
  (occupancy y
     (Dict.set locs k
        (LocationState.with_occupants l
           (remove_first a (LocationState.occupants l))))
   + (if string_dec a y then 1 else 0)
   = occupancy y locs)%nat.
Proof.
  intros Hget Hin.
  pose proof (occupancy_set_present locs k y l
                (LocationState.with_occupants l
                   (remove_first a (LocationState.occupants l))) Hget) as H.
  cbn [LocationState.occupants LocationState.with_occupants] in H.
  destruct (string_dec a y) as [<-|Hne].
  - pose proof (count_remove_first_same a _ Hin). lia.
  - rewrite (count_remove_first_other a y _ Hne) in H. lia.
Qed.

Lemma occupancy_enter (locs : dict LocationState.t) (t a y : string) :
  let tl := Dict.get_default locs t (LocationState.fresh t) in
  occupancy y
    (Dict.set locs t
       (LocationState.with_occupants tl (LocationState.occupants tl ++ [a])))
  = (occupancy y locs + (if string_dec a y then 1 else 0))%nat.
Proof.
  cbv zeta. unfold Dict.get_default.
  destruct (Dict.get locs t) as [l|] eqn:Hget.
  - pose proof (occupancy_set_present locs t y l
                  (LocationState.with_occupants l
                     (LocationState.occupants l ++ [a])) Hget) as H.
    cbn [LocationState.occupants LocationState.with_occupants] in H.
    rewrite count_occ_app in H. simpl in H.
    destruct (string_dec a y); lia.
  - rewrite (occupancy_set_absent locs t y _ Hget).
    cbn [LocationState.occupants LocationState.with_occupants
         LocationState.fresh app].
    simpl. destruct (string_dec a y); lia.
Qed.

(** X2. A move keeps every agent in at most one place. In a world whose
    location ids are distinct and non-empty and where the actor is listed at
    most once among all occupants, applying a move event to a non-empty
    target succeeds, lists the actor exactly once afterwards, in the target
    (created when it had no state), and lists every other agent as often as
    before; agents and item instances are not touched. *)
Theorem move_keeps_single_occupancy (w : WorldState.t) (e : Event.t)
  (target : string) :
  Event.event_type e = "move" ->
  hd_error (Event.target_ids e) = Some target -> target <> "" ->
  NoDup (Dict.keys (locations_state w)) ->
  ~ In "" (Dict.keys (locations_state w)) ->
  (occupancy (Event.actor_id e) (locations_state w) <= 1)%nat ->
  exists w',
    apply_event e w = (Ok tt, w')
    /\ occupancy (Event.actor_id e) (locations_state w') = 1%nat
    /\ (exists l', Dict.get (locations_state w') target = Some l'
                   /\ In (Event.actor_id e) (LocationState.occupants l'))
    /\ (forall y, y <> Event.actor_id e ->
                  occupancy y (locations_state w')
                  = occupancy y (locations_state w))
    /\ NoDup (Dict.keys (locations_state w'))
    /\ npcs w' = npcs w
    /\ item_instances w' = item_instances w.
Proof.
  intros Htype Hhd Hne Hnd Hkeys Hocc.
  unfold apply_event. rewrite Htype. cbn -[apply_move].
  unfold apply_move.
  destruct (Event.target_ids e) as [|t rest]; [discriminate|].
  injection Hhd as ->. rewrite (truthy_str_nonempty _ Hne). cbn [negb].
  set (a := Event.actor_id e) in *.
  set (w1 := match find_npc_location w a with
             | Some current_loc => _
             | None => w
             end).
  assert (H1 : (forall y, (occupancy y (locations_state w1)
                           + (if string_dec a y
                              then occupancy a (locations_state w) else 0)
                           = occupancy y (locations_state w))%nat)
               /\ NoDup (Dict.keys (locations_state w1))
               /\ npcs w1 = npcs w /\ item_instances w1 = item_instances w).
  { subst w1. unfold find_npc_location.
    destruct (find_in_locations (locations_state w) a) as [cur|] eqn:Hf.
    - destruct (find_get _ _ _ Hnd Hf) as (l & Hget & Hin).
      assert (Hcur : cur <> "").
      { intros ->. apply Hkeys. apply get_In in Hget.
        change "" with (fst ("", l)). now apply in_map. }
      rewrite (truthy_str_nonempty _ Hcur), Hget.
      apply mem_str_In in Hin as Hmem. rewrite Hmem.
      cbn [set_location locations_state WorldState.with_locations_state
           npcs item_instances].
      split; [|split; [now apply nodup_keys_set|split; reflexivity]].
      intros y. pose proof (occupancy_leave _ _ a y _ Hget Hin) as Hl.
      pose proof (occupancy_leave _ _ a a _ Hget Hin) as Hla.
      destruct (string_dec a a); [|contradiction].
      destruct (string_dec a y) as [<-|]; lia.
    - split; [|auto]. intros y. apply find_none_occupancy in Hf.
      destruct (string_dec a y); lia. }
  destruct H1 as (Hcount & Hnd1 & Hn1 & Hi1).
  eexists. split; [reflexivity|].
  cbn [set_location locations_state WorldState.with_locations_state
       npcs item_instances].
  split; [|split; [|split; [|split; [now apply nodup_keys_set|auto]]]].
  - rewrite occupancy_enter. specialize (Hcount a).
    destruct (string_dec a a); [lia|contradiction].
  - eexists. split; [apply get_set_same|].
    cbn [LocationState.occupants LocationState.with_occupants].
    apply in_or_app. right. now left.
  - intros y Hy. rewrite occupancy_enter. specialize (Hcount y).
    destruct (string_dec a y); [congruence|lia].
Qed.

Lemma move_keeps_single_occupancy_witness :
  NoDup (Dict.keys (locations_state (Town.world "open")))
  /\ ~ In "" (Dict.keys (locations_state (Town.world "open")))
  /\ (occupancy "npc_guard" (locations_state (Town.world "open")) <= 1)%nat
  /\ exists w',
      apply_event Scenes.guard_moves (Town.world "open") = (Ok tt, w')
      /\ occupancy "npc_guard" (locations_state w') = 1%nat
      /\ exists l', Dict.get (locations_state w') "tavern" = Some l'
                    /\ In "npc_guard" (LocationState.occupants l').
Proof.
  assert (Hnd : NoDup (Dict.keys (locations_state (Town.world "open"))))
    by (simpl; distinct_strings).
  assert (Hk : ~ In "" (Dict.keys (locations_state (Town.world "open"))))
    by (simpl; intuition discriminate).
  assert (Ho : (occupancy "npc_guard" (locations_state (Town.world "open"))
                <= 1)%nat) by (vm_compute; lia).
  split; [exact Hnd|]. split; [exact Hk|]. split; [exact Ho|].
  destruct (move_keeps_single_occupancy (Town.world "open") Scenes.guard_moves
              "tavern" eq_refl eq_refl ltac:(discriminate) Hnd Hk Ho)
    as (w' & Hrun & Hone & Hin & _).
  exists w'. auto.
Defined.

(** ** Equipment *)

(** Two exchanges that cancel out. *)
Lemma perm_exchange (r e' e c i m : list string) :
  Permutation (r ++ m) (i ++ c) -> Permutation (e' ++ c) (e ++ m) ->
  Permutation (r ++ e') (i ++ e).
Proof.
  intros H1 H2. apply (Permutation_count_occ string_dec). intros x.
  apply (Permutation_count_occ string_dec) with (x := x) in H1.
  apply (Permutation_count_occ string_dec) with (x := x) in H2.
  rewrite !count_occ_app in *. lia.
Qed.

Lemma equipped_items_set (slots : dict (option string)) (s : string)
  (old new : option string) :
  Dict.get slots s = Some old ->
  Permutation (equipped_items (Dict.set slots s new) ++ slot_item old)
              (equipped_items slots ++ slot_item new).
Proof.
  intros Hget. apply (Permutation_count_occ string_dec). intros x.
  rewrite !count_occ_app. revert Hget. unfold equipped_items.
  induction slots as [|[k v] r IH]; [discriminate|].
  cbn [Dict.get Dict.set]. destruct (String.eqb k s).
  - intros [= ->]. cbn [flat_map snd]. fold (slot_item new). fold (slot_item old).
    rewrite !count_occ_app. lia.
  - intros H. cbn [flat_map snd]. rewrite !count_occ_app.
    specialize (IH H). lia.
Qed.

(** X3. Equipping and unequipping never create or destroy an item: whatever
    an [equip] or [unequip] event does to a known agent (also when it does
    nothing, or raises on an unhashable slot), the agent afterwards carries,
    inventory and equipment together, the same items as before. The item to
    equip must have a non-empty id. *)
Theorem equipment_conserves_items (w : WorldState.t) (e : Event.t)
  (npc : NPC.t) :
  Event.event_type e = "equip" \/ Event.event_type e = "unequip" ->
  Dict.get (npcs w) (Event.actor_id e) = Some npc ->
  ~ In "" (Event.target_ids e) ->
  exists npc',
    Dict.get (npcs (snd (apply_event e w))) (Event.actor_id e) = Some npc'
    /\ Permutation (held npc') (held npc)
    /\ Dict.keys (NPC.slots npc') = Dict.keys (NPC.slots npc)
    /\ locations_state (snd (apply_event e w)) = locations_state w
    /\ item_instances (snd (apply_event e w)) = item_instances w.
Proof.
  intros Htype Hget Hnonempty.
  assert (Hsame : exists npc', Dict.get (npcs w) (Event.actor_id e) = Some npc'
                    /\ Permutation (held npc') (held npc)
                    /\ Dict.keys (NPC.slots npc') = Dict.keys (NPC.slots npc)
                    /\ locations_state w = locations_state w
                    /\ item_instances w = item_instances w)
    by (exists npc; auto).
  unfold apply_event. destruct Htype as [Htype|Htype]; rewrite Htype.
  - cbn -[apply_equip]. unfold apply_equip.
    destruct (Event.target_ids e) as [|item rest] eqn:Ht; [exact Hsame|].
    rewrite Hget.
    destruct (Dict.get_default (Event.payload e) "slot" VNone) as [|b|z|s|l];
      try exact Hsame.
    destruct (Dict.mem (NPC.slots npc) s) eqn:Hmem; [|exact Hsame].
    destruct (mem_str item (NPC.inventory npc)) eqn:Hitem; [|exact Hsame].
    cbn [andb snd set_npc npcs WorldState.with_npcs locations_state
         item_instances].
    rewrite get_set_same. eexists. split; [reflexivity|].
    apply mem_get in Hmem. destruct Hmem as [cur Hcur].
    rewrite Hcur.
    assert (Hitem_ne : item <> "").
    { intros ->. apply Hnonempty. now left. }
    split; [|split; [|split; reflexivity]].
    + unfold held. cbn [NPC.inventory NPC.slots NPC.with_slots
                         NPC.with_inventory].
      fold (slot_item cur).
      assert (Hin : In item (NPC.inventory npc ++ slot_item cur)).
      { apply in_or_app. left. now apply mem_str_In. }
      replace (match cur with
               | Some c => if truthy_str c then NPC.inventory npc ++ [c]
                           else NPC.inventory npc
               | None => NPC.inventory npc
               end) with (NPC.inventory npc ++ slot_item cur).
      2:{ unfold slot_item. destruct cur as [c|]; [|apply app_nil_r].
          destruct (truthy_str c); [reflexivity|apply app_nil_r]. }
      pose proof (remove_first_perm item _ Hin) as Hp.
      pose proof (equipped_items_set (NPC.slots npc) s cur (Some item) Hcur)
        as He.
      cbn [slot_item] in He. rewrite (truthy_str_nonempty _ Hitem_ne) in He.
      exact (perm_exchange _ _ _ _ _ _ Hp He).
    + cbn [NPC.slots NPC.with_slots NPC.with_inventory].
      now apply keys_set_present with (v := cur).
  - cbn -[apply_unequip]. unfold apply_unequip. rewrite Hget.
    destruct (Dict.get_default (Event.payload e) "slot" VNone) as [|b|z|s|l];
      try exact Hsame.
    destruct (Dict.get (NPC.slots npc) s) as [[item|]|] eqn:Hcur;
      try exact Hsame.
    destruct (truthy_str item) eqn:Htr; [|exact Hsame].
    cbn [snd set_npc npcs WorldState.with_npcs locations_state item_instances].
    rewrite get_set_same. eexists. split; [reflexivity|].
    split; [|split; [|split; reflexivity]].
    + unfold held. cbn [NPC.inventory NPC.slots NPC.with_slots
                         NPC.with_inventory].
      pose proof (equipped_items_set (NPC.slots npc) s (Some item) None Hcur)
        as He.
      cbn [slot_item] in He. rewrite Htr, app_nil_r in He.
      rewrite <- app_assoc. apply Permutation_app_head.
      etransitivity; [apply Permutation_app_comm|]. exact He.
    + cbn [NPC.slots NPC.with_slots NPC.with_inventory].
      now apply keys_set_present with (v := Some item).
Qed.

Lemma equipment_conserves_items_witness :
  Dict.get (npcs (Town.world "open")) "npc_guard" = Some Town.npc_guard
  /\ ~ In "" (Event.target_ids Scenes.guard_equips)
  /\ exists npc',
      Dict.get (npcs (snd (apply_event Scenes.guard_equips (Town.world "open"))))
               "npc_guard" = Some npc'
      /\ Permutation (held npc') (held Town.npc_guard).
Proof.
  assert (Hne : ~ In "" (Event.target_ids Scenes.guard_equips))
    by (simpl; intuition discriminate).
  split; [reflexivity|]. split; [exact Hne|].
  destruct (equipment_conserves_items (Town.world "open") Scenes.guard_equips
              Town.npc_guard (or_introl eq_refl) eq_refl Hne)
    as (npc' & Hget & Hperm & _).
  exists npc'. auto.
Defined.

(** X4. Equipping an item into an empty slot and unequipping that slot
    again leaves the slots as they were and the inventory with the same
    items, the item having moved to the end; nothing else in the world
    changes. The item must have a non-empty id: an empty id put into a slot
    reads as an empty slot and is never unequipped. *)
Theorem equip_then_unequip (w : WorldState.t) (equip unequip : Event.t)
  (a item s : string) (npc : NPC.t) :
  Event.event_type equip = "equip" -> Event.event_type unequip = "unequip" ->
  Event.actor_id equip = a -> Event.actor_id unequip = a ->
  hd_error (Event.target_ids equip) = Some item -> item <> "" ->
  Dict.get (Event.payload equip) "slot" = Some (VStr s) ->
  Dict.get (Event.payload unequip) "slot" = Some (VStr s) ->
  Dict.get (npcs w) a = Some npc ->
  Dict.get (NPC.slots npc) s = Some None ->
  In item (NPC.inventory npc) ->
  exists w1 npc1,
    apply_event equip w = (Ok tt, w1)
    /\ Dict.get (npcs w1) a = Some npc1
    /\ Dict.get (NPC.slots npc1) s = Some (Some item)
    /\ NPC.inventory npc1 = remove_first item (NPC.inventory npc)
    /\ apply_event unequip w1
       = (Ok tt,
          WorldState.with_npcs w
            (Dict.set (npcs w) a
               (NPC.with_inventory npc
                  (remove_first item (NPC.inventory npc) ++ [item])))).
Proof.
  intros Hte Htu Hae Hau Hhd Hne Hse Hsu Hnpc Hslot Hin.
  destruct (Event.target_ids equip) as [|i rest] eqn:Ht; [discriminate|].
  injection Hhd as ->.
  set (npc1 := NPC.with_slots
                 (NPC.with_inventory npc
                    (remove_first item (NPC.inventory npc)))
                 (Dict.set (NPC.slots npc) s (Some item))).
  assert (Hequip : apply_event equip w = (Ok tt, set_npc w a npc1)).
  { unfold apply_event. rewrite Hte. cbn -[apply_equip].
    unfold apply_equip, Dict.get_default, Dict.mem.
    rewrite Ht, Hae, Hnpc, Hse, Hslot.
    apply mem_str_In in Hin. rewrite Hin. reflexivity. }
  exists (set_npc w a npc1), npc1.
  split; [exact Hequip|].
  split; [apply get_set_same|].
  split; [apply get_set_same|]. split; [reflexivity|].
  unfold apply_event. rewrite Htu. cbn -[apply_unequip].
  unfold apply_unequip, Dict.get_default. rewrite Hau, Hsu.
  cbn [set_npc npcs WorldState.with_npcs]. rewrite get_set_same.
  unfold npc1 at 1. cbn [NPC.slots NPC.with_slots NPC.with_inventory].
  rewrite get_set_same, (truthy_str_nonempty _ Hne).
  f_equal. unfold set_npc, WorldState.with_npcs. cbn.
  rewrite set_set. f_equal. f_equal.
  unfold npc1. cbn [NPC.slots NPC.inventory NPC.with_slots NPC.with_inventory].
  rewrite set_set, (set_get_id _ _ _ Hslot).
  now destruct npc.
Qed.

Lemma equip_then_unequip_witness :
  Dict.get (npcs (Town.world "open")) "npc_guard" = Some Town.npc_guard
  /\ Dict.get (NPC.slots Town.npc_guard) "main_hand" = Some None
  /\ In "sword" (NPC.inventory Town.npc_guard)
  /\ exists w1,
      apply_event Scenes.guard_equips (Town.world "open") = (Ok tt, w1)
      /\ apply_event Scenes.guard_unequips w1
         = (Ok tt,
            WorldState.with_npcs (Town.world "open")
              (Dict.set (npcs (Town.world "open")) "npc_guard"
                 (NPC.with_inventory Town.npc_guard ["apple"; "sword"]))).
Proof.
  split; [reflexivity|]. split; [reflexivity|]. split; [now left|].
  destruct (equip_then_unequip (Town.world "open") Scenes.guard_equips
              Scenes.guard_unequips "npc_guard" "sword" "main_hand"
              Town.npc_guard eq_refl eq_refl eq_refl eq_refl eq_refl
              ltac:(discriminate) eq_refl eq_refl eq_refl eq_refl
              ltac:(now left))
    as (w1 & npc1 & He & _ & _ & _ & Hu).
  exists w1. split; [exact He|exact Hu].
Defined.

(** ** Eating *)

Lemma get_pop_same {V} (d : dict V) (k : string) :
  NoDup (Dict.keys d) -> Dict.get (Dict.pop d k) k = None.
Proof.
  unfold Dict.keys. induction d as [|[k0 v0] r IH]; simpl; intros Hnd;
    [reflexivity|].
  inversion Hnd as [|? ? Hnotin Hnd']; subst.
  destruct (String.eqb_spec k0 k) as [->|Hne].
  - destruct (Dict.get r k) as [v|] eqn:E; [|reflexivity].
    exfalso. apply Hnotin. apply get_In in E.
    change k with (fst (k, v)). now apply in_map.
  - simpl. destruct (String.eqb_spec k0 k); [contradiction|]. now apply IH.
Qed.

(** X5. Eating resets the hunger clock. An [eat] event for an item the
    living actor holds removes the item from the inventory, destroys its
    instance, stamps the actor's last meal with the tick of the event and
    makes it sated; from then on, for every tick less than 20 after the meal,
    the hunger update keeps the actor sated and emits no starvation damage.
    The event does not ask whether the item is food. *)
Theorem eating_resets_hunger (w : WorldState.t) (e : Event.t) (item : string)
  (npc : NPC.t) :
  Event.event_type e = "eat" ->
  hd_error (Event.target_ids e) = Some item ->
  Dict.get (npcs w) (Event.actor_id e) = Some npc ->
  In item (NPC.inventory npc) ->
  NPC.is_dead npc = false ->
  NoDup (Dict.keys (item_instances w)) ->
  exists w' npc',
    apply_event e w = (Ok tt, w')
    /\ Dict.get (npcs w') (Event.actor_id e) = Some npc'
    /\ NPC.inventory npc' = remove_first item (NPC.inventory npc)
    /\ NPC.last_meal_tick npc' = Event.tick e
    /\ NPC.hunger_stage npc' = "sated"
    /\ Dict.get (item_instances w') item = None
    /\ locations_state w' = locations_state w
    /\ forall now, now - Event.tick e < 20 ->
         NPC.hunger_stage (fst (hunger_step now npc')) = "sated"
         /\ snd (hunger_step now npc') = [].
Proof.
  intros Htype Hhd Hget Hin Halive Hnd.
  destruct (Event.target_ids e) as [|i rest] eqn:Ht; [discriminate|].
  injection Hhd as ->.
  eexists. eexists. split.
  { unfold apply_event. rewrite Htype. cbn -[apply_eat].
    unfold apply_eat. rewrite Ht, Hget.
    apply mem_str_In in Hin. rewrite Hin. reflexivity. }
  cbn [set_npc npcs WorldState.with_npcs WorldState.with_item_instances
       item_instances locations_state].
  split; [apply get_set_same|].
  repeat (split; [reflexivity|]).
  split; [now apply get_pop_same|]. split; [reflexivity|].
  intros now Hnow. unfold hunger_step.
  replace (NPC.is_dead _) with (NPC.is_dead npc) by reflexivity.
  rewrite Halive.
  cbn [NPC.last_meal_tick NPC.with_hunger_stage NPC.with_last_meal_tick
       NPC.with_inventory].
  unfold STARVING_THRESHOLD, HUNGRY_THRESHOLD.
  destruct (Z.leb_spec 40 (now - Event.tick e)); [lia|].
  destruct (Z.leb_spec 20 (now - Event.tick e)); [lia|].
  split; reflexivity.
Qed.

Lemma eating_resets_hunger_witness :
  Dict.get (npcs (Town.world "open")) "npc_guard" = Some Town.npc_guard
  /\ In "apple" (NPC.inventory Town.npc_guard)
  /\ NoDup (Dict.keys (item_instances (Town.world "open")))
  /\ exists w' npc',
      apply_event Scenes.guard_eats (Town.world "open") = (Ok tt, w')
      /\ Dict.get (npcs w') "npc_guard" = Some npc'
      /\ NPC.inventory npc' = ["sword"]
      /\ NPC.last_meal_tick npc' = 7
      /\ Dict.get (item_instances w') "apple" = None
      /\ snd (hunger_step 26 npc') = [].
Proof.
  assert (Hin : In "apple" (NPC.inventory Town.npc_guard))
    by (simpl; auto).
  assert (Hnd : NoDup (Dict.keys (item_instances (Town.world "open"))))
    by (simpl; distinct_strings).
  split; [reflexivity|]. split; [exact Hin|]. split; [exact Hnd|].
  destruct (eating_resets_hunger (Town.world "open") Scenes.guard_eats "apple"
              Town.npc_guard eq_refl eq_refl eq_refl Hin eq_refl Hnd)
    as (w' & npc' & Hrun & Hget & Hinv & Hmeal & _ & Hinst & _ & Hstep).
  exists w', npc'. repeat (split; [assumption|]).
  apply (Hstep 26). cbn. lia.
Defined.

(** ** Giving *)

(** X6. A [give] event with a structured payload moves the item from the
    giver to a different, known receiver: the giver loses the first
    occurrence, the receiver gets the item at the end of its inventory, the
    instance (if any) names the receiver as owner, and no other agent and no
    location changes. *)
Theorem give_moves_item (w : WorldState.t) (e : Event.t) (item r : string)
  (giver receiver : NPC.t) :
  Event.event_type e = "give" ->
  Dict.get (Event.payload e) "item_id" = Some (VStr item) -> item <> "" ->
  Dict.get (Event.payload e) "recipient_id" = Some (VStr r) -> r <> "" ->
  Dict.get (npcs w) (Event.actor_id e) = Some giver ->
  Dict.get (npcs w) r = Some receiver ->
  Event.actor_id e <> r ->
  In item (NPC.inventory giver) ->
  exists w',
    apply_event e w = (Ok tt, w')
    /\ Dict.get (npcs w') (Event.actor_id e)
       = Some (NPC.with_inventory giver
                 (remove_first item (NPC.inventory giver)))
    /\ Dict.get (npcs w') r
       = Some (NPC.with_inventory receiver (NPC.inventory receiver ++ [item]))
    /\ (forall k, k <> Event.actor_id e -> k <> r ->
                  Dict.get (npcs w') k = Dict.get (npcs w) k)
    /\ locations_state w' = locations_state w
    /\ Dict.get (item_instances w') item
       = option_map (fun inst => ItemInstance.with_owner_id inst (Some r))
                    (Dict.get (item_instances w) item).
Proof.
  intros Htype Hitem Hine Hrec Hrne Hg Hr Hdiff Hin.
  eexists. split.
  { unfold apply_event. rewrite Htype. cbn -[apply_give].
    unfold apply_give, Dict.get_default. rewrite Hitem, Hrec.
    unfold py_or. cbn [truthy].
    rewrite (truthy_str_nonempty _ Hine), (truthy_str_nonempty _ Hrne).
    cbn [truthy].
    rewrite (truthy_str_nonempty _ Hine), (truthy_str_nonempty _ Hrne).
    cbn [negb orb py_get]. rewrite Hr, Hg.
    apply mem_str_In in Hin. rewrite Hin.
    cbn [set_npc npcs WorldState.with_npcs].
    rewrite (get_set_other _ _ _ _ Hdiff), Hr. reflexivity. }
  set (w2 := set_npc (set_npc w _ _) r _).
  change (item_instances w2) with (item_instances w).
  destruct (Dict.get (item_instances w) item) as [inst|] eqn:E;
    unfold w2, set_instance, set_npc, WorldState.with_npcs,
      WorldState.with_item_instances;
    cbn [npcs locations_state item_instances option_map];
    (split; [rewrite get_set_other by congruence; apply get_set_same|]);
    (split; [apply get_set_same|]);
    (split; [intros k Hk1 Hk2; rewrite !get_set_other by congruence;
             reflexivity|]);
    (split; [reflexivity|]).
  - apply get_set_same.
  - exact E.
Qed.

Lemma give_moves_item_witness :
  Dict.get (npcs (Town.world "open")) "npc_guard" = Some Town.npc_guard
  /\ Dict.get (npcs (Town.world "open")) "npc_sample" = Some Town.npc_sample
  /\ In "sword" (NPC.inventory Town.npc_guard)
  /\ exists w',
      apply_event Scenes.guard_gives (Town.world "open") = (Ok tt, w')
      /\ Dict.get (npcs w') "npc_guard"
         = Some (NPC.with_inventory Town.npc_guard ["apple"])
      /\ Dict.get (npcs w') "npc_sample"
         = Some (NPC.with_inventory Town.npc_sample ["sword"]).
Proof.
  assert (Hin : In "sword" (NPC.inventory Town.npc_guard))
    by (simpl; auto).
  split; [reflexivity|]. split; [reflexivity|]. split; [exact Hin|].
  destruct (give_moves_item (Town.world "open") Scenes.guard_gives "sword"
              "npc_sample" Town.npc_guard Town.npc_sample eq_refl eq_refl
              ltac:(discriminate) eq_refl ltac:(discriminate) eq_refl eq_refl
              ltac:(discriminate) Hin)
    as (w' & Hrun & Hg & Hr & _).
  exists w'. split; [exact Hrun|]. split; [exact Hg|exact Hr].
Defined.

(** ** Doors *)

Lemma update_edge_frame (a b : string) (f : Edge.t -> Edge.t)
  (w : WorldState.t) :
  npcs (update_edge a b f w) = npcs w
  /\ item_instances (update_edge a b f w) = item_instances w
  /\ locations_static (update_edge a b f w) = locations_static w
  /\ item_blueprints (update_edge a b f w) = item_blueprints w.
Proof.
  unfold update_edge. destruct (Dict.get (locations_state w) a); auto.
Qed.

Lemma update_edge_get (a b c : string) (f : Edge.t -> Edge.t)
  (w : WorldState.t) (l : LocationState.t) :
  Dict.get (locations_state w) a = Some l ->
  Dict.get (locations_state (update_edge a b f w)) c
  = if String.eqb a c
    then Some (LocationState.with_connections_state l
                 (Dict.set (LocationState.connections_state l) b
                    (f (edge_to l b))))
    else Dict.get (locations_state w) c.
Proof.
  intros Hget. unfold update_edge. rewrite Hget.
  cbn [set_location locations_state WorldState.with_locations_state].
  destruct (String.eqb_spec a c) as [<-|Hne].
  - apply get_set_same.
  - now apply get_set_other.
Qed.

Lemma update_edge_keeps_locations (a b c : string) (f : Edge.t -> Edge.t)
  (w : WorldState.t) :
  Dict.mem (locations_state (update_edge a b f w)) c
  = Dict.mem (locations_state w) c.
Proof.
  destruct (Dict.get (locations_state w) a) as [l|] eqn:Hget.
  - unfold Dict.mem. rewrite (update_edge_get a b c f w l Hget).
    destruct (String.eqb_spec a c) as [<-|Hne]; [now rewrite Hget|reflexivity].
  - unfold update_edge. now rewrite Hget.
Qed.

(** The entries of the edges once one of them is rewritten. *)
Lemma edge_of_update (a b c d : string) (f : Edge.t -> Edge.t)
  (w : WorldState.t) (l : LocationState.t) :
  Dict.get (locations_state w) a = Some l ->
  edge_of (update_edge a b f w) c d
  = if String.eqb a c && String.eqb b d then Some (f (edge_to l b))
    else edge_of w c d.
Proof.
  intros Hget. unfold edge_of. rewrite (update_edge_get a b c f w l Hget).
  destruct (String.eqb_spec a c) as [<-|Hne]; cbn [andb]; [|reflexivity].
  rewrite Hget. cbn [LocationState.connections_state
                      LocationState.with_connections_state].
  destruct (String.eqb_spec b d) as [<-|Hne].
  - apply get_set_same.
  - now apply get_set_other.
Qed.

Lemma find_update_edge (a b x : string) (f : Edge.t -> Edge.t)
  (w : WorldState.t) :
  find_npc_location (update_edge a b f w) x = find_npc_location w x.
Proof.
  unfold update_edge, find_npc_location.
  destruct (Dict.get (locations_state w) a) as [l|] eqn:Hget; [|reflexivity].
  cbn [set_location locations_state WorldState.with_locations_state].
  now apply find_in_locations_set with (l := l).
Qed.

Lemma edge_of_some_edge_to (w : WorldState.t) (a b : string)
  (l : LocationState.t) (e : Edge.t) :
  Dict.get (locations_state w) a = Some l ->
  edge_of w a b = Some e -> edge_to l b = e.
Proof.
  intros Hget. unfold edge_of, edge_to, Dict.get_default. rewrite Hget.
  now intros ->.
Qed.

(** What [validate_intent] of the move tool answers from the entry of the
    edge. *)
Lemma MoveTool_validate_edge (intent : dict pyval) (w : WorldState.t)
  (actor : NPC.t) (target current : string) (conn : Edge.t) :
  Dict.get intent "target_location" = Some (VStr target) -> target <> "" ->
  Dict.mem (locations_state w) target = true ->
  find_npc_location w (NPC.id actor) = Some current -> current <> "" ->
  edge_of w current target = Some conn ->
  MoveTool_validate_intent intent w actor = Ok (Edge.is_open conn).
Proof.
  intros Hget Hne Hmem Hfind Hcur Hedge.
  unfold MoveTool_validate_intent, Dict.get_default. rewrite Hget.
  cbn [truthy py_in_dict py_get]. rewrite (truthy_str_nonempty _ Hne).
  cbn [negb]. rewrite Hmem, Hfind, (truthy_str_nonempty _ Hcur).
  unfold edge_of in Hedge. unfold get_location_state, subscript.
  destruct (Dict.get (locations_state w) current); [|discriminate].
  now rewrite Hedge.
Qed.

(** X7. Closing a door closes it from both sides and blocks the way. When
    the actor stands in a location and the target location exists, a
    [close_connection] event succeeds, gives the edge the status closed in
    both directions (creating the entries it misses), keeps the direction
    recorded on the actor's side, leaves every other edge, every occupant
    and every agent as they were, and makes the move tool refuse the target
    for whoever stands where the actor stands. *)
Theorem close_connection_blocks_the_way (w : WorldState.t) (e : Event.t)
  (t a : string) (la lt : LocationState.t) :
  Event.event_type e = "close_connection" ->
  hd_error (Event.target_ids e) = Some t -> t <> "" ->
  find_npc_location w (Event.actor_id e) = Some a -> a <> "" ->
  Dict.get (locations_state w) a = Some la ->
  Dict.get (locations_state w) t = Some lt ->
  exists w',
    apply_event e w = (Ok tt, w')
    /\ option_map Edge.status (edge_of w' a t) = Some (Some "closed")
    /\ option_map Edge.status (edge_of w' t a) = Some (Some "closed")
    /\ option_map Edge.direction (edge_of w' a t)
       = Some (Edge.direction (edge_to la t))
    /\ (forall c d, (c <> a \/ d <> t) -> (c <> t \/ d <> a) ->
                    edge_of w' c d = edge_of w c d)
    /\ (forall x, find_npc_location w' x = find_npc_location w x)
    /\ npcs w' = npcs w
    /\ (forall intent actor,
          Dict.get intent "target_location" = Some (VStr t) ->
          find_npc_location w (NPC.id actor) = Some a ->
          MoveTool_validate_intent intent w' actor = Ok false).
Proof.
  intros Htype Hhd Htne Hfind Hane Hla Hlt.
  destruct (Event.target_ids e) as [|t0 rest] eqn:Ht; [discriminate|].
  injection Hhd as ->.
  set (closed := fun x => Edge.with_status x "closed").
  set (w1 := update_edge a t closed w).
  assert (Hlt1 : exists lt1, Dict.get (locations_state w1) t = Some lt1).
  { apply mem_get. unfold w1. rewrite update_edge_keeps_locations.
    apply mem_get. eauto. }
  destruct Hlt1 as [lt1 Hlt1].
  set (w2 := update_edge t a closed w1).
  assert (Hrun : apply_event e w = (Ok tt, w2)).
  { unfold apply_event. rewrite Htype. cbn -[apply_close_connection].
    unfold apply_close_connection.
    rewrite Ht, Hfind, (truthy_str_nonempty _ Hane).
    fold closed. fold w1. now rewrite Hlt1. }
  assert (Hedges : forall c d,
             edge_of w2 c d
             = if String.eqb t c && String.eqb a d
               then Some (closed (edge_to lt1 a))
               else if String.eqb a c && String.eqb t d
                    then Some (closed (edge_to la t))
                    else edge_of w c d).
  { intros c d. unfold w2. rewrite (edge_of_update t a c d closed w1 lt1 Hlt1).
    unfold w1. now rewrite (edge_of_update a t c d closed w la Hla). }
  assert (Hat : exists conn, edge_of w2 a t = Some conn
                             /\ Edge.status conn = Some "closed"
                             /\ Edge.direction conn
                                = Edge.direction (edge_to la t)).
  { rewrite Hedges.
    destruct (String.eqb_spec t a) as [->|Hne]; cbn [andb].
    - rewrite String.eqb_refl. cbn [andb]. eexists. split; [reflexivity|].
      split; [reflexivity|]. cbn [closed Edge.direction Edge.with_status].
      assert (E : edge_of w1 a a = Some (closed (edge_to la a))).
      { unfold w1. rewrite (edge_of_update a a a a closed w la Hla).
        now rewrite String.eqb_refl. }
      now rewrite (edge_of_some_edge_to w1 a a lt1 _ Hlt1 E).
    - rewrite !String.eqb_refl. cbn [andb]. eexists. split; [reflexivity|].
      split; reflexivity. }
  destruct Hat as (conn & Hconn & Hstatus & Hdir).
  exists w2. split; [exact Hrun|].
  split; [now rewrite Hconn; cbn; rewrite Hstatus|].
  split.
  { rewrite Hedges, !String.eqb_refl. reflexivity. }
  split; [now rewrite Hconn; cbn; rewrite Hdir|].
  split.
  { intros c d H1 H2. rewrite Hedges.
    assert (E1 : String.eqb t c && String.eqb a d = false).
    { destruct (String.eqb_spec t c), (String.eqb_spec a d); try reflexivity.
      destruct H2; congruence. }
    assert (E2 : String.eqb a c && String.eqb t d = false).
    { destruct (String.eqb_spec a c), (String.eqb_spec t d); try reflexivity.
      destruct H1; congruence. }
    now rewrite E1, E2. }
  split.
  { intros x. unfold w2, w1. now rewrite !find_update_edge. }
  split.
  { unfold w2, w1.
    destruct (update_edge_frame t a closed (update_edge a t closed w))
      as [-> _].
    now destruct (update_edge_frame a t closed w) as [-> _]. }
  intros intent actor Hint Hstand.
  rewrite (MoveTool_validate_edge intent w2 actor t a conn Hint Htne).
  - unfold Edge.is_open. now rewrite Hstatus.
  - unfold w2, w1. rewrite !update_edge_keeps_locations.
    apply mem_get. eauto.
  - unfold w2, w1. now rewrite !find_update_edge.
  - exact Hane.
  - exact Hconn.
Qed.

Lemma close_connection_blocks_the_way_witness :
  find_npc_location (Town.world "open") "npc_guard" = Some "town_square"
  /\ Dict.mem (locations_state (Town.world "open")) "market_square" = true
  /\ MoveTool_validate_intent [("target_location", VStr "market_square")]
       (Town.world "open") Town.npc_guard = Ok true
  /\ exists w',
      apply_event Scenes.guard_closes_market (Town.world "open") = (Ok tt, w')
      /\ option_map Edge.status (edge_of w' "market_square" "town_square")
         = Some (Some "closed")
      /\ MoveTool_validate_intent [("target_location", VStr "market_square")]
           w' Town.npc_sample = Ok false.
Proof.
  split; [reflexivity|]. split; [reflexivity|]. split; [reflexivity|].
  destruct (close_connection_blocks_the_way (Town.world "open")
              Scenes.guard_closes_market "market_square" "town_square"
              (LocationState.mk "town_square" ["npc_guard"; "npc_sample"]
                 [] [] []
                 [("tavern", Edge.mk (Some "open") (Some "east"));
                  ("market_square", Edge.mk (Some "open") (Some "west"))])
              (LocationState.mk "market_square" [] [] [] []
                 [("town_square", Edge.mk (Some "open") (Some "east"))])
              eq_refl eq_refl ltac:(discriminate) eq_refl ltac:(discriminate)
              eq_refl eq_refl)
    as (w' & Hrun & _ & Hback & _ & _ & _ & _ & Hmove).
  exists w'. split; [exact Hrun|]. split; [exact Hback|].
  apply Hmove; reflexivity.
Defined.

(** X8. A [close_connection] event towards a location that has no state
    fails half-way: it raises the lookup error of the target, but the edge on
    the actor's side has already been created and reads closed. *)
Theorem close_connection_fails_half_way (w : WorldState.t) (e : Event.t)
  (t a : string) (la : LocationState.t) :
  Event.event_type e = "close_connection" ->
  hd_error (Event.target_ids e) = Some t ->
  find_npc_location w (Event.actor_id e) = Some a -> a <> "" ->
  Dict.get (locations_state w) a = Some la ->
  Dict.get (locations_state w) t = None ->
  fst (apply_event e w) = Raise (KeyError t)
  /\ edge_of (snd (apply_event e w)) a t
     = Some (Edge.with_status (edge_to la t) "closed")
  /\ (edge_of w a t = None -> snd (apply_event e w) <> w).
Proof.
  intros Htype Hhd Hfind Hane Hla Hlt.
  destruct (Event.target_ids e) as [|t0 rest] eqn:Ht; [discriminate|].
  injection Hhd as ->.
  set (closed := fun x => Edge.with_status x "closed").
  assert (Hrun : apply_event e w
                 = (Raise (KeyError t), update_edge a t closed w)).
  { unfold apply_event. rewrite Htype. cbn -[apply_close_connection].
    unfold apply_close_connection.
    rewrite Ht, Hfind, (truthy_str_nonempty _ Hane). fold closed.
    assert (Hm : Dict.get (locations_state (update_edge a t closed w)) t
                 = None).
    { pose proof (update_edge_keeps_locations a t t closed w) as Hk.
      unfold Dict.mem in Hk. rewrite Hlt in Hk.
      destruct (Dict.get (locations_state (update_edge a t closed w)) t);
        [discriminate|reflexivity]. }
    now rewrite Hm. }
  rewrite Hrun. cbn [fst snd].
  assert (Hedge : edge_of (update_edge a t closed w) a t
                  = Some (closed (edge_to la t))).
  { rewrite (edge_of_update a t a t closed w la Hla).
    now rewrite !String.eqb_refl. }
  split; [reflexivity|]. split; [exact Hedge|].
  intros Hnone Heq. rewrite Heq, Hnone in Hedge. discriminate.
Qed.

Lemma close_connection_fails_half_way_witness :
  find_npc_location (Town.world "open") "npc_guard" = Some "town_square"
  /\ Dict.get (locations_state (Town.world "open")) "cellar" = None
  /\ edge_of (Town.world "open") "town_square" "cellar" = None
  /\ fst (apply_event Scenes.guard_closes_nowhere (Town.world "open"))
     = Raise (KeyError "cellar")
  /\ edge_of (snd (apply_event Scenes.guard_closes_nowhere (Town.world "open")))
             "town_square" "cellar"
     = Some (Edge.mk (Some "closed") None).
Proof.
  split; [reflexivity|]. split; [reflexivity|]. split; [reflexivity|].
  destruct (close_connection_fails_half_way (Town.world "open")
              Scenes.guard_closes_nowhere "cellar" "town_square"
              (LocationState.mk "town_square" ["npc_guard"; "npc_sample"]
                 [] [] []
                 [("tavern", Edge.mk (Some "open") (Some "east"));
                  ("market_square", Edge.mk (Some "open") (Some "west"))])
              eq_refl eq_refl eq_refl ltac:(discriminate) eq_refl eq_refl)
    as (Hraise & Hedge & _).
  split; [exact Hraise|exact Hedge].
Defined.

Lemma directions_kept_refl (w : WorldState.t) : directions_kept w w.
Proof. intros c d e0 x H1 H2. eauto. Qed.

Lemma directions_kept_trans (w1 w2 w3 : WorldState.t) :
  directions_kept w1 w2 -> directions_kept w2 w3 -> directions_kept w1 w3.
Proof.
  intros H12 H23 c d e0 x H1 H2.
  destruct (H12 c d e0 x H1 H2) as (e1 & He1 & Hd1).
  exact (H23 c d e1 x He1 Hd1).
Qed.

Lemma statuses_kept_trans (w1 w2 w3 : WorldState.t) :
  statuses_kept w1 w2 -> statuses_kept w2 w3 -> statuses_kept w1 w3.
Proof. intros H12 H23 c d. now rewrite H23, H12. Qed.

(** Rewriting an edge without touching directions keeps them all. *)
Lemma update_edge_directions_kept (a b : string) (f : Edge.t -> Edge.t)
  (w : WorldState.t) :
  (forall x, Edge.direction (f x) = Edge.direction x) ->
  directions_kept w (update_edge a b f w).
Proof.
  intros Hf c d e0 x He0 Hx.
  destruct (Dict.get (locations_state w) a) as [l|] eqn:Hget.
  - rewrite (edge_of_update a b c d f w l Hget).
    destruct (String.eqb_spec a c) as [<-|]; cbn [andb]; [|eauto].
    destruct (String.eqb_spec b d) as [<-|]; [|eauto].
    rewrite (edge_of_some_edge_to w a b l e0 Hget He0).
    eexists. split; [reflexivity|]. now rewrite Hf.
  - unfold update_edge. rewrite Hget. eauto.
Qed.

(** Recording a direction on an edge that has none keeps the others and
    keeps every status. *)
Lemma set_direction_kept (p q d0 : string) (w : WorldState.t) (e0 : Edge.t) :
  edge_of w p q = Some e0 -> Edge.direction e0 = None ->
  directions_kept w (update_edge p q (fun x => Edge.with_direction x d0) w)
  /\ statuses_kept w (update_edge p q (fun x => Edge.with_direction x d0) w).
Proof.
  intros He0 Hnone.
  assert (Hl : exists l, Dict.get (locations_state w) p = Some l).
  { unfold edge_of in He0. destruct (Dict.get (locations_state w) p); eauto.
    discriminate. }
  destruct Hl as [l Hl]. split.
  - intros c d e x He Hx.
    rewrite (edge_of_update p q c d _ w l Hl).
    destruct (String.eqb_spec p c) as [<-|]; cbn [andb]; [|eauto].
    destruct (String.eqb_spec q d) as [<-|]; [|eauto].
    congruence.
  - intros c d. rewrite (edge_of_update p q c d _ w l Hl).
    destruct (String.eqb_spec p c) as [<-|]; cbn [andb]; [|reflexivity].
    destruct (String.eqb_spec q d) as [<-|]; [|reflexivity].
    rewrite He0, (edge_of_some_edge_to w p q l e0 Hl He0). reflexivity.
Qed.

Lemma infer_forward_kept (a t : string) (w : WorldState.t) :
  directions_kept w (infer_forward_direction a t w)
  /\ statuses_kept w (infer_forward_direction a t w)
  /\ (forall x, find_npc_location (infer_forward_direction a t w) x
                = find_npc_location w x)
  /\ (forall c, Dict.mem (locations_state (infer_forward_direction a t w)) c
                = Dict.mem (locations_state w) c)
  /\ npcs (infer_forward_direction a t w) = npcs w.
Proof.
  assert (Hsame : directions_kept w w /\ statuses_kept w w
                  /\ (forall x, find_npc_location w x = find_npc_location w x)
                  /\ (forall c, Dict.mem (locations_state w) c
                                = Dict.mem (locations_state w) c)
                  /\ npcs w = npcs w).
  { split; [apply directions_kept_refl|]. split; [intros c d; reflexivity|].
    auto. }
  unfold infer_forward_direction.
  destruct (edge_of w a t) as [fr|] eqn:Hfr; [|exact Hsame].
  destruct (Edge.direction fr) eqn:Hdir; [exact Hsame|].
  destruct (Dict.get (locations_static w) a) as [static|]; [|exact Hsame].
  destruct (first_direction_to _ t) as [d0|]; [|exact Hsame].
  destruct (set_direction_kept a t d0 w fr Hfr Hdir) as [Hd Hs].
  split; [exact Hd|]. split; [exact Hs|].
  split; [intros x; apply find_update_edge|].
  split; [intros c; apply update_edge_keeps_locations|].
  apply update_edge_frame.
Qed.

Lemma infer_inverse_kept (a t : string) (w : WorldState.t) :
  directions_kept w (infer_inverse_direction a t w)
  /\ statuses_kept w (infer_inverse_direction a t w)
  /\ (forall x, find_npc_location (infer_inverse_direction a t w) x
                = find_npc_location w x)
  /\ (forall c, Dict.mem (locations_state (infer_inverse_direction a t w)) c
                = Dict.mem (locations_state w) c)
  /\ npcs (infer_inverse_direction a t w) = npcs w.
Proof.
  assert (Hsame : directions_kept w w /\ statuses_kept w w
                  /\ (forall x, find_npc_location w x = find_npc_location w x)
                  /\ (forall c, Dict.mem (locations_state w) c
                                = Dict.mem (locations_state w) c)
                  /\ npcs w = npcs w).
  { split; [apply directions_kept_refl|]. split; [intros c d; reflexivity|].
    auto. }
  unfold infer_inverse_direction.
  destruct (edge_of w t a) as [to|] eqn:Hto; [|exact Hsame].
  destruct (Edge.direction to) eqn:Hdir; [exact Hsame|].
  destruct (edge_of w a t) as [fr|]; [|exact Hsame].
  destruct (Edge.direction fr) as [fdir|]; [|exact Hsame].
  destruct (Dict.get HEX_DIR_INVERSE fdir) as [inv|]; [|exact Hsame].
  destruct (truthy_str inv); [|exact Hsame].
  destruct (set_direction_kept t a inv w to Hto Hdir) as [Hd Hs].
  split; [exact Hd|]. split; [exact Hs|].
  split; [intros x; apply find_update_edge|].
  split; [intros c; apply update_edge_keeps_locations|].
  apply update_edge_frame.
Qed.

(** X9. Opening a door opens it from both sides and frees the way. When the
    actor stands in a location and the target location exists, an
    [open_connection] event succeeds, gives the edge the status open in both
    directions (creating the entries it misses), keeps every direction that
    was recorded on any edge, leaves every occupant and every agent as they
    were, and makes the move tool accept the target for whoever stands where
    the actor stands. *)
Theorem open_connection_opens_the_way (w : WorldState.t) (e : Event.t)
  (t a : string) (la lt : LocationState.t) :
  Event.event_type e = "open_connection" ->
  hd_error (Event.target_ids e) = Some t -> t <> "" ->
  find_npc_location w (Event.actor_id e) = Some a -> a <> "" ->
  Dict.get (locations_state w) a = Some la ->
  Dict.get (locations_state w) t = Some lt ->
  exists w',
    apply_event e w = (Ok tt, w')
    /\ option_map Edge.status (edge_of w' a t) = Some (Some "open")
    /\ option_map Edge.status (edge_of w' t a) = Some (Some "open")
    /\ directions_kept w w'
    /\ (forall x, find_npc_location w' x = find_npc_location w x)
    /\ npcs w' = npcs w
    /\ (forall intent actor,
          Dict.get intent "target_location" = Some (VStr t) ->
          find_npc_location w (NPC.id actor) = Some a ->
          MoveTool_validate_intent intent w' actor = Ok true).
Proof.
  intros Htype Hhd Htne Hfind Hane Hla Hlt.
  destruct (Event.target_ids e) as [|t0 rest] eqn:Ht; [discriminate|].
  injection Hhd as ->.
  set (keep := fun x : Edge.t => x).
  set (open := fun x => Edge.with_status x "open").
  set (w1 := update_edge a t keep w).
  set (w2 := update_edge t a keep w1).
  set (w3 := update_edge a t open w2).
  set (w4 := update_edge t a open w3).
  set (w5 := infer_forward_direction a t w4).
  set (w6 := infer_inverse_direction a t w5).
  assert (Hmem4 : forall c, Dict.mem (locations_state w4) c
                            = Dict.mem (locations_state w) c).
  { intros c. unfold w4, w3, w2, w1.
    now rewrite !update_edge_keeps_locations. }
  assert (Hlt1 : exists lt1, Dict.get (locations_state w1) t = Some lt1).
  { apply mem_get. unfold w1. rewrite update_edge_keeps_locations.
    apply mem_get. eauto. }
  destruct Hlt1 as [lt1 Hlt1].
  assert (Hla2 : exists la2, Dict.get (locations_state w2) a = Some la2).
  { apply mem_get. unfold w2, w1. rewrite !update_edge_keeps_locations.
    apply mem_get. eauto. }
  destruct Hla2 as [la2 Hla2].
  assert (Hlt3 : exists lt3, Dict.get (locations_state w3) t = Some lt3).
  { apply mem_get. unfold w3, w2, w1. rewrite !update_edge_keeps_locations.
    apply mem_get. eauto. }
  destruct Hlt3 as [lt3 Hlt3].
  assert (Hrun : apply_event e w = (Ok tt, w6)).
  { unfold apply_event. rewrite Htype. cbn -[apply_open_connection].
    unfold apply_open_connection.
    rewrite Ht, Hfind, (truthy_str_nonempty _ Hane).
    fold keep. fold w1. now rewrite Hlt1. }
  assert (Hta4 : option_map Edge.status (edge_of w4 t a) = Some (Some "open")).
  { unfold w4. rewrite (edge_of_update t a t a open w3 lt3 Hlt3).
    now rewrite !String.eqb_refl. }
  assert (Hat4 : option_map Edge.status (edge_of w4 a t) = Some (Some "open")).
  { unfold w4. rewrite (edge_of_update t a a t open w3 lt3 Hlt3).
    destruct (String.eqb t a && String.eqb a t); [reflexivity|].
    unfold w3. rewrite (edge_of_update a t a t open w2 la2 Hla2).
    now rewrite !String.eqb_refl. }
  assert (Hdir4 : directions_kept w w4).
  { unfold w4, w3, w2, w1.
    repeat (eapply directions_kept_trans;
            [|apply update_edge_directions_kept; intros x; reflexivity]).
    apply directions_kept_refl. }
  destruct (infer_forward_kept a t w4) as (Hd5 & Hs5 & Hf5 & Hm5 & Hn5).
  destruct (infer_inverse_kept a t w5) as (Hd6 & Hs6 & Hf6 & Hm6 & Hn6).
  fold w5 in Hd5, Hs5, Hf5, Hm5, Hn5. fold w6 in Hd6, Hs6, Hf6, Hm6, Hn6.
  assert (Hat6 : option_map Edge.status (edge_of w6 a t) = Some (Some "open"))
    by (now rewrite Hs6, Hs5).
  assert (Hfind6 : forall x, find_npc_location w6 x = find_npc_location w x).
  { intros x. rewrite Hf6, Hf5. unfold w4, w3, w2, w1.
    now rewrite !find_update_edge. }
  exists w6. split; [exact Hrun|]. split; [exact Hat6|].
  split; [now rewrite Hs6, Hs5|].
  split.
  { eapply directions_kept_trans; [exact Hdir4|].
    eapply directions_kept_trans; [exact Hd5|exact Hd6]. }
  split; [exact Hfind6|].
  split.
  { rewrite Hn6, Hn5. unfold w4, w3, w2, w1.
    repeat match goal with
           | |- npcs (update_edge ?p ?q ?f ?x) = _ =>
               destruct (update_edge_frame p q f x) as [-> _]
           end.
    reflexivity. }
  intros intent actor Hint Hstand.
  destruct (edge_of w6 a t) as [conn|] eqn:Hconn; [|discriminate].
  cbn in Hat6. injection Hat6 as Hstatus.
  rewrite (MoveTool_validate_edge intent w6 actor t a conn Hint Htne).
  - unfold Edge.is_open. now rewrite Hstatus.
  - rewrite Hm6, Hm5, Hmem4. apply mem_get. eauto.
  - now rewrite Hfind6.
  - exact Hane.
  - exact Hconn.
Qed.

Lemma open_connection_opens_the_way_witness :
  find_npc_location (Town.world "closed") "npc_guard" = Some "town_square"
  /\ MoveTool_validate_intent [("target_location", VStr "tavern")]
       (Town.world "closed") Town.npc_guard = Ok false
  /\ exists w',
      apply_event Scenes.guard_opens_tavern (Town.world "closed") = (Ok tt, w')
      /\ option_map Edge.status (edge_of w' "tavern" "town_square")
         = Some (Some "open")
      /\ MoveTool_validate_intent [("target_location", VStr "tavern")]
           w' Town.npc_guard = Ok true.
Proof.
  split; [reflexivity|]. split; [reflexivity|].
  destruct (open_connection_opens_the_way (Town.world "closed")
              Scenes.guard_opens_tavern "tavern" "town_square"
              (LocationState.mk "town_square" ["npc_guard"; "npc_sample"]
                 [] [] []
                 [("tavern", Edge.mk (Some "closed") (Some "east"));
                  ("market_square", Edge.mk (Some "open") (Some "west"))])
              (LocationState.mk "tavern" ["npc_bard"] [] [] []
                 [("town_square", Edge.mk (Some "closed") (Some "west"))])
              eq_refl eq_refl ltac:(discriminate) eq_refl ltac:(discriminate)
              eq_refl eq_refl)
    as (w' & Hrun & _ & Hback & _ & _ & _ & Hmove).
  exists w'. split; [exact Hrun|]. split; [exact Hback|].
  apply Hmove; reflexivity.
Defined.

(** ** Death in a location *)

Lemma place_instance_frame (item : string) (loc owner : option string)
  (w : WorldState.t) :
  npcs (place_instance item loc owner w) = npcs w
  /\ locations_state (place_instance item loc owner w) = locations_state w.
Proof.
  unfold place_instance.
  destruct (Dict.get (item_instances w) item); split; reflexivity.
Qed.

Lemma drop_all_npcs (loc_id : string) (items : list string)
  (w : WorldState.t) :
  npcs (drop_all loc_id items w) = npcs w.
Proof.
  revert w. induction items as [|i r IH]; intros w; [reflexivity|].
  cbn [drop_all]. rewrite IH.
  destruct (place_instance_frame i (Some loc_id) None
              match Dict.get (locations_state w) loc_id with
              | Some l => set_location w loc_id
                            (LocationState.with_items l
                               (LocationState.items l ++ [i]))
              | None => w
              end) as [-> _].
  destruct (Dict.get (locations_state w) loc_id); reflexivity.
Qed.

(** The loop of [npc_died] appends the items to the floor in order. *)
Lemma drop_all_locations (loc_id : string) (items : list string)
  (w : WorldState.t) (l : LocationState.t) :
  Dict.get (locations_state w) loc_id = Some l ->
  locations_state (drop_all loc_id items w)
  = Dict.set (locations_state w) loc_id
      (LocationState.with_items l (LocationState.items l ++ items)).
Proof.
  revert w l. induction items as [|i r IH]; intros w l Hget.
  - cbn [drop_all]. rewrite app_nil_r.
    replace (LocationState.with_items l (LocationState.items l)) with l
      by now destruct l.
    symmetry. now apply set_get_id.
  - cbn [drop_all]. rewrite Hget.
    set (l1 := LocationState.with_items l (LocationState.items l ++ [i])).
    set (w1 := place_instance i (Some loc_id) None (set_location w loc_id l1)).
    assert (Hlocs1 : locations_state w1
                     = Dict.set (locations_state w) loc_id l1).
    { unfold w1.
      now destruct (place_instance_frame i (Some loc_id) None
                      (set_location w loc_id l1)) as [_ ->]. }
    assert (Hget1 : Dict.get (locations_state w1) loc_id = Some l1)
      by (rewrite Hlocs1; apply get_set_same).
    rewrite (IH w1 l1 Hget1), Hlocs1, set_set.
    unfold l1. cbn [LocationState.items LocationState.with_items].
    now rewrite <- app_assoc.
Qed.

Lemma place_instance_lies (item k loc_id : string) (w : WorldState.t) :
  match Dict.get (item_instances
                    (place_instance item (Some loc_id) None w)) k with
  | Some inst =>
      (k = item \/ exists i0, Dict.get (item_instances w) k = Some i0
                              /\ (lies_in loc_id i0 -> lies_in loc_id inst))
      /\ (k = item -> lies_in loc_id inst)
  | None => Dict.get (item_instances w) k = None
  end.
Proof.
  unfold place_instance.
  destruct (Dict.get (item_instances w) item) as [inst|] eqn:Hitem.
  - cbn [set_instance item_instances WorldState.with_item_instances].
    destruct (string_dec item k) as [<-|Hne].
    + rewrite get_set_same. split; [now left|]. intros _. split; reflexivity.
    + rewrite (get_set_other _ _ _ _ Hne).
      destruct (Dict.get (item_instances w) k) as [i0|]; [|reflexivity].
      split; [right; eauto|]. intros ->. contradiction.
  - destruct (Dict.get (item_instances w) k) as [i0|] eqn:Hk; [|reflexivity].
    split; [right; eauto|]. intros ->. congruence.
Qed.

(** An instance that lies on the floor of the location stays there through
    the loop. *)
Lemma drop_all_keeps_lying (loc_id k : string) (items : list string)
  (w : WorldState.t) (i0 : ItemInstance.t) :
  Dict.get (item_instances w) k = Some i0 -> lies_in loc_id i0 ->
  exists i1, Dict.get (item_instances (drop_all loc_id items w)) k = Some i1
             /\ lies_in loc_id i1.
Proof.
  revert w i0. induction items as [|i r IH]; intros w i0 Hget Hlies.
  - eauto.
  - cbn [drop_all].
    set (w0 := match Dict.get (locations_state w) loc_id with
               | Some l => _
               | None => w
               end).
    assert (Hi0 : item_instances w0 = item_instances w)
      by (unfold w0; destruct (Dict.get (locations_state w) loc_id);
          reflexivity).
    pose proof (place_instance_lies i k loc_id w0) as Hp.
    destruct (Dict.get (item_instances
                          (place_instance i (Some loc_id) None w0)) k)
      as [inst|] eqn:E.
    + destruct Hp as [Hor Hsame].
      apply (IH _ inst E).
      destruct Hor as [->|(i0' & Hi0' & Himp)]; [now apply Hsame|].
      rewrite Hi0, Hget in Hi0'. injection Hi0' as <-. now apply Himp.
    + rewrite Hi0, Hget in Hp. discriminate.
Qed.

(** Every dropped item that has an instance ends on the floor. *)
Lemma drop_all_places (loc_id item : string) (items : list string)
  (w : WorldState.t) :
  In item items ->
  match Dict.get (item_instances (drop_all loc_id items w)) item with
  | Some inst => lies_in loc_id inst
  | None => True
  end.
Proof.
  revert w. induction items as [|i r IH]; intros w Hin; [contradiction|].
  cbn [drop_all].
  set (w0 := match Dict.get (locations_state w) loc_id with
             | Some l => _
             | None => w
             end).
  destruct (string_dec i item) as [->|Hne].
  - pose proof (place_instance_lies item item loc_id w0) as Hp.
    destruct (Dict.get (item_instances
                          (place_instance item (Some loc_id) None w0)) item)
      as [inst|] eqn:E.
    + destruct Hp as [_ Hsame].
      destruct (drop_all_keeps_lying loc_id item r _ inst E (Hsame eq_refl))
        as (i1 & -> & Hl). exact Hl.
    + destruct (In_dec string_dec item r) as [Hr|Hr]; [now apply IH|].
      destruct (Dict.get (item_instances (drop_all loc_id r _)) item)
        eqn:E'; [|exact I].
      clear IH. exfalso. revert E E'.
      generalize (place_instance item (Some loc_id) None w0). clear.
      intros w1 E E'. revert w1 E E'.
      induction r as [|j r IH]; intros w1 E E'; [cbn in E'; congruence|].
      cbn [drop_all] in E'.
      set (w2 := match Dict.get (locations_state w1) loc_id with
                 | Some l => _
                 | None => w1
                 end) in E'.
      assert (Hi2 : item_instances w2 = item_instances w1)
        by (unfold w2; destruct (Dict.get (locations_state w1) loc_id);
            reflexivity).
      pose proof (place_instance_lies j item loc_id w2) as Hp.
      destruct (Dict.get (item_instances
                            (place_instance j (Some loc_id) None w2)) item)
        as [inst|] eqn:E2.
      * destruct Hp as [[->|(i0 & Hi0 & _)] _].
        -- unfold place_instance in E2. rewrite Hi2, E in E2.
           rewrite Hi2, E in E2. discriminate.
        -- rewrite Hi2, E in Hi0. discriminate.
      * exact (IH _ E2 E').
  - destruct Hin as [Hin|Hin]; [contradiction|]. now apply IH.
Qed.

Lemma emptied_slots_empty (slots : dict (option string)) :
  equipped_items (emptied_slots slots) = []
  /\ Dict.keys (emptied_slots slots) = Dict.keys slots.
Proof.
  unfold equipped_items, emptied_slots, Dict.keys.
  induction slots as [|[k v] r [IH1 IH2]]; [split; reflexivity|].
  cbn [map flat_map fst snd]. rewrite IH1, IH2. split; [|reflexivity].
  destruct v as [c|]; cbn [truthy_ostr]; [|reflexivity].
  destruct (truthy_str c) eqn:E; [reflexivity|]. now rewrite E.
Qed.

(** X10. An agent that dies in a location drops everything there. An
    [npc_died] event for an agent that stands in a location succeeds, takes
    the agent out of the occupants, appends its inventory and then its
    equipped items to the items of the location, leaves it with an empty
    inventory and empty slots (the slot names stay), tags it dead, puts every
    dropped item that has an instance on the floor of the location, and
    leaves every other agent as it was. *)
Theorem npc_died_drops_everything (w : WorldState.t) (e : Event.t)
  (npc : NPC.t) (loc_id : string) (l : LocationState.t) :
  Event.event_type e = "npc_died" ->
  Dict.get (npcs w) (Event.actor_id e) = Some npc ->
  find_npc_location w (NPC.id npc) = Some loc_id -> loc_id <> "" ->
  Dict.get (locations_state w) loc_id = Some l ->
  In (NPC.id npc) (LocationState.occupants l) ->
  exists w' npc',
    apply_event e w = (Ok tt, w')
    /\ Dict.get (npcs w') (Event.actor_id e) = Some npc'
    /\ In "dead" (NPC.dynamic_tags npc')
    /\ NPC.inventory npc' = []
    /\ equipped_items (NPC.slots npc') = []
    /\ Dict.keys (NPC.slots npc') = Dict.keys (NPC.slots npc)
    /\ Dict.get (locations_state w') loc_id
       = Some (LocationState.with_items
                 (LocationState.with_occupants l
                    (remove_first (NPC.id npc) (LocationState.occupants l)))
                 (LocationState.items l ++ held npc))
    /\ (forall item, In item (held npc) ->
          match Dict.get (item_instances w') item with
          | Some inst => lies_in loc_id inst
          | None => True
          end)
    /\ (forall k, k <> Event.actor_id e ->
                  Dict.get (npcs w') k = Dict.get (npcs w) k).
Proof.
  intros Htype Hget Hfind Hne Hl Hin.
  set (l1 := LocationState.with_occupants l
               (remove_first (NPC.id npc) (LocationState.occupants l))).
  set (npc1 := NPC.with_inventory
                 (NPC.with_slots npc (emptied_slots (NPC.slots npc))) []).
  set (w2 := drop_all loc_id (held npc) (set_location w loc_id l1)).
  assert (Hrun : apply_event e w
                 = (Ok tt, set_npc w2 (Event.actor_id e) (mark_dead npc1))).
  { unfold apply_event. rewrite Htype. cbn -[apply_npc_died].
    unfold apply_npc_died.
    rewrite Hget, Hfind, (truthy_str_nonempty _ Hne), Hl.
    apply mem_str_In in Hin. rewrite Hin. reflexivity. }
  assert (Hl1 : Dict.get (locations_state (set_location w loc_id l1)) loc_id
                = Some l1) by apply get_set_same.
  destruct (mark_dead_keeps_items npc1) as [Hinv Hslots].
  destruct (emptied_slots_empty (NPC.slots npc)) as [Hempty Hkeys].
  exists (set_npc w2 (Event.actor_id e) (mark_dead npc1)), (mark_dead npc1).
  split; [exact Hrun|].
  cbn [set_npc npcs locations_state item_instances WorldState.with_npcs].
  split; [apply get_set_same|].
  split; [apply mark_dead_is_dead|].
  split; [now rewrite Hinv|].
  split; [now rewrite Hslots|].
  split; [now rewrite Hslots|].
  split.
  { unfold w2. rewrite (drop_all_locations loc_id _ _ l1 Hl1).
    cbn [set_location locations_state WorldState.with_locations_state].
    rewrite set_set, get_set_same. reflexivity. }
  split.
  { intros item Hitem. unfold w2. now apply drop_all_places. }
  intros k Hk. rewrite get_set_other by congruence.
  unfold w2. now rewrite drop_all_npcs.
Qed.

Lemma npc_died_drops_everything_witness :
  Dict.get (npcs (Town.world "open")) "npc_guard" = Some Town.npc_guard
  /\ find_npc_location (Town.world "open") "npc_guard" = Some "town_square"
  /\ exists w' npc' l',
      apply_event Scenes.guard_dies (Town.world "open") = (Ok tt, w')
      /\ Dict.get (npcs w') "npc_guard" = Some npc'
      /\ NPC.inventory npc' = []
      /\ In "dead" (NPC.dynamic_tags npc')
      /\ Dict.get (locations_state w') "town_square" = Some l'
      /\ LocationState.items l' = ["sword"; "apple"]
      /\ LocationState.occupants l' = ["npc_sample"].
Proof.
  split; [reflexivity|]. split; [reflexivity|].
  destruct (npc_died_drops_everything (Town.world "open") Scenes.guard_dies
              Town.npc_guard "town_square"
              (LocationState.mk "town_square" ["npc_guard"; "npc_sample"]
                 [] [] []
                 [("tavern", Edge.mk (Some "open") (Some "east"));
                  ("market_square", Edge.mk (Some "open") (Some "west"))])
              eq_refl eq_refl eq_refl ltac:(discriminate) eq_refl
              ltac:(now left))
    as (w' & npc' & Hrun & Hget & Hdead & Hinv & _ & _ & Hloc & _).
  exists w', npc'. eexists.
  split; [exact Hrun|]. split; [exact Hget|]. split; [exact Hinv|].
  split; [exact Hdead|]. split; [exact Hloc|]. split; reflexivity.
Defined.

(** ** What perception writes *)

Lemma cap_buffer_length {A} (cap : Z) (l : list A) :
  0 <= cap -> Z.of_nat (List.length (cap_buffer cap l)) <= cap.
Proof.
  intros Hcap. induction l as [|a r IH]; [simpl; lia|].
  cbn [cap_buffer]. destruct (Z.ltb_spec cap (Z.of_nat (List.length (a :: r))));
    [exact IH|lia].
Qed.

Lemma perceive_within (pe : PerceptionEvent.t) (size : Z) (w : WorldState.t)
  (y : string) :
  memories_within (Z.max 1 size) w ->
  memories_within (Z.max 1 size) (perceive pe size w y).
Proof.
  intros Hw k npc'. unfold perceive.
  destruct (Dict.get (npcs w) y) as [npc|] eqn:Hy; [|apply Hw].
  unfold set_npc, WorldState.with_npcs. cbn [npcs].
  destruct (string_dec y k) as [<-|Hne].
  - rewrite get_set_same. intros [= <-].
    unfold NPC.with_short_term_memory. cbn [NPC.short_term_memory].
    apply cap_buffer_length. lia.
  - rewrite (get_set_other _ _ _ _ Hne). apply Hw.
Qed.

(** X11. The short-term memories stay within the buffer: if no agent
    remembers more than max(1, buffer size) perceptions, none does after an
    event is perceived. *)
Theorem perception_keeps_memories_within (buffer_size : Z) (e : Event.t)
  (w : WorldState.t) :
  memories_within (Z.max 1 buffer_size) w ->
  memories_within (Z.max 1 buffer_size) (record_perception buffer_size e w).
Proof.
  intros Hw. unfold record_perception.
  destruct (_ || _); [exact Hw|].
  destruct (primary_location w e) as [loc|]; [|exact Hw].
  destruct (truthy_str loc); [|exact Hw].
  generalize (perception_recipients w e loc). intros recips.
  revert w Hw. induction recips as [|y r IH]; intros w Hw; [exact Hw|].
  cbn [fold_left]. apply IH. now apply perceive_within.
Qed.

Lemma perception_keeps_memories_within_witness :
  memories_within (Z.max 1 1) (Town.world "closed")
  /\ memories_within (Z.max 1 1)
       (record_perception 1 Town.scream_help
          (record_perception 1 Town.drop_sword (Town.world "closed"))).
Proof.
  assert (H0 : memories_within (Z.max 1 1) (Town.world "closed")).
  { intros k npc. cbn [Town.world npcs Dict.get].
    repeat (destruct (String.eqb _ k);
            [intros [= <-]; vm_compute; discriminate|]).
    discriminate. }
  split; [exact H0|].
  apply (perception_keeps_memories_within 1 Town.scream_help).
  apply (perception_keeps_memories_within 1 Town.drop_sword).
  exact H0.
Defined.

Lemma only_memories_differ_refl (w : WorldState.t) : only_memories_differ w w.
Proof.
  repeat (split; [reflexivity|]). intros k npc' H. exists npc'.
  split; [exact H|]. unfold same_but_memory. now destruct npc'.
Qed.

Lemma perceive_only_memories (pe : PerceptionEvent.t) (size : Z)
  (w0 w : WorldState.t) (y : string) :
  only_memories_differ w0 w -> only_memories_differ w0 (perceive pe size w y).
Proof.
  intros (Hl & Hs & Hi & Hb & Hk & Hn). unfold perceive.
  destruct (Dict.get (npcs w) y) as [npc|] eqn:Hy;
    [|repeat (split; [assumption|]); exact Hn].
  cbn [set_npc npcs WorldState.with_npcs locations_state locations_static
       item_instances item_blueprints].
  repeat (split; [assumption|]).
  unfold set_npc, WorldState.with_npcs. cbn [npcs].
  split; [now rewrite (keys_set_present _ _ npc _ Hy)|].
  intros k npc'. destruct (string_dec y k) as [<-|Hne].
  - rewrite get_set_same. intros [= <-].
    destruct (Hn y npc Hy) as (npc0 & H0 & Hsame).
    exists npc0. split; [exact H0|].
    unfold same_but_memory in *. rewrite Hsame. now destruct npc0.
  - rewrite (get_set_other _ _ _ _ Hne). apply Hn.
Qed.

Lemma perceive_all_other (pe : PerceptionEvent.t) (size : Z)
  (recips : list string) (w : WorldState.t) (x : string) :
  ~ In x recips ->
  Dict.get (npcs (fold_left (perceive pe size) recips w)) x
  = Dict.get (npcs w) x.
Proof.
  revert w. induction recips as [|y r IH]; intros w Hx; [reflexivity|].
  cbn [fold_left]. rewrite IH by (intros H; apply Hx; now right).
  apply perceive_other. intros ->. apply Hx. now left.
Qed.

(** X12. Perception writes short-term memories and nothing else. Recording
    the perception of any event leaves the locations, the item instances and
    the set of agents as they were, and changes no field of an agent other
    than its short-term memory; an agent that is not a recipient is left
    untouched, the actor of an event that is neither a scream nor loud talk
    among them: nobody perceives its own quiet action. *)
Theorem perception_only_writes_memories (buffer_size : Z) (e : Event.t)
  (w : WorldState.t) :
  only_memories_differ w (record_perception buffer_size e w)
  /\ (forall loc x, primary_location w e = Some loc ->
        ~ In x (perception_recipients w e loc) ->
        Dict.get (npcs (record_perception buffer_size e w)) x
        = Dict.get (npcs w) x)
  /\ (Event.event_type e <> "scream" -> Event.event_type e <> "talk_loud" ->
      Dict.get (npcs (record_perception buffer_size e w)) (Event.actor_id e)
      = Dict.get (npcs w) (Event.actor_id e)).
Proof.
  assert (Hnot : forall loc x, primary_location w e = Some loc ->
            ~ In x (perception_recipients w e loc) ->
            Dict.get (npcs (record_perception buffer_size e w)) x
            = Dict.get (npcs w) x).
  { intros loc x Hloc Hx. unfold record_perception.
    destruct (_ || _); [reflexivity|]. rewrite Hloc.
    destruct (truthy_str loc); [|reflexivity].
    now apply perceive_all_other. }
  split; [|split; [exact Hnot|]].
  - unfold record_perception.
    destruct (_ || _); [apply only_memories_differ_refl|].
    destruct (primary_location w e) as [loc|];
      [|apply only_memories_differ_refl].
    destruct (truthy_str loc); [|apply only_memories_differ_refl].
    generalize (perception_recipients w e loc). intros recips.
    generalize (only_memories_differ_refl w).
    generalize w at 2 4. intros w1 H1. revert w1 H1.
    induction recips as [|y r IH]; intros w1 H1; [exact H1|].
    cbn [fold_left]. apply IH. now apply perceive_only_memories.
  - intros Hs Ht.
    destruct (primary_location w e) as [loc|] eqn:Hloc.
    + apply (Hnot loc _ eq_refl).
      unfold perception_recipients, noise_recipients.
      destruct (String.eqb_spec (Event.event_type e) "scream");
        [contradiction|].
      destruct (String.eqb_spec (Event.event_type e) "talk_loud");
        [contradiction|].
      cbn [orb]. intros H. apply direct_recipients_In in H.
      destruct H as (_ & _ & _ & Hne). now apply Hne.
    + unfold record_perception. rewrite Hloc.
      now destruct (_ || _).
Qed.

(** ** Dice *)

Lemma roll_sum_bounds (n : nat) (die acc : Z) (g : Rng.t) :
  1 <= die ->
  exists r,
    roll_sum n die acc g = (Ok r, Rng.mk (Rng.draws g) (Rng.pos g + n)%nat)
    /\ acc + Z.of_nat n <= r <= acc + Z.of_nat n * die.
Proof.
  intros Hdie. revert acc g. induction n as [|n IH]; intros acc g.
  - exists acc. cbn [roll_sum]. rewrite Nat.add_0_r. destruct g.
    split; [reflexivity|cbn; lia].
  - cbn [roll_sum]. unfold randint.
    destruct (Z.ltb_spec die 1); [lia|].
    destruct (IH (acc + (1 + Rng.draws g (Rng.pos g) mod (die - 1 + 1)))
                 (Rng.next g)) as (r & Hr & Hb).
    exists r. rewrite Hr. unfold Rng.next. cbn [Rng.draws Rng.pos].
    split; [now rewrite Nat.add_succ_r|].
    pose proof (Z.mod_pos_bound (Rng.draws g (Rng.pos g)) (die - 1 + 1)
                  ltac:(lia)).
    nia.
Qed.

(** X13. A roll of [num]d[die] with a positive die consumes exactly [num]
    random draws and answers a total between [num] and [num * die] (a
    negative [num] counts as no dice at all); with a die below one and at
    least one die to roll it raises [ValueError] before any draw is
    consumed. *)
Theorem roll_dice_within_bounds (spec : string) (num die : Z) (g : Rng.t) :
  parse_dice spec = Ok (num, die) ->
  (1 <= die ->
   exists r,
     roll_dice spec g
     = (Ok r, Rng.mk (Rng.draws g) (Rng.pos g + Z.to_nat num)%nat)
     /\ Z.max 0 num <= r <= Z.max 0 num * die)
  /\ (die < 1 -> 1 <= num ->
      exists msg, roll_dice spec g = (Raise (ValueError msg), g)).
Proof.
  intros Hparse. unfold roll_dice. rewrite Hparse. split.
  - intros Hdie.
    destruct (roll_sum_bounds (Z.to_nat num) die 0 g Hdie) as (r & Hr & Hb).
    exists r. split; [exact Hr|]. lia.
  - intros Hdie Hnum.
    destruct (Z.to_nat num) as [|n] eqn:Hn; [lia|].
    cbn [roll_sum]. unfold randint.
    destruct (Z.ltb_spec die 1); [|lia]. eexists. reflexivity.
Qed.

Lemma roll_dice_within_bounds_witness :
  parse_dice "2d6" = Ok (2, 6)
  /\ exists r,
       roll_dice "2d6" (constant_rng 4)
       = (Ok r, Rng.mk (Rng.draws (constant_rng 4))
                       (Rng.pos (constant_rng 4) + Z.to_nat 2)%nat)
       /\ Z.max 0 2 <= r <= Z.max 0 2 * 6.
Proof.
  assert (H : parse_dice "2d6" = Ok (2, 6)) by (vm_compute; reflexivity).
  split; [exact H|].
  apply (proj1 (roll_dice_within_bounds "2d6" 2 6 (constant_rng 4) H)). lia.
Defined.

(** ** Commands *)

Lemma wait_time_cost_positive (params : dict pyval) :
  1 <= wait_time_cost params.
Proof.
  unfold wait_time_cost.
  destruct (Dict.get_default params "ticks" (VInt 1)) as [|b|z|str|l];
    try lia.
  destruct (py_int_of_string str); lia.
Qed.

(** X14. A successful command keeps its actor busy. When every registered
    tool costs at least one tick, a command that [process_command] accepts
    only appends events to the queue, leaves the clock alone and pushes the
    actor's next available tick past the current one, so that any further
    command of that actor for a registered tool is refused with
    [Actor is busy] while the clock stands. *)
Theorem accepted_command_makes_actor_busy (actor_id : string)
  (c : Command.t) (s s' : Simulator.t) :
  (forall n t, Dict.get (Simulator.tools s) n = Some t ->
               1 <= Tool.time_cost t) ->
  process_command actor_id c s = (Ok tt, s') ->
  (exists evs, Simulator.event_queue s'
               = Simulator.event_queue s ++ evs)
  /\ Simulator.game_tick s' = Simulator.game_tick s
  /\ Simulator.tools s' = Simulator.tools s
  /\ (exists actor', Dict.get (npcs (Simulator.world s')) actor_id
                     = Some actor'
                     /\ Simulator.game_tick s'
                        < NPC.next_available_tick actor')
  /\ (forall c' n t, Command.tool c' = Some n ->
        Dict.get (Simulator.tools s) n = Some t ->
        process_command actor_id c' s'
        = (Raise (ValueError "Actor is busy"), s')).
Proof.
  intros Hcost. unfold process_command at 1. unfold get_npc, subscript.
  destruct (Dict.get (npcs (Simulator.world s)) actor_id) as [actor|] eqn:Ha;
    [|discriminate].
  destruct (Command.tool c) as [n|] eqn:Hn; [|discriminate].
  destruct (Dict.get (Simulator.tools s) n) as [tool|] eqn:Ht;
    [|discriminate].
  destruct (Simulator.game_tick s <? NPC.next_available_tick actor);
    [discriminate|].
  set (params := normalize_params n _).
  destruct (Tool.validate_intent tool params (Simulator.world s) actor)
    as [[|]|]; try discriminate.
  set (cost := if (_ || _)%bool then wait_time_cost params
               else Tool.time_cost tool).
  assert (Hc : 1 <= cost).
  { unfold cost. destruct (_ || _);
      [apply wait_time_cost_positive|exact (Hcost _ _ Ht)]. }
  destruct (Tool.generate_events tool params (Simulator.world s) actor
              (Simulator.game_tick s)) as [evs|]; [|discriminate].
  intros [= <-].
  unfold Simulator.with_world, Simulator.with_event_queue, set_npc,
    WorldState.with_npcs.
  cbn [Simulator.world Simulator.game_tick Simulator.event_queue
       Simulator.tools npcs].
  split; [now exists evs|]. split; [reflexivity|]. split; [reflexivity|].
  split.
  - eexists. split; [apply get_set_same|].
    unfold NPC.with_next_available_tick. cbn [NPC.next_available_tick]. lia.
  - intros c' n' t' Hn' Ht'. unfold process_command, get_npc, subscript.
    cbn [Simulator.world Simulator.game_tick Simulator.event_queue
         Simulator.tools npcs].
    rewrite get_set_same, Hn', Ht'.
    unfold NPC.with_next_available_tick. cbn [NPC.next_available_tick].
    destruct (Z.ltb_spec (Simulator.game_tick s)
                (Simulator.game_tick s + cost)); [reflexivity|lia].
Qed.

Lemma accepted_command_makes_actor_busy_witness :
  let s' := snd (process_command "npc_guard" Town.move_to_tavern
                   (Town.sim "open" 0)) in
  process_command "npc_guard" Town.move_to_tavern (Town.sim "open" 0)
  = (Ok tt, s')
  /\ process_command "npc_guard" Town.move_to_tavern s'
     = (Raise (ValueError "Actor is busy"), s').
Proof.
  intros s'.
  assert (H1 : process_command "npc_guard" Town.move_to_tavern
                 (Town.sim "open" 0) = (Ok tt, s'))
    by (vm_compute; reflexivity).
  assert (Hcost : forall n t,
             Dict.get (Simulator.tools (Town.sim "open" 0)) n = Some t ->
             1 <= Tool.time_cost t).
  { intros n t. cbn [Town.sim Simulator.tools Dict.get].
    destruct (String.eqb "move" n); [|discriminate].
    intros [= <-]. cbn. lia. }
  split; [exact H1|].
  destruct (accepted_command_makes_actor_busy _ _ _ _ Hcost H1)
    as (_ & _ & _ & _ & Hbusy).
  exact (Hbusy Town.move_to_tavern "move" (MoveTool 5) eq_refl eq_refl).
Defined.

(** ** The tick and its handlers *)

Lemma handler_frame_refl (s : Simulator.t) : handler_frame s s.
Proof.
  repeat (split; [reflexivity|]). exists []. split; [now rewrite app_nil_r|].
  constructor.
Qed.

Lemma handler_frame_trans (s1 s2 s3 : Simulator.t) :
  handler_frame s1 s2 -> handler_frame s2 s3 -> handler_frame s1 s3.
Proof.
  intros (Hg & Ht & Hb & n1 & Hq1 & Hf1) (Hg' & Ht' & Hb' & n2 & Hq2 & Hf2).
  split; [congruence|]. split; [congruence|]. split; [congruence|].
  exists (n1 ++ n2). split; [now rewrite Hq2, Hq1, app_assoc|].
  apply Forall_app. split; [exact Hf1|]. now rewrite Hg in Hf2.
Qed.

Lemma with_world_frame (s : Simulator.t) (w : WorldState.t) :
  handler_frame s (Simulator.with_world s w).
Proof. apply (handler_frame_refl s). Qed.

Lemma with_rng_frame (s : Simulator.t) (g : Rng.t) :
  handler_frame s (Simulator.with_rng s g).
Proof. apply (handler_frame_refl s). Qed.

Lemma enqueue_frame (s : Simulator.t) (evs : list Event.t) :
  Forall (fun e => Event.tick e = Simulator.game_tick s) evs ->
  handler_frame s (enqueue evs s).
Proof.
  intros H. repeat (split; [reflexivity|]). exists evs. now split.
Qed.

Lemma apply_to_world_frame (e : Event.t) (s : Simulator.t) :
  handler_frame s (snd (apply_to_world e s)).
Proof.
  unfold apply_to_world. destruct (apply_event e (Simulator.world s)).
  apply with_world_frame.
Qed.

Lemma attack_attempt_frame (e : Event.t) (s : Simulator.t) :
  handler_frame s (snd (_handle_attack_attempt e s)).
Proof.
  unfold _handle_attack_attempt.
  destruct (get_npc (Simulator.world s) (Event.actor_id e)) as [attacker|];
    [|apply handler_frame_refl].
  destruct (Event.target_ids e) as [|target_id r]; [apply handler_frame_refl|].
  destruct (get_npc (Simulator.world s) target_id) as [target|];
    [|apply handler_frame_refl].
  destruct (resolve_attack (Simulator.world s) attacker target
              (Simulator.rng s)) as [[res|x] g]; [|apply with_rng_frame].
  assert (H1 : forall ev, Event.tick ev = Simulator.game_tick s ->
             handler_frame s (enqueue [ev] (Simulator.with_rng s g))).
  { intros ev Hev.
    apply (handler_frame_trans _ _ _ (with_rng_frame s g)).
    apply enqueue_frame. now constructor. }
  destruct (AttackResult.hit res); [|now apply H1].
  destruct (get_weapon (Simulator.world s) attacker) as [weapon|];
    [|now apply H1].
  cbn [snd].
  match goal with
  | |- handler_frame _ (enqueue _ (enqueue [?ev] _)) =>
      apply (handler_frame_trans _ _ _ (H1 ev eq_refl))
  end.
  apply enqueue_frame. now constructor.
Qed.

Lemma damage_applied_frame (e : Event.t) (s : Simulator.t) :
  handler_frame s (snd (_handle_damage_applied e s)).
Proof.
  unfold _handle_damage_applied.
  pose proof (apply_to_world_frame e s) as H.
  destruct (apply_to_world e s) as [[[]|x] s1]; cbn [snd] in *; [|exact H].
  destruct (Event.target_ids e) as [|target_id r]; [exact H|].
  destruct (get_npc (Simulator.world s1) target_id) as [target|]; [|exact H].
  destruct (_ && _); [|exact H].
  cbn [snd]. apply (handler_frame_trans _ _ _ H).
  apply enqueue_frame. now constructor.
Qed.

Lemma toggle_starvation_frame (e : Event.t) (s : Simulator.t) :
  handler_frame s (snd (_handle_toggle_starvation e s)).
Proof.
  unfold _handle_toggle_starvation.
  destruct (truthy _); apply (handler_frame_refl s).
Qed.

Lemma run_handler_frame (e : Event.t) (s : Simulator.t) :
  handler_frame s (snd (run_handler e s)).
Proof.
  unfold run_handler.
  repeat (destruct (String.eqb (Event.event_type e) _);
          [first [ apply handler_frame_refl | apply apply_to_world_frame
                 | apply attack_attempt_frame | apply damage_applied_frame
                 | apply toggle_starvation_frame ]|]).
  apply apply_to_world_frame.
Qed.

Lemma handle_event_frame (e : Event.t) (s : Simulator.t) :
  handler_frame s (snd (handle_event e s)).
Proof.
  unfold handle_event. pose proof (run_handler_frame e s) as H.
  destruct (run_handler e s) as [[[]|x] s1]; cbn [snd] in *; [|exact H].
  apply (handler_frame_trans _ _ _ H). apply with_world_frame.
Qed.

Lemma handle_all_frame (evs : list Event.t) (s : Simulator.t) :
  handler_frame s (snd (handle_all evs s)).
Proof.
  revert s. induction evs as [|e r IH]; intros s; [apply handler_frame_refl|].
  cbn [handle_all]. pose proof (handle_event_frame e s) as H.
  destruct (handle_event e s) as [[[]|x] s1]; cbn [snd] in *; [|exact H].
  apply (handler_frame_trans _ _ _ H). apply IH.
Qed.

Lemma hunger_step_due (current_tick : Z) (npc : NPC.t) :
  Forall (fun e => Event.tick e = current_tick)
         (snd (hunger_step current_tick npc)).
Proof.
  unfold hunger_step. destruct (NPC.is_dead npc); [constructor|].
  destruct (_ <=? _); [now repeat constructor|].
  destruct (_ <=? _); constructor.
Qed.

Lemma update_hunger_due (w : WorldState.t) (current_tick : Z) :
  Forall (fun e => Event.tick e = current_tick)
         (fst (update_hunger w current_tick)).
Proof.
  unfold update_hunger.
  pose proof (hunger_loop_events current_tick (npcs w)) as H.
  destruct (hunger_loop current_tick (npcs w)) as [npcs' events].
  cbn [fst snd] in *. rewrite H. clear H.
  induction (npcs w) as [|[k npc] r IH]; [constructor|].
  cbn [flat_map snd]. apply Forall_app. split; [apply hunger_step_due|exact IH].
Qed.

Lemma filter_none {A} (f : A -> bool) (l : list A) :
  Forall (fun x => f x = false) l -> filter f l = [].
Proof.
  induction 1 as [|x r Hx _ IH]; [reflexivity|].
  cbn [filter]. now rewrite Hx.
Qed.

(** X15. One tick advances the clock by exactly one, whatever its handlers
    do and even when one of them raises. The events that were scheduled for
    later stay in the queue, in their order, and everything else the tick
    leaves in the queue is stamped with the new tick. The tool table and the
    buffer size are not touched. *)
Theorem tick_advances_clock_and_keeps_future (s : Simulator.t) :
  let now := Simulator.game_tick s + 1 in
  let s' := snd (tick s) in
  Simulator.game_tick s' = now
  /\ Simulator.tools s' = Simulator.tools s
  /\ Simulator.perception_buffer_size s' = Simulator.perception_buffer_size s
  /\ exists new,
       Simulator.event_queue s'
       = filter (fun e => negb (is_ready now e)) (Simulator.event_queue s)
         ++ new
       /\ Forall (fun e => Event.tick e = now) new.
Proof.
  intros now s'. subst s'. unfold tick.
  set (s1 := Simulator.with_game_tick s (Simulator.game_tick s + 1)).
  set (s2 := if Simulator.starvation_enabled s1 then _ else s1).
  assert (H2 : Simulator.game_tick s2 = now
               /\ Simulator.tools s2 = Simulator.tools s
               /\ Simulator.perception_buffer_size s2
                  = Simulator.perception_buffer_size s
               /\ filter (fun e => negb (is_ready now e))
                         (Simulator.event_queue s2)
                  = filter (fun e => negb (is_ready now e))
                           (Simulator.event_queue s)).
  { unfold s2. destruct (Simulator.starvation_enabled s1).
    - pose proof (update_hunger_due (Simulator.world s1)
                    (Simulator.game_tick s1)) as Hdue.
      destruct (update_hunger (Simulator.world s1) (Simulator.game_tick s1))
        as [hunger_events w].
      cbn [fst] in Hdue. unfold enqueue, Simulator.with_event_queue,
        Simulator.with_world.
      cbn [Simulator.game_tick Simulator.tools Simulator.event_queue
           Simulator.perception_buffer_size s1 Simulator.with_game_tick].
      repeat (split; [reflexivity|]).
      rewrite filter_app, (filter_none _ hunger_events), app_nil_r;
        [reflexivity|].
      eapply Forall_impl; [|exact Hdue]. cbn beta. intros e He.
      unfold is_ready. rewrite He.
      cbn [Simulator.game_tick s1 Simulator.with_game_tick].
      fold now. now rewrite Z.leb_refl.
    - now repeat split. }
  destruct H2 as (Hg2 & Ht2 & Hb2 & Hq2).
  rewrite Hg2.
  set (s3 := Simulator.with_event_queue s2 _).
  destruct (handle_all_frame
              (filter (is_ready now) (Simulator.event_queue s2)) s3)
    as (Hg & Ht & Hb & new & Hq & Hf).
  split; [now rewrite Hg|]. split; [now rewrite Ht|].
  split; [now rewrite Hb|].
  exists new. split; [now rewrite Hq, <- Hq2|].
  eapply Forall_impl; [|exact Hf]. cbn beta. intros e He.
  now rewrite He.
Qed.

(** X16. Damage kills through the queue, and only when it is fatal. Handling
    a [damage_applied] event of a given amount against a known agent lowers
    the hit points by the amount, never below zero, and appends one
    [npc_died] event for that agent, stamped with the current tick and
    aimed at the agent's location, exactly when the hit points were at most
    the amount and the agent is not already tagged dead; otherwise the
    queue is left as it was. *)
Theorem damage_enqueues_death_when_fatal (s : Simulator.t) (e : Event.t)
  (target_id : string) (others : list string) (target : NPC.t) (amount : Z) :
  Event.event_type e = "damage_applied" ->
  Event.target_ids e = target_id :: others ->
  Dict.get (npcs (Simulator.world s)) target_id = Some target ->
  Dict.get (Event.payload e) "amount" = Some (VInt amount) ->
  exists s',
    _handle_damage_applied e s = (Ok tt, s')
    /\ Simulator.world s'
       = set_npc (Simulator.world s) target_id
           (NPC.with_hp target (Z.max (NPC.hp target - amount) 0))
    /\ Simulator.event_queue s'
       = Simulator.event_queue s
         ++ (if (NPC.hp target <=? amount) && negb (NPC.is_dead target)
             then [Event.mk "npc_died" (Simulator.game_tick s) (NPC.id target)
                     (place_of (Simulator.world s) (NPC.id target)) []]
             else []).
Proof.
  intros Htype Htargets Htarget Hamount.
  unfold _handle_damage_applied, apply_to_world.
  replace (apply_event e (Simulator.world s))
    with (apply_damage_applied e (Simulator.world s))
    by (unfold apply_event; rewrite Htype; reflexivity).
  unfold apply_damage_applied, Dict.get_default.
  rewrite Htargets, Htarget, Hamount. cbn [py_int_operand].
  unfold get_npc, subscript, Simulator.with_world, set_npc,
    WorldState.with_npcs.
  cbn [Simulator.world npcs]. rewrite get_set_same.
  change (NPC.hp (NPC.with_hp target (Z.max (NPC.hp target - amount) 0)))
    with (Z.max (NPC.hp target - amount) 0).
  change (NPC.is_dead (NPC.with_hp target (Z.max (NPC.hp target - amount) 0)))
    with (NPC.is_dead target).
  change (NPC.id (NPC.with_hp target (Z.max (NPC.hp target - amount) 0)))
    with (NPC.id target).
  replace (Z.max (NPC.hp target - amount) 0 <=? 0)
    with (NPC.hp target <=? amount)
    by (destruct (Z.leb_spec (NPC.hp target) amount);
        destruct (Z.leb_spec (Z.max (NPC.hp target - amount) 0) 0);
        reflexivity || lia).
  destruct ((NPC.hp target <=? amount) && negb (NPC.is_dead target)).
  - eexists. split; [reflexivity|]. split; reflexivity.
  - eexists. split; [reflexivity|]. split; [reflexivity|].
    cbn [Simulator.event_queue]. now rewrite app_nil_r.
Qed.

Lemma damage_enqueues_death_when_fatal_witness :
  exists s',
    _handle_damage_applied Brawl.wound (Town.sim "open" 3) = (Ok tt, s')
    /\ Simulator.world s'
       = set_npc (Simulator.world (Town.sim "open" 3)) "npc_sample"
           (NPC.with_hp Town.npc_sample
              (Z.max (NPC.hp Town.npc_sample - 4) 0))
    /\ Simulator.event_queue s'
       = Simulator.event_queue (Town.sim "open" 3)
         ++ (if (NPC.hp Town.npc_sample <=? 4)
                && negb (NPC.is_dead Town.npc_sample)
             then [Event.mk "npc_died"
                     (Simulator.game_tick (Town.sim "open" 3))
                     (NPC.id Town.npc_sample)
                     (place_of (Simulator.world (Town.sim "open" 3))
                        (NPC.id Town.npc_sample)) []]
             else []).
Proof.
  apply (damage_enqueues_death_when_fatal (Town.sim "open" 3) Brawl.wound
           "npc_sample" [] Town.npc_sample 4); reflexivity.
Defined.

Lemma resolve_attack_hit (w : WorldState.t) (attacker target : NPC.t)
  (g g' : Rng.t) (res : AttackResult.t) :
  resolve_attack w attacker target g = (Ok res, g') ->
  AttackResult.hit res
  = (AttackResult.target_ac res <=? AttackResult.to_hit res).
Proof.
  unfold resolve_attack.
  destruct (get_weapon w attacker) as [weapon|]; [|discriminate].
  destruct (roll_dice "1d20" g) as [[d20|] g1]; [|discriminate].
  destruct (compute_ac w target) as [ac|]; [|discriminate].
  destruct (ac <=? _) eqn:Hhit.
  - destruct (roll_dice _ g1) as [[damage|] g2]; [|discriminate].
    destruct (d20 =? 20).
    + destruct (roll_dice _ g2) as [[extra|] g3]; [|discriminate].
      intros [= <- _]. cbn. now rewrite Hhit.
    + intros [= <- _]. cbn. now rewrite Hhit.
  - intros [= <- _]. cbn. now rewrite Hhit.
Qed.

(** X17. An attack attempt touches nobody: whatever its outcome, handling
    it leaves the world as it was, also when it raises. When it succeeds it
    has appended, stamped with the current tick and for the same actor and
    targets, either one [attack_missed] event (the attack roll was below the
    armour class) or an [attack_hit] event followed by a [damage_applied]
    event carrying the same damage (the roll reached the armour class). *)
Theorem attack_attempt_only_enqueues (e : Event.t) (s : Simulator.t) :
  Simulator.world (snd (_handle_attack_attempt e s)) = Simulator.world s
  /\ (fst (_handle_attack_attempt e s) = Ok tt ->
      exists to_hit ac,
        let report := [("to_hit", VInt to_hit); ("target_ac", VInt ac)] in
        let stamp t p := Event.mk t (Simulator.game_tick s) (Event.actor_id e)
                                  (Event.target_ids e) p in
        (to_hit < ac
         /\ Simulator.event_queue (snd (_handle_attack_attempt e s))
            = Simulator.event_queue s ++ [stamp "attack_missed" report])
        \/ (ac <= to_hit
            /\ exists damage damage_type,
                 Simulator.event_queue (snd (_handle_attack_attempt e s))
                 = Simulator.event_queue s
                   ++ [stamp "attack_hit"
                             (report ++ [("damage", VInt damage)]);
                       stamp "damage_applied"
                             [("amount", VInt damage);
                              ("damage_type", VStr damage_type)]])).
Proof.
  unfold _handle_attack_attempt.
  destruct (get_npc (Simulator.world s) (Event.actor_id e)) as [attacker|];
    [|split; [reflexivity|discriminate]].
  destruct (Event.target_ids e) as [|target_id r] eqn:Htargets;
    [split; [reflexivity|discriminate]|].
  destruct (get_npc (Simulator.world s) target_id) as [target|];
    [|split; [reflexivity|discriminate]].
  destruct (resolve_attack (Simulator.world s) attacker target
              (Simulator.rng s)) as [[res|x] g] eqn:Hres;
    [|split; [reflexivity|discriminate]].
  pose proof (resolve_attack_hit _ _ _ _ _ _ Hres) as Hhit.
  destruct (AttackResult.hit res).
  - destruct (get_weapon (Simulator.world s) attacker) as [weapon|];
      [|split; [reflexivity|discriminate]].
    split; [reflexivity|]. intros _.
    exists (AttackResult.to_hit res), (AttackResult.target_ac res).
    right. split; [symmetry in Hhit; now apply Z.leb_le in Hhit|].
    exists (AttackResult.damage res), (ItemBlueprint.damage_type weapon).
    cbn. now rewrite <- app_assoc.
  - split; [reflexivity|]. intros _.
    exists (AttackResult.to_hit res), (AttackResult.target_ac res).
    left. split; [symmetry in Hhit; apply Z.leb_gt in Hhit; lia|].
    reflexivity.
Qed.

(** ** From a validated intent to its effect *)

Lemma place_instance_get (item : string) (loc owner : option string)
  (w : WorldState.t) (inst : ItemInstance.t) :
  Dict.get (item_instances w) item = Some inst ->
  Dict.get (item_instances (place_instance item loc owner w)) item
  = Some (ItemInstance.with_place inst loc owner).
Proof.
  intros H. unfold place_instance. rewrite H.
  unfold set_instance, WorldState.with_item_instances. cbn [item_instances].
  apply get_set_same.
Qed.

(** X18. A grab that the grab tool validated always takes the item. For an
    actor registered under its own id, an accepted intent yields exactly one
    [grab] event, and applying that event to the same world succeeds: the
    item leaves the items of the actor's location, joins the end of the
    actor's inventory, and its instance names the actor as owner and no
    location. *)
Theorem validated_grab_takes_item (intent : dict pyval) (w : WorldState.t)
  (actor : NPC.t) (tick : Z) :
  GrabTool_validate_intent intent w actor = Ok true ->
  Dict.get (npcs w) (NPC.id actor) = Some actor ->
  exists item loc_id l inst w',
    GrabTool_generate_events intent w actor tick
    = Ok [Event.mk "grab" tick (NPC.id actor) [item] []]
    /\ find_npc_location w (NPC.id actor) = Some loc_id
    /\ Dict.get (locations_state w) loc_id = Some l
    /\ Dict.get (item_instances w) item = Some inst
    /\ apply_event (Event.mk "grab" tick (NPC.id actor) [item] []) w
       = (Ok tt, w')
    /\ Dict.get (npcs w') (NPC.id actor)
       = Some (NPC.with_inventory actor (NPC.inventory actor ++ [item]))
    /\ Dict.get (locations_state w') loc_id
       = Some (LocationState.with_items l
                 (remove_first item (LocationState.items l)))
    /\ Dict.get (item_instances w') item
       = Some (ItemInstance.with_place inst None (Some (NPC.id actor))).
Proof.
  unfold GrabTool_validate_intent, GrabTool_generate_events, item_event,
    Dict.get_default.
  intros Hv Hactor.
  destruct (Dict.get intent "item_id") as [[|b|z|item|l]|];
    cbn [truthy py_in_dict py_in_list negb] in Hv;
    try discriminate; try (destruct (negb _); discriminate).
  destruct (truthy_str item); [|discriminate]. cbn [negb] in Hv.
  destruct (Dict.mem (item_instances w) item) eqn:Hmem; [|discriminate].
  apply mem_get in Hmem. destruct Hmem as [inst Hinst].
  destruct (find_npc_location w (NPC.id actor)) as [loc_id|] eqn:Hloc;
    [|discriminate].
  destruct (truthy_str loc_id) eqn:Hne; [|discriminate].
  unfold get_location_state, subscript in Hv.
  destruct (Dict.get (locations_state w) loc_id) as [l|] eqn:Hl;
    [|discriminate].
  injection Hv as Hin. apply mem_str_In in Hin.
  exists item, loc_id, l, inst. eexists.
  split; [reflexivity|]. split; [reflexivity|]. split; [exact Hl|].
  split; [exact Hinst|].
  split.
  - change (apply_event (Event.mk "grab" tick (NPC.id actor) [item] []) w)
      with (apply_grab (Event.mk "grab" tick (NPC.id actor) [item] []) w).
    apply (apply_grab_ok w _ (NPC.id actor) item loc_id [] actor l);
      try reflexivity; try assumption.
    intros ->. discriminate.
  - destruct (place_instance_frame item None (Some (NPC.id actor))
                (set_npc
                   (set_location w loc_id
                      (LocationState.with_items l
                         (remove_first item (LocationState.items l))))
                   (NPC.id actor)
                   (NPC.with_inventory actor (NPC.inventory actor ++ [item]))))
      as [Hn Hs].
    rewrite Hn, Hs. split; [|split].
    + unfold set_npc, WorldState.with_npcs. cbn [npcs]. apply get_set_same.
    + unfold set_npc, set_location, WorldState.with_npcs,
        WorldState.with_locations_state.
      cbn [locations_state]. apply get_set_same.
    + apply place_instance_get. exact Hinst.
Qed.

Lemma validated_grab_takes_item_witness :
  GrabTool_validate_intent [("item_id", VStr "sword")] Camp.world Camp.guard
  = Ok true
  /\ exists item loc_id l inst w',
       GrabTool_generate_events [("item_id", VStr "sword")] Camp.world
                                Camp.guard 7
       = Ok [Event.mk "grab" 7 (NPC.id Camp.guard) [item] []]
       /\ find_npc_location Camp.world (NPC.id Camp.guard) = Some loc_id
       /\ Dict.get (locations_state Camp.world) loc_id = Some l
       /\ Dict.get (item_instances Camp.world) item = Some inst
       /\ apply_event (Event.mk "grab" 7 (NPC.id Camp.guard) [item] [])
                      Camp.world
          = (Ok tt, w')
       /\ Dict.get (npcs w') (NPC.id Camp.guard)
          = Some (NPC.with_inventory Camp.guard
                    (NPC.inventory Camp.guard ++ [item]))
       /\ Dict.get (locations_state w') loc_id
          = Some (LocationState.with_items l
                    (remove_first item (LocationState.items l)))
       /\ Dict.get (item_instances w') item
          = Some (ItemInstance.with_place inst None
                    (Some (NPC.id Camp.guard))).
Proof.
  assert (Hv : GrabTool_validate_intent [("item_id", VStr "sword")]
                 Camp.world Camp.guard = Ok true)
    by (vm_compute; reflexivity).
  split; [exact Hv|].
  apply (validated_grab_takes_item _ _ _ 7 Hv). vm_compute. reflexivity.
Defined.

(** X19. The drop tool asks only whether the actor holds the item. An
    accepted drop by an actor that stands in no location yields one [drop]
    event whose application succeeds and changes nothing: the item stays in
    the inventory. *)
Theorem validated_drop_outside_any_location_is_lost (intent : dict pyval)
  (w : WorldState.t) (actor : NPC.t) (tick : Z) :
  DropTool_validate_intent intent w actor = Ok true ->
  find_npc_location w (NPC.id actor) = None ->
  exists item,
    In item (NPC.inventory actor)
    /\ DropTool_generate_events intent w actor tick
       = Ok [Event.mk "drop" tick (NPC.id actor) [item] []]
    /\ apply_event (Event.mk "drop" tick (NPC.id actor) [item] []) w
       = (Ok tt, w).
Proof.
  unfold DropTool_validate_intent, DropTool_generate_events, item_event,
    Dict.get_default.
  intros Hv Hloc.
  destruct (Dict.get intent "item_id") as [[|b|z|item|l]|];
    cbn [py_in_list] in Hv; try discriminate.
  injection Hv as Hin. apply mem_str_In in Hin.
  exists item. split; [exact Hin|]. split; [reflexivity|].
  change (apply_event (Event.mk "drop" tick (NPC.id actor) [item] []) w)
    with (apply_drop (Event.mk "drop" tick (NPC.id actor) [item] []) w).
  unfold apply_drop. cbn [Event.target_ids Event.actor_id]. now rewrite Hloc.
Qed.

Lemma validated_drop_outside_any_location_is_lost_witness :
  DropTool_validate_intent [("item_id", VStr "map")] (Town.world "open")
                           Town.npc_wanderer = Ok true
  /\ find_npc_location (Town.world "open") (NPC.id Town.npc_wanderer) = None
  /\ exists item,
       In item (NPC.inventory Town.npc_wanderer)
       /\ DropTool_generate_events [("item_id", VStr "map")]
            (Town.world "open") Town.npc_wanderer 1
          = Ok [Event.mk "drop" 1 (NPC.id Town.npc_wanderer) [item] []]
       /\ apply_event (Event.mk "drop" 1 (NPC.id Town.npc_wanderer) [item] [])
                      (Town.world "open")
          = (Ok tt, Town.world "open").
Proof.
  assert (Hv : DropTool_validate_intent [("item_id", VStr "map")]
                 (Town.world "open") Town.npc_wanderer = Ok true)
    by (vm_compute; reflexivity).
  assert (Hloc : find_npc_location (Town.world "open")
                   (NPC.id Town.npc_wanderer) = None)
    by (vm_compute; reflexivity).
  split; [exact Hv|]. split; [exact Hloc|].
  exact (validated_drop_outside_any_location_is_lost _ _ _ 1 Hv Hloc).
Defined.

Lemma ticks_ok_amount (v : pyval) :
  ticks_ok v = true -> exists n, py_int_operand v = Ok n /\ 1 <= n.
Proof.
  destruct v as [|b|z|s|l]; cbn [ticks_ok py_int_operand]; try discriminate.
  - intros ->. exists 1. split; [reflexivity|lia].
  - intros H. apply Z.leb_le in H. now exists z.
Qed.

Lemma ticks_ok_cost (params : dict pyval) (n : Z) :
  ticks_ok (Dict.get_default params "ticks" (VInt 1)) = true ->
  py_int_operand (Dict.get_default params "ticks" (VInt 1)) = Ok n ->
  wait_time_cost params = n.
Proof.
  unfold wait_time_cost.
  destruct (Dict.get_default params "ticks" (VInt 1)) as [|b|z|s|l];
    cbn [ticks_ok py_int_operand]; try discriminate.
  - intros -> [= <-]. reflexivity.
  - intros H [= <-]. apply Z.leb_le in H. lia.
Qed.

(** X20. Resting heals one hit point per tick of busy time, up to a cap,
    and the cap cuts both ways. For an actor registered under its own id, a
    rest the rest tool accepted names a number of ticks of at least one
    (the boolean true counting as one); that number is the time
    [process_command] charges for it, and applying the one [rest] event it
    yields sets the hit points to the smaller of the old hit points plus
    the ticks and max(1, 2 * constitution): an actor above the cap loses
    hit points by resting. *)
Theorem validated_rest_heals_up_to_cap (intent : dict pyval)
  (w : WorldState.t) (actor : NPC.t) (tick : Z) :
  RestTool_validate_intent intent w actor = Ok true ->
  Dict.get (npcs w) (NPC.id actor) = Some actor ->
  exists ticks e hp',
    1 <= ticks
    /\ wait_time_cost intent = ticks
    /\ RestTool_generate_events intent w actor tick = Ok [e]
    /\ Event.tick e = tick
    /\ apply_event e w
       = (Ok tt, set_npc w (NPC.id actor) (NPC.with_hp actor hp'))
    /\ hp' = Z.min (NPC.hp actor + ticks) (max_hp actor)
    /\ hp' <= max_hp actor
    /\ (NPC.hp actor < max_hp actor -> NPC.hp actor < hp')
    /\ (max_hp actor < NPC.hp actor -> hp' < NPC.hp actor).
Proof.
  unfold RestTool_validate_intent, RestTool_generate_events.
  intros [= Hok] Hactor.
  destruct (ticks_ok_amount _ Hok) as (n & Hn & Hpos).
  exists n. eexists. exists (Z.min (NPC.hp actor + n) (max_hp actor)).
  split; [exact Hpos|]. split; [now apply ticks_ok_cost|].
  split; [reflexivity|]. split; [reflexivity|].
  split.
  - match goal with
    | |- apply_event ?e w = _ => change (apply_event e w) with (apply_rest e w)
    end.
    unfold apply_rest. cbn [Event.actor_id Event.payload].
    rewrite Hactor.
    change (Dict.get_default
              [("ticks", Dict.get_default intent "ticks" (VInt 1));
               ("healed", Dict.get_default intent "ticks" (VInt 1))]
              "healed" (VInt 0))
      with (Dict.get_default intent "ticks" (VInt 1)).
    rewrite Hn. reflexivity.
  - split; [reflexivity|]. lia.
Qed.

Lemma validated_rest_heals_up_to_cap_witness :
  RestTool_validate_intent [("ticks", VInt 3)] Camp.world Camp.guard = Ok true
  /\ exists ticks e hp',
       1 <= ticks
       /\ wait_time_cost [("ticks", VInt 3)] = ticks
       /\ RestTool_generate_events [("ticks", VInt 3)] Camp.world Camp.guard 7
          = Ok [e]
       /\ Event.tick e = 7
       /\ apply_event e Camp.world
          = (Ok tt, set_npc Camp.world (NPC.id Camp.guard)
                            (NPC.with_hp Camp.guard hp'))
       /\ hp' = Z.min (NPC.hp Camp.guard + ticks) (max_hp Camp.guard)
       /\ hp' <= max_hp Camp.guard
       /\ (NPC.hp Camp.guard < max_hp Camp.guard -> NPC.hp Camp.guard < hp')
       /\ (max_hp Camp.guard < NPC.hp Camp.guard -> hp' < NPC.hp Camp.guard).
Proof.
  split; [reflexivity|].
  apply (validated_rest_heals_up_to_cap [("ticks", VInt 3)] Camp.world
           Camp.guard 7 eq_refl).
  vm_compute. reflexivity.
Defined.

Lemma handle_wait_is_idle (e : Event.t) (s : Simulator.t) :
  Event.event_type e = "wait" ->
  fst (handle_event e s) = Ok tt
  /\ Simulator.world (snd (handle_event e s)) = Simulator.world s
  /\ Simulator.event_queue (snd (handle_event e s)) = Simulator.event_queue s
  /\ Simulator.game_tick (snd (handle_event e s)) = Simulator.game_tick s
  /\ Simulator.starvation_enabled (snd (handle_event e s))
     = Simulator.starvation_enabled s
  /\ Simulator.rng (snd (handle_event e s)) = Simulator.rng s.
Proof.
  intros Ht. unfold handle_event, run_handler, record_perception.
  rewrite Ht. cbn. now repeat split.
Qed.

(** X21. Waiting only spends time. With the wait tool registered under
    its name, a wait command of a free actor (registered under its own id)
    whose ticks pass the tool's test is accepted: it appends one [wait]
    event and keeps the actor busy for exactly the ticks asked, whatever
    cost the tool was registered with. Handling a [wait] event succeeds
    and has no effect on the world, nobody perceiving it, nor on the queue,
    the clock, the starvation flag or the random generator (the conversation
    tables and the caches of the user interface, which [handle_event] also
    maintains, are outside this state). *)
Theorem wait_only_spends_time (s : Simulator.t) (actor_id : string)
  (actor : NPC.t) (params : dict pyval) (registered_cost : Z) :
  Dict.get (Simulator.tools s) "wait" = Some (WaitTool registered_cost) ->
  Dict.get (npcs (Simulator.world s)) actor_id = Some actor ->
  NPC.next_available_tick actor <= Simulator.game_tick s ->
  ticks_ok (Dict.get_default params "ticks" (VInt 1)) = true ->
  exists ticks e s',
    py_int_operand (Dict.get_default params "ticks" (VInt 1)) = Ok ticks
    /\ process_command actor_id (Command.mk (Some "wait") (Some params)) s
       = (Ok tt, s')
    /\ Event.event_type e = "wait"
    /\ Simulator.event_queue s' = Simulator.event_queue s ++ [e]
    /\ Dict.get (npcs (Simulator.world s')) actor_id
       = Some (NPC.with_next_available_tick actor
                 (Simulator.game_tick s + ticks))
    /\ forall s0,
         fst (handle_event e s0) = Ok tt
         /\ Simulator.world (snd (handle_event e s0)) = Simulator.world s0
         /\ Simulator.event_queue (snd (handle_event e s0))
            = Simulator.event_queue s0
         /\ Simulator.game_tick (snd (handle_event e s0))
            = Simulator.game_tick s0
         /\ Simulator.starvation_enabled (snd (handle_event e s0))
            = Simulator.starvation_enabled s0
         /\ Simulator.rng (snd (handle_event e s0)) = Simulator.rng s0.
Proof.
  intros Htool Hactor Hfree Hok.
  destruct (ticks_ok_amount _ Hok) as (n & Hn & Hpos).
  exists n.
  exists (Event.mk "wait" (Simulator.game_tick s) (NPC.id actor) []
            [("ticks", Dict.get_default params "ticks" (VInt 1))]).
  eexists. split; [exact Hn|].
  unfold process_command, get_npc, subscript.
  cbn [Command.tool Command.params].
  rewrite Htool, Hactor.
  destruct (Z.ltb_spec (Simulator.game_tick s) (NPC.next_available_tick actor));
    [lia|].
  replace (normalize_params "wait" params) with params by reflexivity.
  cbn [WaitTool Tool.validate_intent Tool.generate_events Tool.name
       Tool.time_cost WaitTool_validate_intent WaitTool_generate_events].
  rewrite Hok.
  replace (String.eqb "wait" "wait" || String.eqb "wait" "rest") with true
    by reflexivity.
  rewrite (ticks_ok_cost params n Hok Hn).
  split; [reflexivity|].
  unfold Simulator.with_world, Simulator.with_event_queue, set_npc,
    WorldState.with_npcs.
  cbn [Simulator.world Simulator.event_queue npcs].
  split; [reflexivity|]. split; [reflexivity|].
  split; [apply get_set_same|].
  intros s0. now apply handle_wait_is_idle.
Qed.

Lemma wait_only_spends_time_witness :
  exists ticks e s',
    py_int_operand (Dict.get_default [("ticks", VInt 4)] "ticks" (VInt 1))
    = Ok ticks
    /\ process_command "npc_guard"
         (Command.mk (Some "wait") (Some [("ticks", VInt 4)])) Camp.sim
       = (Ok tt, s')
    /\ Event.event_type e = "wait"
    /\ Simulator.event_queue s' = Simulator.event_queue Camp.sim ++ [e]
    /\ Dict.get (npcs (Simulator.world s')) "npc_guard"
       = Some (NPC.with_next_available_tick Camp.guard
                 (Simulator.game_tick Camp.sim + ticks))
    /\ forall s0,
         fst (handle_event e s0) = Ok tt
         /\ Simulator.world (snd (handle_event e s0)) = Simulator.world s0
         /\ Simulator.event_queue (snd (handle_event e s0))
            = Simulator.event_queue s0
         /\ Simulator.game_tick (snd (handle_event e s0))
            = Simulator.game_tick s0
         /\ Simulator.starvation_enabled (snd (handle_event e s0))
            = Simulator.starvation_enabled s0
         /\ Simulator.rng (snd (handle_event e s0)) = Simulator.rng s0.
Proof.
  apply (wait_only_spends_time Camp.sim "npc_guard" Camp.guard
           [("ticks", VInt 4)] 1).
  - reflexivity.
  - vm_compute. reflexivity.
  - vm_compute. discriminate.
  - reflexivity.
Defined.

Lemma fed_agents_raise_no_alarm (now fed : Z) (l : dict NPC.t) :
  now < fed + STARVING_THRESHOLD ->
  snd (hunger_loop now
         (map (fun kv => (fst kv,
                          NPC.with_last_meal_tick
                            (NPC.with_hunger_stage (snd kv) "sated") fed)) l))
  = [].
Proof.
  intros Hnow. rewrite hunger_loop_events.
  induction l as [|[k npc] r IH]; [reflexivity|].
  cbn [map flat_map fst snd]. rewrite IH, app_nil_r.
  unfold hunger_step.
  change (NPC.is_dead (NPC.with_last_meal_tick
                         (NPC.with_hunger_stage npc "sated") fed))
    with (NPC.is_dead npc).
  destruct (NPC.is_dead npc); [reflexivity|].
  change (NPC.last_meal_tick (NPC.with_last_meal_tick
                                (NPC.with_hunger_stage npc "sated") fed))
    with fed.
  destruct (Z.leb_spec STARVING_THRESHOLD (now - fed)); [lia|].
  now destruct (HUNGRY_THRESHOLD <=? now - fed).
Qed.

Lemma get_map_values {A B} (f : A -> B) (d : dict A) (k : string) :
  Dict.get (map (fun kv => (fst kv, f (snd kv))) d) k
  = option_map f (Dict.get d k).
Proof.
  induction d as [|[k0 v0] r IH]; [reflexivity|].
  cbn [map Dict.get fst snd]. now destruct (String.eqb k0 k).
Qed.

(** X22. Switching starvation off feeds everyone. Handling a
    [toggle_starvation] event whose [enabled] payload is falsy clears the
    flag, keeps the set of agents, and leaves every agent sated with its
    last meal stamped at the current tick; whenever hunger is updated less
    than 40 ticks later, it emits no starvation damage at all. *)
Theorem starvation_off_feeds_everyone (e : Event.t) (s : Simulator.t) :
  truthy (Dict.get_default (Event.payload e) "enabled" (VBool true)) = false ->
  exists s',
    _handle_toggle_starvation e s = (Ok tt, s')
    /\ Simulator.starvation_enabled s' = false
    /\ Simulator.game_tick s' = Simulator.game_tick s
    /\ Dict.keys (npcs (Simulator.world s'))
       = Dict.keys (npcs (Simulator.world s))
    /\ (forall k npc', Dict.get (npcs (Simulator.world s')) k = Some npc' ->
          NPC.hunger_stage npc' = "sated"
          /\ NPC.last_meal_tick npc' = Simulator.game_tick s)
    /\ (forall now, now < Simulator.game_tick s + STARVING_THRESHOLD ->
          fst (update_hunger (Simulator.world s') now) = []).
Proof.
  intros Hoff. unfold _handle_toggle_starvation. rewrite Hoff.
  eexists. split; [reflexivity|].
  unfold Simulator.with_world, Simulator.with_starvation_enabled,
    WorldState.with_npcs.
  cbn [Simulator.world Simulator.starvation_enabled Simulator.game_tick npcs].
  split; [reflexivity|]. split; [reflexivity|]. split; [|split].
  - unfold Dict.keys. rewrite map_map. reflexivity.
  - intros k npc'.
    rewrite (get_map_values
               (fun n => NPC.with_last_meal_tick
                           (NPC.with_hunger_stage n "sated")
                           (Simulator.game_tick s))).
    destruct (Dict.get (npcs (Simulator.world s)) k) as [npc|];
      [|discriminate].
    intros [= <-]. split; reflexivity.
  - intros now Hnow. unfold update_hunger. cbn [npcs].
    pose proof (fed_agents_raise_no_alarm now (Simulator.game_tick s)
                  (npcs (Simulator.world s)) Hnow) as H.
    destruct (hunger_loop now _) as [npcs' events]. exact H.
Qed.

Lemma starvation_off_feeds_everyone_witness :
  exists s',
    _handle_toggle_starvation
      (Event.mk "toggle_starvation" 7 "npc_guard" []
                [("enabled", VBool false)]) Camp.sim
    = (Ok tt, s')
    /\ Simulator.starvation_enabled s' = false
    /\ Simulator.game_tick s' = Simulator.game_tick Camp.sim
    /\ Dict.keys (npcs (Simulator.world s'))
       = Dict.keys (npcs (Simulator.world Camp.sim))
    /\ (forall k npc', Dict.get (npcs (Simulator.world s')) k = Some npc' ->
          NPC.hunger_stage npc' = "sated"
          /\ NPC.last_meal_tick npc' = Simulator.game_tick Camp.sim)
    /\ (forall now, now < Simulator.game_tick Camp.sim + STARVING_THRESHOLD ->
          fst (update_hunger (Simulator.world s') now) = []).
Proof.
  apply (starvation_off_feeds_everyone
           (Event.mk "toggle_starvation" 7 "npc_guard" []
                     [("enabled", VBool false)]) Camp.sim).
  reflexivity.
Defined.

(** X23. A tool registered with no time cost leaves its actor free: the
    starvation toggle, whose default cost is zero, can be issued by the same
    actor (registered under its own id) twice at the same tick, and both
    commands are accepted and enqueue the same event. The bound of one tick
    per tool in the busy rule is therefore needed. *)
Theorem free_toggle_can_be_repeated (s : Simulator.t) (actor_id : string)
  (actor : NPC.t) (enabled : bool) :
  let c := Command.mk (Some "toggle_starvation")
                      (Some [("enabled", VBool enabled)]) in
  let e := Event.mk "toggle_starvation" (Simulator.game_tick s) (NPC.id actor)
                    [] [("enabled", VBool enabled)] in
  Dict.get (Simulator.tools s) "toggle_starvation"
  = Some (ToggleStarvationTool 0) ->
  Dict.get (npcs (Simulator.world s)) actor_id = Some actor ->
  NPC.next_available_tick actor <= Simulator.game_tick s ->
  exists s' s'',
    process_command actor_id c s = (Ok tt, s')
    /\ process_command actor_id c s' = (Ok tt, s'')
    /\ Simulator.event_queue s'' = Simulator.event_queue s ++ [e; e].
Proof.
  intros c e Htool Hactor Hfree.
  assert (Hstep : forall s0 a0,
            Dict.get (Simulator.tools s0) "toggle_starvation"
            = Some (ToggleStarvationTool 0) ->
            Dict.get (npcs (Simulator.world s0)) actor_id = Some a0 ->
            NPC.next_available_tick a0 <= Simulator.game_tick s0 ->
            process_command actor_id c s0
            = (Ok tt,
               Simulator.with_world
                 (Simulator.with_event_queue s0
                    (Simulator.event_queue s0
                     ++ [Event.mk "toggle_starvation" (Simulator.game_tick s0)
                           (NPC.id a0) [] [("enabled", VBool enabled)]]))
                 (set_npc (Simulator.world s0) actor_id
                    (NPC.with_next_available_tick a0
                       (Simulator.game_tick s0 + 0))))).
  { intros s0 a0 Ht Ha Hf. unfold process_command, get_npc, subscript.
    cbn [c Command.tool Command.params]. rewrite Ht, Ha.
    destruct (Z.ltb_spec (Simulator.game_tick s0) (NPC.next_available_tick a0));
      [lia|].
    reflexivity. }
  eexists. eexists. split; [apply (Hstep s actor Htool Hactor Hfree)|].
  split.
  - apply Hstep.
    + exact Htool.
    + unfold Simulator.with_world, set_npc, WorldState.with_npcs.
      cbn [Simulator.world npcs]. apply get_set_same.
    + cbn. lia.
  - cbn [Simulator.with_world Simulator.with_event_queue Simulator.event_queue
         Simulator.game_tick Simulator.world].
    rewrite <- app_assoc. reflexivity.
Qed.

Lemma free_toggle_can_be_repeated_witness :
  exists s' s'',
    process_command "npc_guard"
      (Command.mk (Some "toggle_starvation") (Some [("enabled", VBool false)]))
      Camp.sim = (Ok tt, s')
    /\ process_command "npc_guard"
         (Command.mk (Some "toggle_starvation")
                     (Some [("enabled", VBool false)])) s' = (Ok tt, s'')
    /\ Simulator.event_queue s''
       = Simulator.event_queue Camp.sim
         ++ [Event.mk "toggle_starvation" (Simulator.game_tick Camp.sim)
               (NPC.id Camp.guard) [] [("enabled", VBool false)];
             Event.mk "toggle_starvation" (Simulator.game_tick Camp.sim)
               (NPC.id Camp.guard) [] [("enabled", VBool false)]].
Proof.
  apply (free_toggle_can_be_repeated Camp.sim "npc_guard" Camp.guard false).
  - reflexivity.
  - vm_compute. reflexivity.
  - vm_compute. discriminate.
Defined.

(** ** Conversations *)

Lemma filter_all {A} (f : A -> bool) (l : list A) :
  (forall x, In x l -> f x = true) -> filter f l = l.
Proof.
  induction l as [|a r IH]; intros H; [reflexivity|].
  cbn [filter]. rewrite (H a (or_introl eq_refl)).
  f_equal. apply IH. intros x Hx. apply H. now right.
Qed.

Lemma advance_keeps (now : Z) (cid : string) (hint : option string)
  (t : Talks.t) (convo : Convo.t) (x : string) (q : list string) :
  Dict.get (Talks.conversations t) cid = Some convo ->
  next_in_line convo hint = x :: q -> x <> "" ->
  (2 <= List.length (Convo.participants convo))%nat ->
  _advance_conversation_turn now cid hint t
  = Talks.with_conversations t
      (Dict.set (Talks.conversations t) cid
         (Convo.with_last_interaction_tick
            (Convo.with_current_speaker (Convo.with_turn_order convo q)
                                        (Some x)) now)).
Proof.
  intros Hget Hline Hx Hlen. unfold _advance_conversation_turn, update_convo.
  rewrite Hget, Hline. cbn [hd_error tl truthy_ostr].
  destruct (Nat.ltb_spec (List.length (Convo.participants convo)) 2); [lia|].
  rewrite (truthy_str_nonempty x Hx). reflexivity.
Qed.

Lemma is_speaker_false (current : option string) (p : string) :
  current <> Some p -> is_speaker current p = false.
Proof.
  destruct current as [c|]; [|reflexivity]. cbn [is_speaker].
  intros H. destruct (String.eqb_spec p c); [subst; contradiction|reflexivity].
Qed.

Lemma next_in_line_hint (convo : Convo.t) (h : string) :
  h <> "" -> In h (Convo.participants convo) ->
  Convo.current_speaker convo <> Some h ->
  exists q,
    next_in_line convo (Some h) = h :: q /\ ~ In h q
    /\ (forall c, Convo.current_speaker convo = Some c -> c <> "" ->
                  In c (Convo.participants convo) -> exists q0, q = q0 ++ [c]).
Proof.
  intros Hh Hin Hcur. unfold next_in_line.
  apply mem_str_In in Hin.
  rewrite (truthy_str_nonempty h Hh), Hin, (is_speaker_false _ _ Hcur).
  cbn [negb andb].
  set (q1 := filter (fun pid => negb (String.eqb pid h)) _).
  assert (Hq1 : ~ In h q1).
  { unfold q1. intros H. apply filter_In in H. destruct H as [_ H].
    now rewrite String.eqb_refl in H. }
  destruct (Convo.current_speaker convo) as [c|] eqn:Hc.
  - destruct (truthy_str c && mem_str c (Convo.participants convo)) eqn:Hkeep.
    + exists (q1 ++ [c]). split; [reflexivity|]. split.
      * intros H. apply in_app_or in H. destruct H as [H|[H|[]]];
          [now apply Hq1|]. subst. now apply Hcur.
      * intros c0 [= <-] _ _. now exists q1.
    + exists q1. split; [reflexivity|]. split; [exact Hq1|].
      intros c0 [= <-] Hc0 Hc1. apply mem_str_In in Hc1.
      rewrite (truthy_str_nonempty c Hc0), Hc1 in Hkeep. discriminate.
  - exists q1. split; [reflexivity|]. split; [exact Hq1|]. discriminate.
Qed.

(** X24. Whoever is addressed speaks next. When the turn of a
    conversation with at least two participants advances with a hint that
    names a participant with a non-empty id other than the current speaker,
    the hinted participant gets the floor whatever the queue was, is not
    left waiting in the queue, and a current speaker who is a participant
    with a non-empty id goes to the end of the queue; the participants and
    the bindings of the actors stay, and the conversation is stamped with
    the current tick. *)
Theorem addressed_participant_speaks_next (now : Z) (cid h : string)
  (t : Talks.t) (convo : Convo.t) :
  Dict.get (Talks.conversations t) cid = Some convo ->
  (2 <= List.length (Convo.participants convo))%nat ->
  h <> "" -> In h (Convo.participants convo) ->
  Convo.current_speaker convo <> Some h ->
  exists convo',
    Dict.get (Talks.conversations
                (_advance_conversation_turn now cid (Some h) t)) cid
    = Some convo'
    /\ Convo.current_speaker convo' = Some h
    /\ ~ In h (Convo.turn_order convo')
    /\ (forall c, Convo.current_speaker convo = Some c -> c <> "" ->
                  In c (Convo.participants convo) ->
                  exists q0, Convo.turn_order convo' = q0 ++ [c])
    /\ Convo.participants convo' = Convo.participants convo
    /\ Convo.last_interaction_tick convo' = now
    /\ Talks.actor_conversation (_advance_conversation_turn now cid (Some h) t)
       = Talks.actor_conversation t.
Proof.
  intros Hget Hlen Hh Hin Hcur.
  destruct (next_in_line_hint convo h Hh Hin Hcur) as (q & Hq & Hnot & Hlast).
  rewrite (advance_keeps now cid (Some h) t convo h q Hget Hq Hh Hlen).
  eexists. unfold Talks.with_conversations.
  cbn [Talks.conversations Talks.actor_conversation].
  split; [apply get_set_same|].
  repeat split; try reflexivity; assumption.
Qed.

Lemma addressed_participant_speaks_next_witness :
  exists convo',
    Dict.get (Talks.conversations
                (_advance_conversation_turn 9 "convo_a_1" (Some "c")
                                            Chat.talks)) "convo_a_1"
    = Some convo'
    /\ Convo.current_speaker convo' = Some "c"
    /\ ~ In "c" (Convo.turn_order convo')
    /\ (forall c, Convo.current_speaker Chat.trio = Some c -> c <> "" ->
                  In c (Convo.participants Chat.trio) ->
                  exists q0, Convo.turn_order convo' = q0 ++ [c])
    /\ Convo.participants convo' = Convo.participants Chat.trio
    /\ Convo.last_interaction_tick convo' = 9
    /\ Talks.actor_conversation
         (_advance_conversation_turn 9 "convo_a_1" (Some "c") Chat.talks)
       = Talks.actor_conversation Chat.talks.
Proof.
  apply (addressed_participant_speaks_next 9 "convo_a_1" "c" Chat.talks
           Chat.trio).
  - reflexivity.
  - cbn. lia.
  - discriminate.
  - cbn. auto.
  - discriminate.
Defined.

Lemma rotate_through (a b : list string) :
  Nat.iter (List.length a) rotate (a ++ b) = b ++ a.
Proof.
  revert b. induction a as [|x a IH]; intros b;
    [now rewrite app_nil_r|].
  cbn [List.length]. rewrite Nat.iter_succ_r. cbn [app rotate].
  rewrite <- app_assoc, IH, <- app_assoc. reflexivity.
Qed.

Lemma rotate_full (l : list string) : Nat.iter (List.length l) rotate l = l.
Proof.
  pose proof (rotate_through l []) as H. now rewrite app_nil_r in H.
Qed.

Lemma orderly_step (now : Z) (cid : string) (t : Talks.t) (convo : Convo.t) :
  Dict.get (Talks.conversations t) cid = Some convo -> orderly convo ->
  exists convo',
    _advance_conversation_turn now cid None t
    = Talks.with_conversations t (Dict.set (Talks.conversations t) cid convo')
    /\ speaking_order convo' = rotate (speaking_order convo)
    /\ Convo.participants convo' = Convo.participants convo
    /\ orderly convo'.
Proof.
  intros Hget (Hcur & Hlen & Hnd & Hall). unfold speaking_order in *.
  destruct (Convo.current_speaker convo) as [c|] eqn:Hc; [|contradiction].
  destruct (Convo.turn_order convo) as [|x q] eqn:Hq; [cbn in Hlen; lia|].
  assert (Hline : next_in_line convo None = x :: q ++ [c]).
  { unfold next_in_line. rewrite Hc, Hq.
    inversion Hall as [|? ? [Hcin Hcne] Hrest]; subst.
    apply mem_str_In in Hcin. rewrite (truthy_str_nonempty c Hcne), Hcin.
    cbn [andb]. rewrite filter_all; [reflexivity|].
    intros p Hp. rewrite Forall_forall in Hrest.
    destruct (Hrest p Hp) as [Hpin _]. apply mem_str_In in Hpin.
    rewrite Hpin. cbn [andb is_speaker].
    destruct (String.eqb_spec p c); [|reflexivity].
    subst. inversion Hnd; contradiction. }
  assert (Hx : x <> "").
  { inversion Hall as [|? ? _ Hrest]; subst.
    inversion Hrest as [|? ? [_ Hne] _]; subst. exact Hne. }
  assert (Hpart : (2 <= List.length (Convo.participants convo))%nat).
  { transitivity (List.length (c :: x :: q)); [exact Hlen|].
    apply NoDup_incl_length; [exact Hnd|].
    intros p Hp. rewrite Forall_forall in Hall. now apply Hall. }
  eexists. split; [apply (advance_keeps now cid None t convo x _ Hget Hline Hx Hpart)|].
  cbn [Convo.with_last_interaction_tick Convo.with_current_speaker
       Convo.with_turn_order Convo.current_speaker Convo.turn_order
       Convo.participants rotate].
  assert (Hperm : Permutation (c :: x :: q) (x :: q ++ [c])).
  { change (x :: q ++ [c]) with ((x :: q) ++ [c]).
    apply Permutation_cons_append. }
  split; [reflexivity|]. split; [reflexivity|].
  unfold orderly, speaking_order.
  cbn [Convo.with_last_interaction_tick Convo.with_current_speaker
       Convo.with_turn_order Convo.current_speaker Convo.turn_order
       Convo.participants].
  split; [discriminate|]. split.
  - rewrite <- (Permutation_length Hperm). exact Hlen.
  - split; [exact (Permutation_NoDup Hperm Hnd)|].
    exact (Permutation_Forall Hperm Hall).
Qed.

Lemma orderly_steps (now : Z) (cid : string) (t : Talks.t) (convo : Convo.t)
  (k : nat) :
  Dict.get (Talks.conversations t) cid = Some convo -> orderly convo ->
  exists convo_k,
    Dict.get (Talks.conversations
                (Nat.iter k (_advance_conversation_turn now cid None) t)) cid
    = Some convo_k
    /\ speaking_order convo_k = Nat.iter k rotate (speaking_order convo)
    /\ Convo.participants convo_k = Convo.participants convo
    /\ orderly convo_k
    /\ Talks.actor_conversation
         (Nat.iter k (_advance_conversation_turn now cid None) t)
       = Talks.actor_conversation t.
Proof.
  intros Hget Hord. induction k as [|k IH].
  - exists convo. cbn [Nat.iter nat_rect].
    split; [exact Hget|]. split; [reflexivity|]. split; [reflexivity|].
    split; [exact Hord|reflexivity].
  - destruct IH as (ck & Hgk & Hsk & Hpk & Hok & Hak).
    destruct (orderly_step now cid _ ck Hgk Hok) as (c' & Hstep & Hs & Hp & Ho).
    exists c'. rewrite !Nat.iter_succ, Hstep.
    unfold Talks.with_conversations.
    cbn [Talks.conversations Talks.actor_conversation].
    split; [apply get_set_same|]. split; [now rewrite Hs, Hsk|].
    split; [congruence|]. split; [exact Ho|exact Hak].
Qed.

(** X25. Turns go round. In a conversation in good order (somebody has the
    floor, at least one other waits, nobody is listed twice, and all of them
    are participants with a non-empty id), advancing the turn without a hint
    gives the floor to the head of the queue and sends the previous speaker
    to its end, keeps the conversation in good order, and leaves the
    participants and the bindings of the actors alone; after as many turns
    as there are speakers, the same participant has the floor again and the
    queue is what it was. *)
Theorem turns_go_round (now : Z) (cid : string) (t : Talks.t)
  (convo : Convo.t) :
  Dict.get (Talks.conversations t) cid = Some convo -> orderly convo ->
  (forall k, exists convo_k,
      Dict.get (Talks.conversations
                  (Nat.iter k (_advance_conversation_turn now cid None) t)) cid
      = Some convo_k
      /\ speaking_order convo_k = Nat.iter k rotate (speaking_order convo)
      /\ Convo.participants convo_k = Convo.participants convo
      /\ orderly convo_k
      /\ Talks.actor_conversation
           (Nat.iter k (_advance_conversation_turn now cid None) t)
         = Talks.actor_conversation t)
  /\ exists convo_n,
      Dict.get (Talks.conversations
                  (Nat.iter (List.length (speaking_order convo))
                            (_advance_conversation_turn now cid None) t)) cid
      = Some convo_n
      /\ Convo.current_speaker convo_n = Convo.current_speaker convo
      /\ Convo.turn_order convo_n = Convo.turn_order convo.
Proof.
  intros Hget Hord. split; [intros k; now apply orderly_steps|].
  destruct (orderly_steps now cid t convo (List.length (speaking_order convo))
              Hget Hord) as (cn & Hgn & Hsn & _ & Hon & _).
  exists cn. split; [exact Hgn|]. rewrite rotate_full in Hsn.
  destruct Hord as (Hc & _). destruct Hon as (Hcn & _).
  unfold speaking_order in Hsn.
  destruct (Convo.current_speaker convo); [|contradiction].
  destruct (Convo.current_speaker cn); [|contradiction].
  injection Hsn as -> ->. now split.
Qed.

Lemma turns_go_round_witness :
  exists convo_n,
    Dict.get (Talks.conversations
                (Nat.iter (List.length (speaking_order Chat.trio))
                          (_advance_conversation_turn 9 "convo_a_1" None)
                          Chat.talks)) "convo_a_1"
    = Some convo_n
    /\ Convo.current_speaker convo_n = Convo.current_speaker Chat.trio
    /\ Convo.turn_order convo_n = Convo.turn_order Chat.trio.
Proof.
  apply (turns_go_round 9 "convo_a_1" Chat.talks Chat.trio); [reflexivity|].
  split; [discriminate|]. split; [cbn; lia|]. split.
  - cbn. repeat constructor; cbn; intuition discriminate.
  - cbn. repeat constructor; cbn; auto; discriminate.
Defined.

Lemma pop_absent {V} (d : dict V) (k : string) :
  Dict.get d k = None -> Dict.pop d k = d.
Proof.
  induction d as [|[k0 v0] r IH]; [reflexivity|]. cbn [Dict.get Dict.pop].
  destruct (String.eqb k0 k); [discriminate|]. intros H. now rewrite IH.
Qed.

Lemma get_pop_other {V} (d : dict V) (k k' : string) :
  k <> k' -> Dict.get (Dict.pop d k') k = Dict.get d k.
Proof.
  intros Hne. induction d as [|[k0 v0] r IH]; [reflexivity|].
  cbn [Dict.get Dict.pop].
  destruct (String.eqb_spec k0 k').
  - subst. destruct (String.eqb_spec k' k); [subst; contradiction|reflexivity].
  - cbn [Dict.get]. now rewrite IH.
Qed.

Lemma keys_pop_incl {V} (d : dict V) (k x : string) :
  In x (Dict.keys (Dict.pop d k)) -> In x (Dict.keys d).
Proof.
  unfold Dict.keys. induction d as [|[k0 v0] r IH]; [auto|].
  cbn [Dict.pop]. destruct (String.eqb k0 k); cbn [map fst In]; intuition.
Qed.

Lemma nodup_keys_pop {V} (d : dict V) (k : string) :
  NoDup (Dict.keys d) -> NoDup (Dict.keys (Dict.pop d k)).
Proof.
  unfold Dict.keys. induction d as [|[k0 v0] r IH]; [auto|].
  cbn [Dict.pop map fst]. intros H. inversion H as [|? ? Hn Hr]; subst.
  destruct (String.eqb k0 k); [exact Hr|]. cbn [map fst]. constructor.
  - intros Hin. apply Hn. exact (keys_pop_incl r k k0 Hin).
  - now apply IH.
Qed.

Lemma fold_pop_cons {V} (ks : list string) (k : string) (v : V) (r : dict V) :
  ~ In k ks ->
  fold_left (fun d x => Dict.pop d x) ks ((k, v) :: r)
  = (k, v) :: fold_left (fun d x => Dict.pop d x) ks r.
Proof.
  revert r. induction ks as [|k0 ks IH]; intros r Hk; [reflexivity|].
  cbn [fold_left Dict.pop].
  destruct (String.eqb_spec k k0); [subst; exfalso; apply Hk; now left|].
  apply IH. intros H. apply Hk. now right.
Qed.

Lemma fold_pop_filter {V} (f : string * V -> bool) (d : dict V) :
  NoDup (Dict.keys d) ->
  fold_left (fun d x => Dict.pop d x) (map fst (filter f d)) d
  = filter (fun kv => negb (f kv)) d.
Proof.
  unfold Dict.keys. induction d as [|[k v] r IH]; [reflexivity|].
  cbn [map fst filter]. intros H. inversion H as [|? ? Hn Hr]; subst.
  destruct (f (k, v)); cbn [negb map fst fold_left Dict.pop].
  - rewrite String.eqb_refl. now apply IH.
  - rewrite fold_pop_cons; [now rewrite IH|].
    intros Hin. apply Hn. apply in_map_iff in Hin.
    destruct Hin as ([k' v'] & Hk & Hin). apply filter_In in Hin.
    apply in_map_iff. exists (k', v'). now split.
Qed.

Lemma get_filter {V} (g : string * V -> bool) (d : dict V) (k : string) (v : V) :
  NoDup (Dict.keys d) ->
  Dict.get (filter g d) k = Some v
  <-> Dict.get d k = Some v /\ g (k, v) = true.
Proof.
  unfold Dict.keys. induction d as [|[k0 v0] r IH]; intros H.
  - cbn. split; [discriminate|intros [? _]; discriminate].
  - inversion H as [|? ? Hn Hr]; subst. cbn [filter Dict.get].
    destruct (String.eqb_spec k0 k).
    + subst k0. destruct (g (k, v0)) eqn:Hg.
      * cbn [Dict.get]. rewrite String.eqb_refl. split.
        -- intros [= <-]. now split.
        -- now intros [? _].
      * split.
        -- intros Hget. exfalso. apply Hn. apply in_map_iff.
           exists (k, v). split; [reflexivity|].
           apply get_In in Hget. apply filter_In in Hget. tauto.
        -- intros [[= <-] Hg']. congruence.
    + destruct (g (k0, v0)).
      * cbn [Dict.get]. destruct (String.eqb_spec k0 k); [contradiction|].
        now apply IH.
      * now apply IH.
Qed.

Lemma release_all_conversations (cid : string) (ps : list string)
  (t : Talks.t) :
  Talks.conversations (fold_left (release cid) ps t) = Talks.conversations t.
Proof.
  revert t. induction ps as [|p ps IH]; intros t; [reflexivity|].
  cbn [fold_left]. rewrite IH. unfold release.
  destruct (Dict.get (Talks.actor_conversation t) p) as [c|]; [|reflexivity].
  now destruct (String.eqb c cid).
Qed.

Lemma dissolve_conversations (cid : string) (t : Talks.t) :
  Talks.conversations (_dissolve_conversation cid t)
  = Dict.pop (Talks.conversations t) cid.
Proof.
  unfold _dissolve_conversation.
  destruct (Dict.get (Talks.conversations t) cid) as [convo|] eqn:H.
  - now rewrite release_all_conversations.
  - now rewrite pop_absent.
Qed.

Lemma dissolve_all_conversations (cids : list string) (t : Talks.t) :
  Talks.conversations (fold_left (fun t cid => _dissolve_conversation cid t)
                                 cids t)
  = fold_left (fun d x => Dict.pop d x) cids (Talks.conversations t).
Proof.
  revert t. induction cids as [|c cs IH]; intros t; [reflexivity|].
  cbn [fold_left]. now rewrite IH, dissolve_conversations.
Qed.

(** X26. The sweep removes exactly the idle conversations. With distinct
    conversation ids, [_gc_conversations] leaves in the table, in their
    order and unchanged, the conversations that were active within the
    timeout and that either have no location or still have at least two
    participants standing in it; all the others are gone. *)
Theorem gc_removes_exactly_the_idle (w : WorldState.t) (now timeout : Z)
  (t : Talks.t) :
  NoDup (Dict.keys (Talks.conversations t)) ->
  Talks.conversations (_gc_conversations w now timeout t)
  = filter (fun kv => negb (to_remove w now timeout (snd kv)))
           (Talks.conversations t)
  /\ forall cid convo,
       Dict.get (Talks.conversations (_gc_conversations w now timeout t)) cid
       = Some convo
       <-> Dict.get (Talks.conversations t) cid = Some convo
           /\ now - Convo.last_interaction_tick convo <= timeout
           /\ (truthy_ostr (Convo.location_id convo) = true ->
               (2 <= List.length
                       (filter (stands_in w (Convo.location_id convo))
                               (Convo.participants convo)))%nat).
Proof.
  intros Hnd.
  assert (Heq : Talks.conversations (_gc_conversations w now timeout t)
                = filter (fun kv => negb (to_remove w now timeout (snd kv)))
                         (Talks.conversations t)).
  { unfold _gc_conversations. rewrite dissolve_all_conversations.
    now apply fold_pop_filter. }
  split; [exact Heq|]. intros cid convo. rewrite Heq.
  rewrite (get_filter _ _ cid convo Hnd). cbn [snd]. unfold to_remove.
  destruct (Z.ltb_spec timeout (now - Convo.last_interaction_tick convo)).
  - cbn [negb]. split; [intros [_ H']; discriminate|intros (_ & H' & _); lia].
  - destruct (truthy_ostr (Convo.location_id convo)); cbn [negb].
    + destruct (Nat.ltb_spec
                  (List.length (filter (stands_in w (Convo.location_id convo))
                                       (Convo.participants convo))) 2);
        cbn [negb].
      * split; [intros [_ H']; discriminate|].
        intros (_ & _ & H'). specialize (H' eq_refl). lia.
      * split; [intros [Hg _]; repeat split; auto|intros (Hg & _); now split].
    + split; [intros [Hg _]; repeat split; auto; discriminate
             |intros (Hg & _); now split].
Qed.

Lemma gc_removes_exactly_the_idle_witness :
  Talks.conversations (_gc_conversations (Town.world "open") 10 300 Chat.talks)
  = filter (fun kv => negb (to_remove (Town.world "open") 10 300 (snd kv)))
           (Talks.conversations Chat.talks)
  /\ forall cid convo,
       Dict.get (Talks.conversations
                   (_gc_conversations (Town.world "open") 10 300 Chat.talks))
                cid = Some convo
       <-> Dict.get (Talks.conversations Chat.talks) cid = Some convo
           /\ 10 - Convo.last_interaction_tick convo <= 300
           /\ (truthy_ostr (Convo.location_id convo) = true ->
               (2 <= List.length
                       (filter (stands_in (Town.world "open")
                                          (Convo.location_id convo))
                               (Convo.participants convo)))%nat).
Proof.
  apply (gc_removes_exactly_the_idle (Town.world "open") 10 300 Chat.talks).
  cbn. repeat constructor; cbn; intuition discriminate.
Defined.

Lemma remove_first_absent (x : string) (l : list string) :
  ~ In x l -> remove_first x l = l.
Proof.
  induction l as [|y r IH]; [reflexivity|]. cbn [remove_first In].
  intros H. destruct (String.eqb_spec x y); [subst; tauto|].
  rewrite IH; [reflexivity|tauto].
Qed.

Lemma remove_first_incl (x y : string) (l : list string) :
  In y (remove_first x l) -> In y l.
Proof.
  induction l as [|z r IH]; [auto|]. cbn [remove_first].
  destruct (String.eqb x z); cbn [In]; intuition.
Qed.

Lemma remove_first_nodup (x : string) (l : list string) :
  NoDup l -> ~ In x (remove_first x l).
Proof.
  induction 1 as [|z r Hz Hr IH]; [auto|]. cbn [remove_first].
  destruct (String.eqb_spec x z); [now subst|].
  cbn [In]. intros [H|H]; [now subst|now apply IH].
Qed.

Lemma update_convo_present (cid : string) (f : Convo.t -> Convo.t)
  (t : Talks.t) (c : Convo.t) :
  Dict.get (Talks.conversations t) cid = Some c ->
  update_convo cid f t
  = Talks.with_conversations t (Dict.set (Talks.conversations t) cid (f c)).
Proof. intros H. unfold update_convo. now rewrite H. Qed.

Lemma update_convo_absent (cid : string) (f : Convo.t -> Convo.t)
  (t : Talks.t) :
  Dict.get (Talks.conversations t) cid = None -> update_convo cid f t = t.
Proof. intros H. unfold update_convo. now rewrite H. Qed.

Lemma dissolve_absent (cid : string) (t : Talks.t) :
  Dict.get (Talks.conversations t) cid = None ->
  _dissolve_conversation cid t = t.
Proof. intros H. unfold _dissolve_conversation. now rewrite H. Qed.

Lemma release_get (cid p0 : string) (t : Talks.t) :
  NoDup (Dict.keys (Talks.actor_conversation t)) ->
  NoDup (Dict.keys (Talks.actor_conversation (release cid t p0)))
  /\ forall p,
       Dict.get (Talks.actor_conversation (release cid t p0)) p
       = match Dict.get (Talks.actor_conversation t) p with
         | Some c => if String.eqb c cid && String.eqb p p0 then None
                     else Some c
         | None => None
         end.
Proof.
  intros Hnd. unfold release.
  destruct (Dict.get (Talks.actor_conversation t) p0) as [c0|] eqn:H0.
  - destruct (String.eqb_spec c0 cid).
    + subst c0. unfold forget_actor, Talks.with_actor_conversation.
      cbn [Talks.actor_conversation].
      split; [now apply nodup_keys_pop|]. intros p.
      destruct (String.eqb_spec p p0).
      * subst p. rewrite (get_pop_same _ _ Hnd), H0.
        now rewrite String.eqb_refl.
      * rewrite (get_pop_other _ _ _ n).
        destruct (Dict.get (Talks.actor_conversation t) p); [|reflexivity].
        now rewrite andb_false_r.
    + split; [exact Hnd|]. intros p.
      destruct (String.eqb_spec p p0).
      * subst p. rewrite H0.
        destruct (String.eqb_spec c0 cid); [contradiction|reflexivity].
      * destruct (Dict.get (Talks.actor_conversation t) p); [|reflexivity].
        now rewrite andb_false_r.
  - split; [exact Hnd|]. intros p.
    destruct (String.eqb_spec p p0).
    + subst p. now rewrite H0.
    + destruct (Dict.get (Talks.actor_conversation t) p); [|reflexivity].
      now rewrite andb_false_r.
Qed.

Lemma release_all_get (cid : string) (ps : list string) (t : Talks.t) :
  NoDup (Dict.keys (Talks.actor_conversation t)) ->
  NoDup (Dict.keys (Talks.actor_conversation (fold_left (release cid) ps t)))
  /\ forall p,
       Dict.get (Talks.actor_conversation (fold_left (release cid) ps t)) p
       = match Dict.get (Talks.actor_conversation t) p with
         | Some c => if String.eqb c cid && mem_str p ps then None else Some c
         | None => None
         end.
Proof.
  revert t. induction ps as [|p0 ps IH]; intros t Hnd.
  - split; [exact Hnd|]. intros p. cbn [fold_left mem_str existsb].
    destruct (Dict.get (Talks.actor_conversation t) p); [|reflexivity].
    now rewrite andb_false_r.
  - cbn [fold_left]. destruct (release_get cid p0 t Hnd) as [Hnd1 H1].
    destruct (IH _ Hnd1) as [Hnd2 H2]. split; [exact Hnd2|].
    intros p. rewrite H2, H1. unfold mem_str. cbn [existsb].
    destruct (Dict.get (Talks.actor_conversation t) p) as [c|]; [|reflexivity].
    destruct (String.eqb c cid) eqn:E; cbn [andb]; [|now rewrite E].
    destruct (String.eqb p p0); cbn [orb]; [reflexivity|].
    now rewrite E.
Qed.

Lemma dissolve_get (cid : string) (t : Talks.t) (convo : Convo.t) :
  Dict.get (Talks.conversations t) cid = Some convo ->
  NoDup (Dict.keys (Talks.actor_conversation t)) ->
  NoDup (Dict.keys (Talks.actor_conversation (_dissolve_conversation cid t)))
  /\ forall p,
       Dict.get (Talks.actor_conversation (_dissolve_conversation cid t)) p
       = match Dict.get (Talks.actor_conversation t) p with
         | Some c => if String.eqb c cid
                        && mem_str p (Convo.participants convo)
                     then None else Some c
         | None => None
         end.
Proof.
  intros Hget Hnd. unfold _dissolve_conversation. rewrite Hget.
  apply (release_all_get cid (Convo.participants convo)
           (Talks.with_conversations t (Dict.pop (Talks.conversations t) cid))).
  exact Hnd.
Qed.

Lemma advance_cases (now : Z) (cid : string) (hint : option string)
  (t : Talks.t) (convo : Convo.t) :
  Dict.get (Talks.conversations t) cid = Some convo ->
  _advance_conversation_turn now cid hint t
  = let t1 :=
      Talks.with_conversations t
        (Dict.set (Talks.conversations t) cid
           (Convo.with_last_interaction_tick
              (Convo.with_current_speaker
                 (Convo.with_turn_order convo (tl (next_in_line convo hint)))
                 (hd_error (next_in_line convo hint))) now)) in
    if (List.length (Convo.participants convo) <? 2)%nat
       || negb (truthy_ostr (hd_error (next_in_line convo hint)))
    then _dissolve_conversation cid t1 else t1.
Proof.
  intros H. unfold _advance_conversation_turn, update_convo. now rewrite H.
Qed.

Lemma leave_rest (a : string) (convo : Convo.t) :
  (if mem_str a (Convo.participants convo)
   then remove_first a (Convo.participants convo)
   else Convo.participants convo)
  = remove_first a (Convo.participants convo).
Proof.
  destruct (mem_str a (Convo.participants convo)) eqn:E; [reflexivity|].
  apply mem_str_not_In in E. now rewrite remove_first_absent.
Qed.

Lemma released_not_bound (cid p : string) (t : Talks.t) (convo : Convo.t) :
  Dict.get (Talks.conversations t) cid = Some convo ->
  NoDup (Dict.keys (Talks.actor_conversation t)) ->
  In p (Convo.participants convo) ->
  Dict.get (Talks.actor_conversation (_dissolve_conversation cid t)) p
  <> Some cid.
Proof.
  intros Hget Hnd Hin. destruct (dissolve_get cid t convo Hget Hnd) as [_ H].
  rewrite H. apply mem_str_In in Hin. rewrite Hin.
  destruct (Dict.get (Talks.actor_conversation t) p) as [c|]; [|discriminate].
  destruct (String.eqb_spec c cid); cbn [andb]; [discriminate|congruence].
Qed.

(** X27. Who leaves a conversation is gone from it. With distinct keys in
    both tables and no participant listed twice, an actor that is bound to
    an existing conversation and leaves it is bound to no conversation
    afterwards, and no other conversation changes. If the conversation is
    still there, it has the remaining participants, at least two of them,
    the leaver is neither its speaker nor in its queue, and it is stamped
    with the current tick; if fewer than two participants remain, the
    conversation is gone and none of them is bound to it any more. *)
Theorem leaver_is_gone (now : Z) (a cid : string) (t : Talks.t)
  (convo : Convo.t) :
  NoDup (Dict.keys (Talks.actor_conversation t)) ->
  NoDup (Dict.keys (Talks.conversations t)) ->
  Dict.get (Talks.actor_conversation t) a = Some cid -> cid <> "" ->
  Dict.get (Talks.conversations t) cid = Some convo ->
  NoDup (Convo.participants convo) ->
  let rest := remove_first a (Convo.participants convo) in
  let t' := _leave_conversation now a t in
  Dict.get (Talks.actor_conversation t') a = None
  /\ (forall cid', cid' <> cid ->
        Dict.get (Talks.conversations t') cid'
        = Dict.get (Talks.conversations t) cid')
  /\ (forall convo', Dict.get (Talks.conversations t') cid = Some convo' ->
        Convo.participants convo' = rest
        /\ ~ In a rest
        /\ ~ In a (Convo.turn_order convo')
        /\ Convo.current_speaker convo' <> Some a
        /\ (2 <= List.length rest)%nat
        /\ Convo.last_interaction_tick convo' = now)
  /\ ((List.length rest < 2)%nat ->
      Dict.get (Talks.conversations t') cid = None
      /\ forall p, In p rest ->
           Dict.get (Talks.actor_conversation t') p <> Some cid).
Proof.
  intros Hnda Hndc Ha Hcid Hc Hndp rest t'. subst t'.
  assert (Hnotin : ~ In a rest) by now apply remove_first_nodup.
  unfold _leave_conversation.
  rewrite Ha, (truthy_str_nonempty cid Hcid). cbn [negb]. rewrite Hc.
  rewrite leave_rest. fold rest.
  rewrite (update_convo_present cid _ t convo Hc).
  set (c1 := Convo.with_participants convo rest).
  set (t1 := Talks.with_conversations t _).
  assert (H1 : Dict.get (Talks.conversations t1) cid = Some c1)
    by apply get_set_same.
  assert (Hk1 : NoDup (Dict.keys (Talks.conversations t1)))
    by now apply nodup_keys_set.
  assert (Ho1 : forall cid', cid' <> cid ->
            Dict.get (Talks.conversations t1) cid'
            = Dict.get (Talks.conversations t) cid').
  { intros cid' Hne. apply get_set_other. congruence. }
  set (t2 := if is_speaker (Convo.current_speaker convo) a then _ else t1).
  assert (Hstage :
    NoDup (Dict.keys (Talks.actor_conversation t2))
    /\ NoDup (Dict.keys (Talks.conversations t2))
    /\ (forall cid', cid' <> cid ->
          Dict.get (Talks.conversations t2) cid'
          = Dict.get (Talks.conversations t) cid')
    /\ match Dict.get (Talks.conversations t2) cid with
       | Some c2 => Convo.participants c2 = rest
                    /\ Convo.current_speaker c2 <> Some a
       | None => forall p, In p rest ->
                   Dict.get (Talks.actor_conversation t2) p <> Some cid
       end).
  { unfold t2. destruct (is_speaker (Convo.current_speaker convo) a) eqn:Hsp.
    - rewrite (update_convo_present cid _ t1 c1 H1).
      set (c1' := Convo.with_current_speaker c1 None).
      set (t1' := Talks.with_conversations t1 _).
      assert (H1' : Dict.get (Talks.conversations t1') cid = Some c1')
        by apply get_set_same.
      rewrite (advance_cases now cid None t1' c1' H1'). cbv zeta.
      set (Q := next_in_line c1' None).
      assert (HQ : forall p, In p Q -> In p rest).
      { unfold Q, next_in_line. cbn. intros p Hp. apply filter_In in Hp.
        destruct Hp as [_ Hp]. apply andb_prop in Hp. destruct Hp as [Hp _].
        now apply mem_str_In in Hp. }
      set (c2 := Convo.with_last_interaction_tick _ now).
      set (t2a := Talks.with_conversations t1' _).
      assert (H2a : Dict.get (Talks.conversations t2a) cid = Some c2)
        by apply get_set_same.
      assert (Hk2a : NoDup (Dict.keys (Talks.conversations t2a)))
        by (apply nodup_keys_set; now apply nodup_keys_set).
      assert (Ho2a : forall cid', cid' <> cid ->
                Dict.get (Talks.conversations t2a) cid'
                = Dict.get (Talks.conversations t) cid').
      { intros cid' Hne. unfold t2a, t1', Talks.with_conversations.
        cbn [Talks.conversations].
        rewrite !get_set_other by congruence. now apply Ho1. }
      destruct (_ || _).
      + destruct (dissolve_get cid t2a c2 H2a Hnda) as [Hnd2 _].
        split; [exact Hnd2|]. rewrite dissolve_conversations.
        split; [now apply nodup_keys_pop|]. split.
        * intros cid' Hne. rewrite get_pop_other by exact Hne. now apply Ho2a.
        * rewrite (get_pop_same _ _ Hk2a). intros p Hp.
          now apply (released_not_bound cid p t2a c2 H2a Hnda).
      + split; [exact Hnda|]. split; [exact Hk2a|]. split; [exact Ho2a|].
        rewrite H2a. split; [reflexivity|].
        cbn [c2 Convo.with_last_interaction_tick Convo.with_current_speaker
             Convo.current_speaker].
        intros Hhd. apply Hnotin, HQ.
        destruct Q as [|x q]; [discriminate|]. injection Hhd as ->. now left.
    - split; [exact Hnda|]. split; [exact Hk1|]. split; [exact Ho1|].
      rewrite H1. split; [reflexivity|]. cbn [c1 Convo.with_participants
        Convo.current_speaker]. intros Hcur. rewrite Hcur in Hsp.
      cbn [is_speaker] in Hsp. now rewrite String.eqb_refl in Hsp. }
  clearbody t2. destruct Hstage as (Hnd2 & Hk2 & Ho2 & H2).
  destruct (Dict.get (Talks.conversations t2) cid) as [c2|] eqn:Hg2.
  - destruct H2 as [Hp2 Hcur2].
    rewrite (update_convo_present cid _ t2 c2 Hg2).
    set (c3 := Convo.with_turn_order c2 _).
    set (t3 := Talks.with_conversations t2 _).
    set (t4 := forget_actor a t3).
    assert (H4 : Dict.get (Talks.conversations t4) cid = Some c3)
      by apply get_set_same.
    assert (Hnd4 : NoDup (Dict.keys (Talks.actor_conversation t4)))
      by now apply nodup_keys_pop.
    assert (Ha4 : Dict.get (Talks.actor_conversation t4) a = None)
      by now apply get_pop_same.
    assert (Ho4 : forall cid', cid' <> cid ->
              Dict.get (Talks.conversations t4) cid'
              = Dict.get (Talks.conversations t) cid').
    { intros cid' Hne. unfold t4, t3, forget_actor, Talks.with_conversations,
        Talks.with_actor_conversation.
      cbn [Talks.conversations]. rewrite get_set_other by congruence.
      now apply Ho2. }
    destruct (Nat.ltb_spec (List.length rest) 2) as [Hlt|Hge].
    + destruct (dissolve_get cid t4 c3 H4 Hnd4) as [_ Hd].
      split; [now rewrite Hd, Ha4|].
      rewrite dissolve_conversations.
      assert (Hk4 : NoDup (Dict.keys (Talks.conversations t4)))
        by now apply nodup_keys_set.
      split; [intros cid' Hne; rewrite get_pop_other by exact Hne;
              now apply Ho4|].
      rewrite (get_pop_same _ _ Hk4).
      split; [discriminate|]. intros _. split; [reflexivity|].
      intros p Hp. apply (released_not_bound cid p t4 c3 H4 Hnd4).
      cbn [c3 Convo.with_turn_order Convo.participants]. now rewrite Hp2.
    + rewrite (update_convo_present cid _ t4 c3 H4).
      unfold Talks.with_conversations.
      cbn [Talks.conversations Talks.actor_conversation].
      split; [exact Ha4|].
      split; [intros cid' Hne; rewrite get_set_other by congruence;
              now apply Ho4|].
      rewrite get_set_same. split; [|lia].
      intros convo' [= <-].
      cbn [c3 Convo.with_last_interaction_tick Convo.with_turn_order
           Convo.participants Convo.turn_order Convo.current_speaker
           Convo.last_interaction_tick].
      split; [exact Hp2|]. split; [exact Hnotin|]. split.
      * intros Hin. apply filter_In in Hin. destruct Hin as [_ Hin].
        now rewrite String.eqb_refl in Hin.
      * split; [exact Hcur2|]. split; [exact Hge|reflexivity].
  - rewrite (update_convo_absent cid _ t2 Hg2).
    set (t4 := forget_actor a t2).
    assert (H4 : Dict.get (Talks.conversations t4) cid = None) by exact Hg2.
    assert (Hfin : (if (List.length rest <? 2)%nat
                    then _dissolve_conversation cid t4
                    else update_convo cid
                           (fun c => Convo.with_last_interaction_tick c now)
                           t4) = t4).
    { destruct (_ <? _)%nat;
        [now apply dissolve_absent|now apply update_convo_absent]. }
    rewrite Hfin.
    split; [now apply get_pop_same|]. split; [exact Ho2|].
    rewrite H4. split; [discriminate|]. intros _. split; [reflexivity|].
    intros p Hp. unfold t4, forget_actor, Talks.with_actor_conversation.
    cbn [Talks.actor_conversation].
    rewrite get_pop_other; [now apply H2|]. intros ->. now apply Hnotin.
Qed.

Lemma leaver_is_gone_witness :
  let rest := remove_first "npc_guard" (Convo.participants Chat.duo) in
  let t' := _leave_conversation 9 "npc_guard" Chat.talks in
  Dict.get (Talks.actor_conversation t') "npc_guard" = None
  /\ (forall cid', cid' <> "convo_npc_guard_3" ->
        Dict.get (Talks.conversations t') cid'
        = Dict.get (Talks.conversations Chat.talks) cid')
  /\ (forall convo',
        Dict.get (Talks.conversations t') "convo_npc_guard_3" = Some convo' ->
        Convo.participants convo' = rest
        /\ ~ In "npc_guard" rest
        /\ ~ In "npc_guard" (Convo.turn_order convo')
        /\ Convo.current_speaker convo' <> Some "npc_guard"
        /\ (2 <= List.length rest)%nat
        /\ Convo.last_interaction_tick convo' = 9)
  /\ ((List.length rest < 2)%nat ->
      Dict.get (Talks.conversations t') "convo_npc_guard_3" = None
      /\ forall p, In p rest ->
           Dict.get (Talks.actor_conversation t') p
           <> Some "convo_npc_guard_3").
Proof.
  apply (leaver_is_gone 9 "npc_guard" "convo_npc_guard_3" Chat.talks Chat.duo).
  - cbn. repeat constructor; cbn; intuition discriminate.
  - cbn. repeat constructor; cbn; intuition discriminate.
  - reflexivity.
  - discriminate.
  - reflexivity.
  - cbn. repeat constructor; cbn; intuition discriminate.
Defined.

Lemma eqb_ne (a b : string) : a <> b -> String.eqb a b = false.
Proof. intros H. now apply String.eqb_neq. Qed.

(** X28. A line addressed to somebody opens a conversation, and the reply
    returns the floor. When a speaker bound to no conversation talks to
    another agent that stands where the speaker stands (both ids
    non-empty), [_handle_talk] creates the conversation
    [convo_<speaker>_<tick>] of the two, records the line, gives the floor to
    the addressee with the speaker waiting, and binds both to it, whatever
    the addressee was bound to before; no other conversation changes. When
    the addressee then talks without naming anybody, the line is recorded,
    the floor goes back to the first speaker and the addressee waits. *)
Theorem talk_opens_and_reply_returns_the_floor (w : WorldState.t)
  (now later : Z) (s r : string) (line1 line2 : pyval) (e1 e2 : Event.t)
  (t : Talks.t) :
  s <> "" -> r <> "" -> s <> r ->
  Dict.get (Talks.actor_conversation t) s = None ->
  Event.actor_id e1 = s -> Event.target_ids e1 = [r] ->
  Event.payload e1 = [("content", line1)] ->
  stands_in w (find_npc_location w s) r = true ->
  Event.actor_id e2 = r -> Event.target_ids e2 = [] ->
  Event.payload e2 = [("content", line2)] ->
  let cid := String.append "convo_"
               (String.append s (String.append "_" (py_str_of_int now))) in
  let here := find_npc_location w s in
  exists t1 t2,
    _handle_talk w now e1 t = (Ok tt, t1)
    /\ Dict.get (Talks.conversations t1) cid
       = Some (Convo.mk cid [s; r] [s] (Some r) now now
                        [Line.mk s now line1] here)
    /\ Dict.get (Talks.actor_conversation t1) s = Some cid
    /\ Dict.get (Talks.actor_conversation t1) r = Some cid
    /\ (forall cid', cid' <> cid ->
          Dict.get (Talks.conversations t1) cid'
          = Dict.get (Talks.conversations t) cid')
    /\ _handle_talk w later e2 t1 = (Ok tt, t2)
    /\ Dict.get (Talks.conversations t2) cid
       = Some (Convo.mk cid [s; r] [r] (Some s) now later
                        [Line.mk s now line1; Line.mk r later line2] here)
    /\ Talks.actor_conversation t2 = Talks.actor_conversation t1.
Proof.
  intros Hs Hr Hsr Hfree Ha1 Ht1 Hp1 Hhere Ha2 Ht2 Hp2 cid here.
  pose proof (eqb_ne s r Hsr) as Esr.
  pose proof (eqb_ne r s (not_eq_sym Hsr)) as Ers.
  pose proof (truthy_str_nonempty s Hs) as Ts.
  pose proof (truthy_str_nonempty r Hr) as Tr.
  set (convo0 := Convo.mk cid [s; r] [r] (Some s) now now
                          [Line.mk s now line1] here).
  set (convo1 := Convo.mk cid [s; r] [s] (Some r) now now
                          [Line.mk s now line1] here).
  set (convo2 := Convo.mk cid [s; r] [r] (Some s) now later
                   [Line.mk s now line1; Line.mk r later line2] here).
  set (actors := Dict.set (Dict.set (Talks.actor_conversation t) s cid) r cid).
  set (t0 := Talks.mk (Dict.set (Talks.conversations t) cid convo0) actors).
  set (t1 := Talks.mk (Dict.set (Talks.conversations t0) cid convo1) actors).
  set (t1s := Talks.mk (Dict.set (Talks.conversations t1) cid
                          (say later r line2 convo1)) actors).
  set (t2 := Talks.mk (Dict.set (Talks.conversations t1s) cid convo2) actors).
  assert (Hadv1 : _advance_conversation_turn now cid (Some r) t0 = t1).
  { rewrite (advance_keeps now cid (Some r) t0 convo0 r [s]);
      [reflexivity|apply get_set_same| |exact Hr|cbn; lia].
    unfold next_in_line. cbn [convo0 Convo.current_speaker Convo.participants
      Convo.turn_order mem_str existsb is_speaker filter].
    rewrite Tr, Ts, !String.eqb_refl, Ers. cbn. rewrite String.eqb_refl.
    reflexivity. }
  assert (Hadv2 : _advance_conversation_turn later cid None t1s = t2).
  { rewrite (advance_keeps later cid None t1s (say later r line2 convo1) s [r]);
      [reflexivity|apply get_set_same| |exact Hs|cbn; lia].
    unfold next_in_line. cbn [convo1 say Convo.with_last_interaction_tick
      Convo.with_history Convo.current_speaker Convo.participants
      Convo.turn_order mem_str existsb is_speaker filter].
    rewrite Tr, !String.eqb_refl, Esr, Ers. cbn. reflexivity. }
  exists t1, t2.
  assert (Hbind : Dict.get actors s = Some cid /\ Dict.get actors r = Some cid).
  { unfold actors. split; [|apply get_set_same].
    rewrite get_set_other by (intros E; now apply Hsr); apply get_set_same. }
  destruct Hbind as [Hbs Hbr].
  split.
  { unfold _handle_talk. rewrite Ha1, Ht1, Hp1, Hfree.
    change (pget [("content", line1)] "conversation_id") with VNone.
    change (pget [("content", line1)] "recipient_id") with VNone.
    change (Dict.get_default [("content", line1)] "content" (VStr ""))
      with line1.
    cbn [py_or truthy hint_of]. rewrite Tr, Hhere.
    cbn [List.length Nat.ltb Nat.leb filter fold_left bind_actor
         Talks.with_conversations Talks.with_actor_conversation
         Talks.conversations Talks.actor_conversation].
    rewrite String.eqb_refl, Ers. cbn [negb]. fold cid.
    exact (f_equal (fun x => (Ok tt, x)) Hadv1). }
  split; [apply get_set_same|]. split; [exact Hbs|]. split; [exact Hbr|].
  split.
  { intros cid' Hne. cbn [t1 t0 Talks.conversations].
    now rewrite !get_set_other by congruence. }
  split.
  { unfold _handle_talk. rewrite Ha2, Ht2, Hp2.
    change (pget [("content", line2)] "conversation_id") with VNone.
    change (pget [("content", line2)] "recipient_id") with VNone.
    change (Dict.get_default [("content", line2)] "content" (VStr ""))
      with line2.
    cbn [py_or truthy hint_of t1 Talks.actor_conversation Talks.conversations].
    rewrite Hbr, get_set_same.
    cbn [convo1 Convo.current_speaker is_speaker].
    rewrite String.eqb_refl.
    rewrite (update_convo_present cid _ _ convo1) by apply get_set_same.
    exact (f_equal (fun x => (Ok tt, x)) Hadv2). }
  split; [apply get_set_same|reflexivity].
Qed.

Lemma talk_opens_and_reply_returns_the_floor_witness :
  let cid := String.append "convo_"
               (String.append "npc_guard"
                  (String.append "_" (py_str_of_int 3))) in
  let here := find_npc_location (Town.world "open") "npc_guard" in
  exists t1 t2,
    _handle_talk (Town.world "open") 3 Chat.halt Talks.empty = (Ok tt, t1)
    /\ Dict.get (Talks.conversations t1) cid
       = Some (Convo.mk cid ["npc_guard"; "npc_sample"] ["npc_guard"]
                        (Some "npc_sample") 3 3
                        [Line.mk "npc_guard" 3 (VStr "halt")] here)
    /\ Dict.get (Talks.actor_conversation t1) "npc_guard" = Some cid
    /\ Dict.get (Talks.actor_conversation t1) "npc_sample" = Some cid
    /\ (forall cid', cid' <> cid ->
          Dict.get (Talks.conversations t1) cid'
          = Dict.get (Talks.conversations Talks.empty) cid')
    /\ _handle_talk (Town.world "open") 4 Chat.why t1 = (Ok tt, t2)
    /\ Dict.get (Talks.conversations t2) cid
       = Some (Convo.mk cid ["npc_guard"; "npc_sample"] ["npc_sample"]
                        (Some "npc_guard") 3 4
                        [Line.mk "npc_guard" 3 (VStr "halt");
                         Line.mk "npc_sample" 4 (VStr "why")] here)
    /\ Talks.actor_conversation t2 = Talks.actor_conversation t1.
Proof.
  apply (talk_opens_and_reply_returns_the_floor (Town.world "open") 3 4
           "npc_guard" "npc_sample" (VStr "halt") (VStr "why")
           Chat.halt Chat.why Talks.empty);
    try reflexivity; discriminate.
Defined.

(** ** Game-master operations *)

Lemma occupancy_zero_get (locs : dict LocationState.t) (x k : string)
  (l : LocationState.t) :
  occupancy x locs = O -> Dict.get locs k = Some l ->
  ~ In x (LocationState.occupants l).
Proof.
  unfold occupancy. induction locs as [|[k0 l0] r IH]; [discriminate|].
  cbn [map snd Dict.get]. intros Hsum. cbn [list_sum fold_right] in Hsum.
  fold (list_sum (map (fun kv : string * LocationState.t =>
                         count_occ string_dec
                                   (LocationState.occupants (snd kv)) x) r))
    in Hsum.
  destruct (String.eqb k0 k).
  - intros [= <-]. apply (count_occ_not_In string_dec). lia.
  - apply IH. lia.
Qed.

Lemma find_set_fresh (locs : dict LocationState.t) (k x : string) :
  Dict.get locs k = None ->
  find_in_locations (Dict.set locs k (LocationState.fresh k)) x
  = find_in_locations locs x.
Proof.
  induction locs as [|[k0 l0] r IH]; [reflexivity|].
  cbn [Dict.get Dict.set]. destruct (String.eqb k0 k); [discriminate|].
  intros H. cbn [find_in_locations]. now rewrite IH.
Qed.

Lemma set_fresh_then (locs : dict LocationState.t) (k c : string)
  (f l l' x : LocationState.t) :
  Dict.get locs k = None -> Dict.get locs c = Some l ->
  Dict.set (Dict.set (Dict.set locs k f) c l') k x
  = Dict.set (Dict.set locs c l') k x.
Proof.
  induction locs as [|[k0 l0] r IH]; [discriminate|].
  cbn [Dict.get Dict.set].
  destruct (String.eqb k0 k) eqn:Ek; [discriminate|]. intros Hk.
  destruct (String.eqb k0 c) eqn:Ec.
  - intros _. cbn [Dict.set]. rewrite Ek. cbn [Dict.set]. rewrite Ec.
    cbn [Dict.set]. rewrite Ek. f_equal. apply set_set.
  - intros Hc. cbn [Dict.set]. rewrite Ek. cbn [Dict.set]. rewrite Ec.
    cbn [Dict.set]. rewrite Ek. f_equal. now apply IH.
Qed.

(** X29. The game master's move and the move event agree. In a world whose
    location ids are distinct and non-empty, for a registered agent that is
    listed at most once among all occupants and a non-empty target,
    [_gm_move_actor] answers true and leaves exactly the world that applying
    a [move] event of that agent to that target leaves, whether the target
    had a state before or is created by the move. *)
Theorem gm_move_agrees_with_move_event (w : WorldState.t) (a target : string)
  (tick : Z) (payload : dict pyval) :
  Dict.mem (npcs w) a = true -> target <> "" ->
  NoDup (Dict.keys (locations_state w)) ->
  ~ In "" (Dict.keys (locations_state w)) ->
  (occupancy a (locations_state w) <= 1)%nat ->
  exists w',
    _gm_move_actor a target w = (true, w')
    /\ apply_event (Event.mk "move" tick a [target] payload) w = (Ok tt, w').
Proof.
  intros Hnpc Hne Hnd Hkeys Hocc.
  change (apply_event (Event.mk "move" tick a [target] payload) w)
    with (apply_move (Event.mk "move" tick a [target] payload) w).
  unfold _gm_move_actor, apply_move. rewrite Hnpc.
  cbn [negb Event.target_ids Event.actor_id].
  rewrite (truthy_str_nonempty _ Hne). cbn [negb].
  unfold find_npc_location, get_location_state, subscript, Dict.mem,
    Dict.get_default.
  destruct (Dict.get (locations_state w) target) as [lt|] eqn:Ht; cbn [negb].
  - (* the target has a state *)
    destruct (find_in_locations (locations_state w) a) as [cur|] eqn:Hf.
    + destruct (find_get _ _ _ Hnd Hf) as (l & Hget & Hin).
      assert (Hcur : cur <> "").
      { intros ->. apply Hkeys. apply get_In in Hget.
        change "" with (fst ("", l)). now apply in_map. }
      rewrite (truthy_str_nonempty _ Hcur), Hget.
      apply mem_str_In in Hin as Hmem. rewrite Hmem.
      pose proof (occupancy_leave _ _ a a _ Hget Hin) as Hl.
      destruct (string_dec a a); [|contradiction].
      set (locs1 := Dict.set (locations_state w) cur _) in *.
      assert (Hz : occupancy a locs1 = O) by lia.
      cbn [set_location locations_state WorldState.with_locations_state].
      fold locs1.
      destruct (Dict.get locs1 target) as [st|] eqn:Hst.
      * pose proof (occupancy_zero_get _ _ _ _ Hz Hst) as Hnot.
        apply mem_str_not_In in Hnot. rewrite Hnot. cbn [negb].
        eexists. split; reflexivity.
      * exfalso. unfold locs1 in Hst.
        destruct (String.eqb_spec cur target).
        -- subst. now rewrite get_set_same in Hst.
        -- rewrite get_set_other in Hst by assumption. congruence.
    + rewrite Ht. apply find_none_occupancy in Hf.
      pose proof (occupancy_zero_get _ _ _ _ Hf Ht) as Hnot.
      apply mem_str_not_In in Hnot. rewrite Hnot. cbn [negb].
      eexists. split; reflexivity.
  - (* the target is created *)
    cbn [set_location locations_state WorldState.with_locations_state].
    rewrite (find_set_fresh _ target a Ht).
    destruct (find_in_locations (locations_state w) a) as [cur|] eqn:Hf.
    + destruct (find_get _ _ _ Hnd Hf) as (l & Hget & Hin).
      assert (Hcur : cur <> "").
      { intros ->. apply Hkeys. apply get_In in Hget.
        change "" with (fst ("", l)). now apply in_map. }
      assert (Hct : target <> cur) by (intros ->; congruence).
      rewrite (truthy_str_nonempty _ Hcur), Hget.
      rewrite (get_set_other _ _ _ _ Hct), Hget.
      apply mem_str_In in Hin as Hmem. rewrite Hmem.
      cbn [set_location locations_state WorldState.with_locations_state].
      rewrite (get_set_other _ cur target _ (not_eq_sym Hct)).
      rewrite get_set_same.
      rewrite (get_set_other _ cur target _ (not_eq_sym Hct)), Ht.
      cbn [LocationState.fresh LocationState.occupants mem_str existsb negb].
      eexists. split; [reflexivity|].
      unfold set_location, WorldState.with_locations_state.
      cbn [locations_state npcs locations_static item_blueprints
           item_instances].
      rewrite (set_fresh_then _ target cur _ l _ _ Ht Hget). reflexivity.
    + unfold set_location, WorldState.with_locations_state.
      cbn [locations_state npcs locations_static item_blueprints
           item_instances].
      rewrite get_set_same, Ht.
      cbn [LocationState.fresh LocationState.occupants mem_str existsb negb].
      eexists. split; [reflexivity|]. now rewrite set_set.
Qed.

Lemma gm_move_agrees_with_move_event_witness :
  exists w',
    _gm_move_actor "npc_guard" "cellar" (Town.world "open") = (true, w')
    /\ apply_event (Event.mk "move" 1 "npc_guard" ["cellar"] [])
                   (Town.world "open") = (Ok tt, w').
Proof.
  apply (gm_move_agrees_with_move_event (Town.world "open") "npc_guard"
           "cellar" 1 []).
  - reflexivity.
  - discriminate.
  - simpl. distinct_strings.
  - simpl. intuition discriminate.
  - vm_compute. lia.
Defined.

Lemma set_comm_present {V} (d : dict V) (a b : string) (v x y : V) :
  Dict.get d a = Some v -> a <> b ->
  Dict.set (Dict.set d b y) a x = Dict.set (Dict.set d a x) b y.
Proof.
  intros Hget Hne. induction d as [|[k v0] r IH]; [discriminate|].
  cbn [Dict.get Dict.set] in *.
  destruct (String.eqb_spec k a) as [->|Hka].
  - destruct (String.eqb_spec a b); [contradiction|].
    cbn [Dict.set]. rewrite String.eqb_refl.
    destruct (String.eqb_spec a b); [contradiction|reflexivity].
  - destruct (String.eqb_spec k b) as [->|Hkb]; cbn [Dict.set].
    + destruct (String.eqb_spec b a); [congruence|].
      now rewrite String.eqb_refl.
    + destruct (String.eqb_spec k a); [contradiction|].
      destruct (String.eqb_spec k b); [contradiction|].
      f_equal. now apply IH.
Qed.

Lemma pop_set_absent {V} (d : dict V) (k : string) (v : V) :
  Dict.get d k = None -> Dict.pop (Dict.set d k v) k = d.
Proof.
  induction d as [|[k0 v0] r IH]; cbn [Dict.get Dict.set Dict.pop].
  - now rewrite String.eqb_refl.
  - destruct (String.eqb k0 k) eqn:E; [discriminate|]. intros H.
    cbn [Dict.pop]. rewrite E. f_equal. now apply IH.
Qed.

Section Joined.
Variables (w : WorldState.t) (a b : string) (la lb : LocationState.t).
Hypothesis Hab : a <> b.
Hypothesis Ha : Dict.get (locations_state w) a = Some la.
Hypothesis Hb : Dict.get (locations_state w) b = Some lb.

Lemma with_edges_get_a (ea eb : Edge.t) :
  Dict.get (locations_state (with_edges w a b la lb ea eb)) a
  = Some (LocationState.with_connections_state la
            (Dict.set (LocationState.connections_state la) b ea)).
Proof.
  unfold with_edges, set_location, WorldState.with_locations_state.
  cbn [locations_state].
  rewrite get_set_other by (intros E; now apply Hab).
  apply get_set_same.
Qed.

Lemma with_edges_get_b (ea eb : Edge.t) :
  Dict.get (locations_state (with_edges w a b la lb ea eb)) b
  = Some (LocationState.with_connections_state lb
            (Dict.set (LocationState.connections_state lb) a eb)).
Proof.
  unfold with_edges, set_location, WorldState.with_locations_state.
  cbn [locations_state]. apply get_set_same.
Qed.

Lemma with_edges_forward (f : Edge.t -> Edge.t) (ea eb : Edge.t) :
  update_edge a b f (with_edges w a b la lb ea eb)
  = with_edges w a b la lb (f ea) eb.
Proof.
  unfold update_edge. rewrite with_edges_get_a.
  unfold with_edges, set_location, WorldState.with_locations_state,
    LocationState.with_connections_state, Dict.get_default.
  cbn [locations_state npcs locations_static item_blueprints item_instances
       LocationState.connections_state LocationState.id
       LocationState.occupants LocationState.items
       LocationState.sublocations LocationState.transient_effects].
  rewrite get_set_same, !set_set. f_equal.
  set (x := LocationState.mk _ _ _ _ _ (Dict.set _ b ea)).
  rewrite (set_comm_present (Dict.set (locations_state w) a x) a b x);
    [|apply get_set_same|exact Hab].
  now rewrite set_set.
Qed.

Lemma with_edges_backward (f : Edge.t -> Edge.t) (ea eb : Edge.t) :
  update_edge b a f (with_edges w a b la lb ea eb)
  = with_edges w a b la lb ea (f eb).
Proof.
  unfold update_edge. rewrite with_edges_get_b.
  unfold with_edges, set_location, WorldState.with_locations_state,
    LocationState.with_connections_state, Dict.get_default.
  cbn [locations_state npcs locations_static item_blueprints item_instances
       LocationState.connections_state LocationState.id
       LocationState.occupants LocationState.items
       LocationState.sublocations LocationState.transient_effects].
  now rewrite get_set_same, !set_set.
Qed.

Lemma with_edges_edge (ea eb : Edge.t) :
  edge_of (with_edges w a b la lb ea eb) a b = Some ea
  /\ edge_of (with_edges w a b la lb ea eb) b a = Some eb.
Proof.
  unfold edge_of. rewrite with_edges_get_a, with_edges_get_b.
  cbn [LocationState.with_connections_state LocationState.connections_state].
  split; apply get_set_same.
Qed.

Lemma with_edges_start :
  update_edge b a (fun x => x) (update_edge a b (fun x => x) w)
  = with_edges w a b la lb (edge_to la b) (edge_to lb a).
Proof.
  unfold update_edge at 2. rewrite Ha.
  unfold update_edge, set_location, WorldState.with_locations_state.
  cbn [locations_state].
  rewrite get_set_other by exact Hab. rewrite Hb. reflexivity.
Qed.

Lemma with_edges_undo (ea eb : Edge.t) :
  Dict.get (LocationState.connections_state la) b = None ->
  Dict.get (LocationState.connections_state lb) a = None ->
  drop_edge b a (drop_edge a b (with_edges w a b la lb ea eb)) = w.
Proof.
  intros Hna Hnb. unfold drop_edge at 2. rewrite with_edges_get_a.
  cbn [LocationState.with_connections_state LocationState.connections_state].
  rewrite (pop_set_absent _ _ _ Hna).
  unfold drop_edge, with_edges, set_location, WorldState.with_locations_state.
  cbn [locations_state npcs locations_static item_blueprints item_instances
       LocationState.connections_state LocationState.id
       LocationState.occupants LocationState.items
       LocationState.sublocations LocationState.transient_effects].
  set (x := LocationState.with_connections_state la _).
  set (y := LocationState.with_connections_state lb _).
  assert (Hx : LocationState.with_connections_state x
                 (LocationState.connections_state la) = la)
    by (unfold x; now destruct la).
  rewrite Hx.
  rewrite (set_comm_present (Dict.set (locations_state w) a x) a b x);
    [|apply get_set_same|exact Hab].
  rewrite set_set, (set_get_id _ _ _ Ha), get_set_same.
  cbn [y LocationState.with_connections_state LocationState.connections_state
       LocationState.id LocationState.occupants LocationState.items
       LocationState.sublocations LocationState.transient_effects].
  rewrite (pop_set_absent _ _ _ Hnb), set_set.
  assert (Hy : LocationState.with_connections_state y
                 (LocationState.connections_state lb) = lb)
    by (unfold y; now destruct lb).
  rewrite Hy, (set_get_id _ _ _ Hb). now destruct w.
Qed.

Lemma with_edges_find (ea eb : Edge.t) (x : string) :
  find_npc_location (with_edges w a b la lb ea eb) x = find_npc_location w x.
Proof.
  unfold find_npc_location, with_edges, set_location,
    WorldState.with_locations_state.
  cbn [locations_state].
  rewrite (find_in_locations_set _ b x lb);
    [|rewrite get_set_other by exact Hab; exact Hb|reflexivity].
  now apply (find_in_locations_set _ a x la).
Qed.

Lemma with_edges_infer_forward (ea eb : Edge.t) :
  exists ea',
    infer_forward_direction a b (with_edges w a b la lb ea eb)
    = with_edges w a b la lb ea' eb
    /\ Edge.status ea' = Edge.status ea.
Proof.
  unfold infer_forward_direction.
  rewrite (proj1 (with_edges_edge ea eb)).
  destruct (Edge.direction ea); [now exists ea|].
  destruct (Dict.get (locations_static (with_edges w a b la lb ea eb)) a)
    as [static|]; [|now exists ea].
  destruct (first_direction_to (LocationStatic.hex_connections static) b)
    as [d|]; [|now exists ea].
  rewrite with_edges_forward. now exists (Edge.with_direction ea d).
Qed.

Lemma with_edges_infer_inverse (ea eb : Edge.t) :
  exists eb',
    infer_inverse_direction a b (with_edges w a b la lb ea eb)
    = with_edges w a b la lb ea eb'
    /\ Edge.status eb' = Edge.status eb.
Proof.
  unfold infer_inverse_direction.
  rewrite (proj2 (with_edges_edge ea eb)).
  destruct (Edge.direction eb); [now exists eb|].
  rewrite (proj1 (with_edges_edge ea eb)).
  destruct (Edge.direction ea) as [fdir|]; [|now exists eb].
  destruct (Dict.get HEX_DIR_INVERSE fdir) as [inv|]; [|now exists eb].
  destruct (truthy_str inv); [|now exists eb].
  rewrite with_edges_backward. now exists (Edge.with_direction eb inv).
Qed.
End Joined.

(** X30. Connecting two locations and disconnecting them again is a round
    trip. For two different locations that both have a state and no edge
    between them, [_gm_connect_locations] answers true and joins them by an
    edge in each direction whose status is closed when asked for closed and
    open otherwise, so that the move tool lets whoever stands in the first
    pass to the second exactly when the status is open;
    [_gm_disconnect_locations] then answers true and gives back the world
    as it was before the connection. *)
Theorem connect_then_disconnect (w : WorldState.t) (a b status : string)
  (la lb : LocationState.t) :
  a <> b ->
  Dict.get (locations_state w) a = Some la ->
  Dict.get (locations_state w) b = Some lb ->
  Dict.get (LocationState.connections_state la) b = None ->
  Dict.get (LocationState.connections_state lb) a = None ->
  exists w1 ea eb,
    _gm_connect_locations a b status w = (true, w1)
    /\ edge_of w1 a b = Some ea /\ edge_of w1 b a = Some eb
    /\ Edge.status ea = Some (edge_status status)
    /\ Edge.status eb = Some (edge_status status)
    /\ (forall intent actor,
          Dict.get intent "target_location" = Some (VStr b) ->
          a <> "" -> b <> "" ->
          find_npc_location w (NPC.id actor) = Some a ->
          MoveTool_validate_intent intent w1 actor
          = Ok (negb (String.eqb status "closed")))
    /\ _gm_disconnect_locations a b w1 = (true, w).
Proof.
  intros Hab Ha Hb Hna Hnb. unfold _gm_connect_locations.
  destruct (String.eqb_spec a b); [contradiction|].
  unfold Dict.mem. rewrite Ha, Hb. cbn [negb orb]. fold (edge_status status).
  rewrite (with_edges_start w a b la lb) by assumption.
  rewrite (with_edges_forward w a b la lb) by assumption.
  rewrite (with_edges_backward w a b la lb).
  destruct (with_edges_infer_forward w a b la lb Hab
              (Edge.with_status (edge_to la b) (edge_status status))
              (Edge.with_status (edge_to lb a) (edge_status status)))
    as (ea & -> & Hsa).
  destruct (with_edges_infer_inverse w a b la lb Hab ea
              (Edge.with_status (edge_to lb a) (edge_status status)))
    as (eb & -> & Hsb).
  destruct (with_edges_edge w a b la lb Hab ea eb) as [Hea Heb].
  exists (with_edges w a b la lb ea eb), ea, eb.
  split; [reflexivity|]. split; [exact Hea|]. split; [exact Heb|].
  split; [exact Hsa|]. split; [exact Hsb|]. split.
  - intros intent actor Hint Ha0 Hb0 Hfind.
    rewrite (MoveTool_validate_edge intent _ actor b a ea Hint Hb0);
      [| |rewrite (with_edges_find w a b la lb) by assumption; exact Hfind
       |exact Ha0|exact Hea].
    + unfold Edge.is_open. rewrite Hsa. unfold edge_status.
      now destruct (String.eqb status "closed").
    + unfold Dict.mem. now rewrite (with_edges_get_b w a b la lb).
  - unfold _gm_disconnect_locations.
    now rewrite (with_edges_undo w a b la lb) by assumption.
Qed.

Lemma connect_then_disconnect_witness :
  exists w1 ea eb,
    _gm_connect_locations "tavern" "market_square" "open" (Town.world "open")
    = (true, w1)
    /\ edge_of w1 "tavern" "market_square" = Some ea
    /\ edge_of w1 "market_square" "tavern" = Some eb
    /\ Edge.status ea = Some (edge_status "open")
    /\ Edge.status eb = Some (edge_status "open")
    /\ (forall intent actor,
          Dict.get intent "target_location" = Some (VStr "market_square") ->
          "tavern" <> "" -> "market_square" <> "" ->
          find_npc_location (Town.world "open") (NPC.id actor)
          = Some "tavern" ->
          MoveTool_validate_intent intent w1 actor
          = Ok (negb (String.eqb "open" "closed")))
    /\ _gm_disconnect_locations "tavern" "market_square" w1
       = (true, Town.world "open").
Proof.
  apply (connect_then_disconnect (Town.world "open") "tavern" "market_square"
           "open"
           (LocationState.mk "tavern" ["npc_bard"] [] [] []
              [("town_square", Edge.mk (Some "open") (Some "west"))])
           (LocationState.mk "market_square" [] [] [] []
              [("town_square", Edge.mk (Some "open") (Some "east"))]));
    try reflexivity.
  discriminate.
Defined.
